(** * Review-Master: messaging automation, campaign orchestration, sentiment

    A shallow embedding of the Python sources

      - src/infrastructure/importer/excel_parser.py    (ExcelParser)
      - src/infrastructure/llm/sentiment_service.py    (SentimentService)
      - src/infrastructure/whatsapp/whatsapp_client.py (WhatsAppClient)
      - src/infrastructure/whatsapp/messaging_provider.py
      - src/infrastructure/persistence/database.py     (customers table)
      - run_campaign.py                                (campaign loop)

    A Python [str] is modelled as a sequence of Unicode code points
    ([str], with [char := N]): its length, its slices and its white space
    are those of Python.  What the interpreter's Unicode database says of
    the characters outside ASCII (which are decimal digits, what a text
    becomes in lower case) is not written out: it is a record [Unicode] that
    the functions consult, and every statement holds for all such records.
    Exceptions are values of [exn]; a call yields an [outcome], and stateful
    code is written in the state and exception monad [M].  The browser and
    the remote classifier are oracles as well, so every statement quantifies
    over all their possible behaviours. *)

From Stdlib Require Import ZArith NArith Lia Bool List Strings.Byte.
From stdpp Require Import base decidable countable gmap.
Import ListNotations.

Local Open Scope bool_scope.

(** ** Python strings *)

(** A character is a Unicode code point. *)
Definition char := N.
Bind Scope N_scope with char.

(** [str]: a sequence of code points. *)
Inductive str :=
| EmptyString
| String (c : char) (r : str).

(** String literals are read as UTF-8. *)
Module Utf8.

Definition cont (b : byte) : option N :=
  let n := Byte.to_N b in
  if (128 <=? n)%N && (n <? 192)%N then Some (n - 128)%N else None.

Fixpoint decode (l : list byte) : option str :=
  match l with
  | [] => Some EmptyString
  | b :: r =>
      let n := Byte.to_N b in
      if (n <? 128)%N then option_map (String n) (decode r)
      else if (n <? 192)%N then None
      else if (n <? 224)%N then
        match r with
        | b1 :: r1 =>
            match cont b1 with
            | Some c1 => option_map (String ((n - 192) * 64 + c1)%N) (decode r1)
            | None => None
            end
        | _ => None
        end
      else if (n <? 240)%N then
        match r with
        | b1 :: b2 :: r2 =>
            match cont b1, cont b2 with
            | Some c1, Some c2 =>
                option_map (String ((n - 224) * 4096 + c1 * 64 + c2)%N) (decode r2)
            | _, _ => None
            end
        | _ => None
        end
      else
        match r with
        | b1 :: b2 :: b3 :: r3 =>
            match cont b1, cont b2, cont b3 with
            | Some c1, Some c2, Some c3 =>
                option_map
                  (String ((n - 240) * 262144 + c1 * 4096 + c2 * 64 + c3)%N)
                  (decode r3)
            | _, _, _ => None
            end
        | _ => None
        end
  end.

Definition byte_of (n : N) : byte :=
  match Byte.of_N n with
  | Some b => b
  | None => x00
  end.

Fixpoint encode (s : str) : list byte :=
  match s with
  | EmptyString => []
  | String c r =>
      (if (c <? 128)%N then [byte_of c]
       else if (c <? 2048)%N then
         [byte_of (192 + c / 64); byte_of (128 + c mod 64)]
       else if (c <? 65536)%N then
         [byte_of (224 + c / 4096); byte_of (128 + (c / 64) mod 64);
          byte_of (128 + c mod 64)]
       else
         [byte_of (240 + c / 262144); byte_of (128 + (c / 4096) mod 64);
          byte_of (128 + (c / 64) mod 64); byte_of (128 + c mod 64)])%N
      ++ encode r
  end.

End Utf8.

Declare Scope str_scope.
Delimit Scope str_scope with str.
Bind Scope str_scope with str.
String Notation str Utf8.decode Utf8.encode : str_scope.
Local Open Scope str_scope.

#[global] Instance str_eq_dec : EqDecision str.
Proof. solve_decision. Defined.

Fixpoint str_to_list (s : str) : list N :=
  match s with
  | EmptyString => []
  | String c r => c :: str_to_list r
  end.

Fixpoint str_of_list (l : list N) : str :=
  match l with
  | [] => EmptyString
  | c :: r => String c (str_of_list r)
  end.

#[global] Instance str_countable : Countable str.
Proof.
  refine (inj_countable' str_to_list str_of_list _).
  intros s. induction s as [|c r IH]; simpl; [reflexivity | rewrite IH; reflexivity].
Defined.

(** [a + b] *)
Fixpoint append (a b : str) : str :=
  match a with
  | EmptyString => b
  | String c r => String c (append r b)
  end.

Infix "+:+" := append (at level 60, right associativity) : str_scope.

(** ** Python string operations *)

Module PyStr.

(** [a == b] *)
Fixpoint eqb (a b : str) : bool :=
  match a, b with
  | EmptyString, EmptyString => true
  | String x a', String y b' => (x =? y)%N && eqb a' b'
  | _, _ => false
  end.

(** [ord(s)] of a one-character literal. *)
Definition ord (s : str) : char :=
  match s with
  | String c _ => c
  | EmptyString => 0%N
  end.

Definition is_ascii (c : char) : bool := (c <? 128)%N.

(** White space as [str.strip], [str.split] and [str.isspace] know it: the
    ASCII controls TAB to CR and FS to US, the space, and the Unicode
    separators NEL, NBSP, U+1680, U+2000 to U+200A, U+2028, U+2029, U+202F,
    U+205F and U+3000. *)
Definition isspace (c : char) : bool :=
  ((9 <=? c) && (c <=? 13) || (28 <=? c) && (c <=? 32)
   || (c =? 133) || (c =? 160) || (c =? 5760)
   || (8192 <=? c) && (c <=? 8202)
   || (c =? 8232) || (c =? 8233) || (c =? 8239) || (c =? 8287)
   || (c =? 12288))%N.

(** What the Unicode database of the interpreter says beyond ASCII.  The
    three functions are consulted for characters and texts that are not
    ASCII only. *)
Record Unicode := {
  is_decimal : char -> bool;     (* the character is in category Nd *)
  lower_text : str -> str;       (* [s.lower()] *)
  capitalize_text : str -> str   (* [s.capitalize()] *)
}.

Definition ascii_digit (c : char) : bool := ((48 <=? c) && (c <=? 57))%N.

Definition isupper (c : char) : bool := ((65 <=? c) && (c <=? 90))%N.

Definition islower (c : char) : bool := ((97 <=? c) && (c <=? 122))%N.

(** The two case mappings on ASCII. *)
Definition lower_char (c : char) : char :=
  if isupper c then (c + 32)%N else c.

Definition upper_char (c : char) : char :=
  if islower c then (c - 32)%N else c.

(** [len(s)] *)
Fixpoint len (s : str) : nat :=
  match s with
  | EmptyString => 0
  | String _ r => S (len r)
  end.

Fixpoint map_str (f : char -> char) (s : str) : str :=
  match s with
  | EmptyString => EmptyString
  | String c r => String (f c) (map_str f r)
  end.

Fixpoint filter_str (p : char -> bool) (s : str) : str :=
  match s with
  | EmptyString => EmptyString
  | String c r => if p c then String c (filter_str p r) else filter_str p r
  end.

Fixpoint all_str (p : char -> bool) (s : str) : bool :=
  match s with
  | EmptyString => true
  | String c r => p c && all_str p r
  end.

Fixpoint rev_onto (s acc : str) : str :=
  match s with
  | EmptyString => acc
  | String c r => rev_onto r (String c acc)
  end.

Definition reverse (s : str) : str := rev_onto s EmptyString.

Section Tables.
Variable unicode : Unicode.

(** The class [\d] of [re] on a [str] pattern: the decimal digits of
    Unicode. *)
Definition isdigit (c : char) : bool :=
  if is_ascii c then ascii_digit c else is_decimal unicode c.

(** [s.lower()]: on ASCII text the letters A to Z change; any other text is
    looked up. *)
Definition lower (s : str) : str :=
  if all_str is_ascii s then map_str lower_char s else lower_text unicode s.

(** [s.capitalize()]: on ASCII text the first character upper-cased, the
    rest lower-cased; any other text is looked up. *)
Definition capitalize (s : str) : str :=
  if all_str is_ascii s then
    match s with
    | EmptyString => EmptyString
    | String c r => String (upper_char c) (map_str lower_char r)
    end
  else capitalize_text unicode s.

End Tables.

(** [s.lstrip()], [s.rstrip()], [s.strip()] *)
Fixpoint lstrip (s : str) : str :=
  match s with
  | EmptyString => EmptyString
  | String c r => if isspace c then lstrip r else s
  end.

Definition rstrip (s : str) : str := reverse (lstrip (reverse s)).

Definition strip (s : str) : str := rstrip (lstrip s).

(** [s.startswith(p)] *)
Fixpoint startswith (p s : str) : bool :=
  match p, s with
  | EmptyString, _ => true
  | String _ _, EmptyString => false
  | String a p', String b s' => if (a =? b)%N then startswith p' s' else false
  end.

(** [needle in hay] *)
Fixpoint contains (needle hay : str) : bool :=
  startswith needle hay ||
  match hay with
  | EmptyString => false
  | String _ r => contains needle r
  end.

(** [s[n:]] and [s[:n]] for a natural [n] *)
Fixpoint drop_str (n : nat) (s : str) : str :=
  match n, s with
  | O, _ => s
  | S _, EmptyString => EmptyString
  | S n', String _ r => drop_str n' r
  end.

Fixpoint take_str (n : nat) (s : str) : str :=
  match n, s with
  | O, _ => EmptyString
  | S _, EmptyString => EmptyString
  | S n', String c r => String c (take_str n' r)
  end.

(** First element of [s.split()] (split on runs of white space), when the
    list is not empty. *)
Fixpoint until_space (s : str) : str :=
  match s with
  | EmptyString => EmptyString
  | String c r => if isspace c then EmptyString else String c (until_space r)
  end.

Definition first_word (s : str) : option str :=
  match lstrip s with
  | EmptyString => None
  | w => Some (until_space w)
  end.

(** Truth value of a string: [bool(s)]. *)
Definition truthy (s : str) : bool :=
  match s with
  | EmptyString => false
  | String _ _ => true
  end.

(** [s] does not start with white space. *)
Definition no_leading_space (s : str) : Prop :=
  match s with
  | EmptyString => True
  | String c _ => isspace c = false
  end.

(** [s] occurs in [t] as a contiguous block. *)
Definition occurs_in (s t : str) : Prop :=
  exists pre post, t = pre +:+ s +:+ post.

(** [str(n)] for a natural number. *)
Fixpoint digits (d : Decimal.uint) : str :=
  match d with
  | Decimal.Nil => EmptyString
  | Decimal.D0 r => String 48 (digits r)
  | Decimal.D1 r => String 49 (digits r)
  | Decimal.D2 r => String 50 (digits r)
  | Decimal.D3 r => String 51 (digits r)
  | Decimal.D4 r => String 52 (digits r)
  | Decimal.D5 r => String 53 (digits r)
  | Decimal.D6 r => String 54 (digits r)
  | Decimal.D7 r => String 55 (digits r)
  | Decimal.D8 r => String 56 (digits r)
  | Decimal.D9 r => String 57 (digits r)
  end.

Definition decimal (n : nat) : str := digits (Nat.to_uint n).

End PyStr.

(** ** Exceptions, outcomes and the state-exception monad *)

Inductive exn_class :=
| KeyboardInterrupt            (* BaseException, not an Exception *)
| Timeout                      (* requests.Timeout *)
| RequestException             (* requests.RequestException and subclasses *)
| AttributeError
| KeyError
| IndexError
| TypeError
| ValueError
| NoSuchElementException
| StaleElementReferenceException
| TimeoutException             (* selenium TimeoutException *)
| WebDriverException
| WhatsAppBlockedError
| NotImplementedError.

Record exn := mkExn { cls : exn_class; message : str }.

#[global] Instance exn_class_eq_dec : EqDecision exn_class.
Proof. solve_decision. Defined.

(** [isinstance(e, Exception)] *)
Definition is_Exception (e : exn) : bool :=
  match cls e with
  | KeyboardInterrupt => false
  | _ => true
  end.

(** [isinstance(e, requests.RequestException)]: [requests.Timeout] is one. *)
Definition is_RequestException (e : exn) : bool :=
  match cls e with
  | Timeout | RequestException => true
  | _ => false
  end.

Definition is_class (c : exn_class) (e : exn) : bool :=
  bool_decide (cls e = c).

Inductive outcome (A : Type) :=
| Returns (a : A)
| Raises (e : exn).
Arguments Returns {A} a.
Arguments Raises {A} e.

Definition M (St A : Type) : Type := St -> outcome A * St.

Definition ret {St A} (a : A) : M St A := fun s => (Returns a, s).

Definition raise {St A} (e : exn) : M St A := fun s => (Raises e, s).

Definition bind {St A B} (m : M St A) (k : A -> M St B) : M St B :=
  fun s =>
    match m s with
    | (Returns a, s') => k a s'
    | (Raises e, s') => (Raises e, s')
    end.

(** [try: m  except C1 as e: h1 e  except C2 as e: h2 e ...]: the first
    clause whose class test accepts the exception handles it; an exception
    raised by a handler is not handled by the other clauses. *)
Definition clause (St A : Type) : Type := (exn -> bool) * (exn -> M St A).

Fixpoint dispatch {St A} (clauses : list (clause St A)) (e : exn)
    : option (M St A) :=
  match clauses with
  | [] => None
  | (handles, h) :: rest => if handles e then Some (h e) else dispatch rest e
  end.

Definition try_except {St A} (m : M St A) (clauses : list (clause St A))
    : M St A :=
  fun s =>
    match m s with
    | (Returns a, s') => (Returns a, s')
    | (Raises e, s') =>
        match dispatch clauses e with
        | Some h => h s'
        | None => (Raises e, s')
        end
    end.

Definition lift {St A} (o : outcome A) : M St A := fun s => (o, s).

Definition get {St} : M St St := fun s => (Returns s, s).

Definition put {St} (s : St) : M St unit := fun _ => (Returns tt, s).

(** Every exception that [m] can raise is an [Exception]. *)
Definition raises_only_Exception {St A} (m : M St A) : Prop :=
  forall s e s', m s = (Raises e, s') -> is_Exception e = true.

(** [m] returns, whatever the state. *)
Definition always_returns {St A} (m : M St A) : Prop :=
  forall s, exists a s', m s = (Returns a, s').

(** [m] leaves the state as it found it. *)
Definition keeps_state {St A} (m : M St A) : Prop :=
  forall s, snd (m s) = s.

Declare Scope py_scope.
Delimit Scope py_scope with py.
Notation "'let*' x ':=' m 'in' k" := (bind m (fun x => k))
  (at level 10, x name, m at level 100, k at level 200) : py_scope.
Notation "m ';;' k" := (bind m (fun _ => k))
  (at level 100, k at level 200, right associativity) : py_scope.

(** ** excel_parser.py *)

Module ExcelParser.
Import PyStr.

Definition NAME_PATTERNS : list str :=
  [ "name"; "customer"; "client"; "full_name"; "fullname"; "customer_name";
    "client_name" ].

Definition PHONE_PATTERNS : list str :=
  [ "phone"; "mobile"; "cell"; "telephone"; "contact"; "number";
    "phone_number"; "mobile_number"; "whatsapp" ].

Definition PRODUCT_PATTERNS : list str :=
  [ "product"; "item"; "purchase"; "order"; "service"; "product_name";
    "item_name"; "purchased" ].

(** A column label of the data frame: a text, or a value of another type (a
    number or a date in the header row of a sheet, NaN), which has no
    [lower]; [type_name] is the name of that type. *)
Inductive label :=
| TextLabel (s : str)
| OtherLabel (type_name : str).

Definition is_text (l : label) : bool :=
  match l with
  | TextLabel _ => true
  | OtherLabel _ => false
  end.

(** The data frame that [parse] has read: the column labels as they stand
    in the file; whether pandas grants the accessor [.str] on labels none
    of which is a text (it infers a type from them: numbers are refused,
    some mixtures are let through); and for each row the function from a
    (cleaned) column name to the text [str(row.get(col, ''))] of its
    cell. *)
Record Frame := {
  columns : list label;
  str_accessor_granted : bool;
  rows : list (str -> str)
}.

(** One entry of the list that [parse] returns. *)
Record ParsedCustomer := {
  c_name : str;
  c_phone : str;
  c_product : str
}.

Definition not_plus (c : char) : bool := negb (c =? ord "+")%N.

Definition column_truthy (col : option str) : bool :=
  match col with
  | Some c => truthy c
  | None => false
  end.

Section Parser.
Variable unicode : Unicode.

(** [re.sub(r'[^\d+]', '', s)]: every character that is neither a digit
    nor ['+'] is deleted. *)
Definition keep_digits_plus (s : str) : str :=
  filter_str (fun c => isdigit unicode c || (c =? ord "+")%N) s.

Definition _clean_phone (phone : str) : str :=
  if negb (truthy phone) || eqb (lower unicode phone) "nan" then ""
  else
    let cleaned := keep_digits_plus (strip phone) in
    let cleaned := if startswith "+" cleaned then drop_str 1 cleaned else cleaned in
    let cleaned := if startswith "00" cleaned then drop_str 2 cleaned else cleaned in
    cleaned.

(** The test of the inner loop of [_find_column]:
    [pattern in col_lower or col_lower in pattern] for some pattern. *)
Definition column_matches (patterns : list str) (col : str) : bool :=
  let col_lower := strip (lower unicode col) in
  existsb (fun pattern => contains pattern col_lower || contains col_lower pattern)
    patterns.

(** [_find_column]: [col.lower()] raises AttributeError on a label that is
    not a text. *)
Fixpoint _find_column (columns : list label) (patterns : list str)
    : outcome (option str) :=
  match columns with
  | [] => Returns None
  | TextLabel col :: rest =>
      if column_matches patterns col then Returns (Some col)
      else _find_column rest patterns
  | OtherLabel type_name :: _ =>
      Raises (mkExn AttributeError
                ("'" +:+ type_name +:+ "' object has no attribute 'lower'"))
  end.

(** A column name matches a list of patterns when, lower-cased and trimmed,
    it contains one of them or is contained in one of them. *)
Definition matches (patterns : list str) (col : str) : Prop :=
  exists pattern,
    In pattern patterns /\
    (occurs_in pattern (strip (lower unicode col)) \/
     occurs_in (strip (lower unicode col)) pattern).

(** A character that [_clean_phone] lets through. *)
Definition digit_or_plus (c : char) : bool :=
  isdigit unicode c || (c =? ord "+")%N.

(** What [parse] guarantees of each customer it returns. *)
Definition valid_customer (c : ParsedCustomer) : Prop :=
  c_name c <> "" /\ lower unicode (c_name c) <> "nan" /\
  strip (c_name c) = c_name c /\
  c_phone c <> "" /\ all_str digit_or_plus (c_phone c) = true /\
  strip (c_product c) = c_product c.

(** The body of the loop [for _, row in df.iterrows()]: the customer the row
    gives, if it is not skipped. *)
Definition parse_row (name_col phone_col : str) (product_col : option str)
    (row : str -> str) : option ParsedCustomer :=
  let name := strip (row name_col) in
  let phone := _clean_phone (row phone_col) in
  let product :=
    match product_col with
    | Some pc => if truthy pc then row pc else ""
    | None => ""
    end in
  if negb (truthy name) || eqb (lower unicode name) "nan" || negb (truthy phone)
  then None
  else
    let product := if eqb (lower unicode product) "nan" then "" else product in
    Some {| c_name := name; c_phone := phone; c_product := strip product |}.

Fixpoint parse_rows (name_col phone_col : str) (product_col : option str)
    (rs : list (str -> str)) : list ParsedCustomer :=
  match rs with
  | [] => []
  | row :: rest =>
      match parse_row name_col phone_col product_col row with
      | Some c => c :: parse_rows name_col phone_col product_col rest
      | None => parse_rows name_col phone_col product_col rest
      end
  end.

(** One label under [df.columns.str.strip().str.lower()]: a label that is
    not a text becomes NaN. *)
Definition clean_label (l : label) : label :=
  match l with
  | TextLabel s => TextLabel (lower unicode (strip s))
  | OtherLabel _ => OtherLabel "float"
  end.

(** [df.columns = df.columns.str.strip().str.lower()]: the accessor [.str]
    is there for an empty index and for labels one of which is a text; for
    other labels pandas may refuse it ([granted] tells). *)
Definition clean_columns (granted : bool) (columns : list label)
    : outcome (list label) :=
  match columns with
  | [] => Returns []
  | _ =>
      if existsb is_text columns || granted
      then Returns (map clean_label columns)
      else Raises (mkExn AttributeError
                     "Can only use .str accessor with string values!")
  end.

(** [parse], from the point where the file has been read into a frame. *)
Definition parse_frame (df : Frame)
    : outcome (list ParsedCustomer * (option str * option str * option str)) :=
  match clean_columns (str_accessor_granted df) (columns df) with
  | Raises e => Raises e
  | Returns cleaned =>
  match _find_column cleaned NAME_PATTERNS with
  | Raises e => Raises e
  | Returns name_col =>
  match _find_column cleaned PHONE_PATTERNS with
  | Raises e => Raises e
  | Returns phone_col =>
  match _find_column cleaned PRODUCT_PATTERNS with
  | Raises e => Raises e
  | Returns product_col =>
      if negb (column_truthy name_col) then
        Raises (mkExn ValueError "Could not detect 'Name' column. Please ensure your file has a column with customer names.")
      else if negb (column_truthy phone_col) then
        Raises (mkExn ValueError "Could not detect 'Phone' column. Please ensure your file has a column with phone numbers.")
      else
        match name_col, phone_col with
        | Some nc, Some pc =>
            Returns (parse_rows nc pc product_col (rows df),
                     (name_col, phone_col, product_col))
        | _, _ => Returns ([], (name_col, phone_col, product_col))
        end
  end end end end.

End Parser.

End ExcelParser.

(** ** sentiment_service.py *)

Module SentimentService.
Import PyStr.
Local Open Scope py_scope.

Inductive Sentiment := POSITIVE | NEUTRAL | NEGATIVE.

Definition value (s : Sentiment) : str :=
  match s with
  | POSITIVE => "Positive"
  | NEUTRAL => "Neutral"
  | NEGATIVE => "Negative"
  end.

(** Values that [response.json()] can produce.  A JSON object is kept as
    the list of its members; [dict.get] returns the first member with the
    given key. *)
#[warnings="-register-all"] Inductive json :=
| JNull
| JBool (b : bool)
| JNum (n : Z)
| JStr (s : str)
| JList (items : list json)
| JDict (members : list (str * json)).

(** What one [requests.post], [raise_for_status] and [response.json()]
    sequence can do. *)
Inductive http_reply :=
| PostRaises (e : exn)      (* requests.post raises *)
| BadStatus (code : Z)      (* raise_for_status raises HTTPError *)
| BodyNotJson               (* response.json() raises JSONDecodeError *)
| Body (data : json).       (* a decoded body *)

Record LLMSettings := {
  api_key : str;
  api_url : str;
  model : str;
  timeout_seconds : Z
}.

(** The request that [_classify_with_llm] issues; the constant members of
    the payload (role, temperature, max_tokens) are left out. *)
Record request := {
  req_url : str;
  req_authorization : str;
  req_model : str;
  req_content : str;
  req_timeout : Z
}.

(** What the service does besides returning: it either posts a request or
    looks the keywords up in the lower-cased text. *)
Inductive event :=
| EvPost (r : request)
| EvKeywords (lower_text : str).

Definition log (ev : event) : M (list event) unit :=
  fun l => (Returns tt, (l ++ [ev])%list).

Definition PROMPT_TEMPLATE_head : str :=
  "Classify the sentiment of the following customer message into " +:+
  "exactly one of: Positive, Neutral, Negative. " +:+
  "Reply with only the single word label. " +:+
  "If unclear or very short, reply Neutral." +:+
  String 10 (String 10 "Message: '''").

(** [PROMPT_TEMPLATE.format(message=text)] *)
Definition render_prompt (text : str) : str :=
  PROMPT_TEMPLATE_head +:+ text +:+ "'''".

Definition POSITIVE_KEYWORDS : list str :=
  [ "great"; "good"; "love"; "loved"; "excellent"; "awesome";
    "amazing"; "happy"; "satisfied"; "wonderful"; "fantastic";
    "perfect"; "best"; "thank"; "thanks"; "appreciate" ].

Definition NEGATIVE_KEYWORDS : list str :=
  [ "bad"; "terrible"; "disappoint"; "disappointed"; "poor";
    "hate"; "unhappy"; "problem"; "issue"; "worst"; "awful";
    "horrible"; "never"; "waste"; "refund"; "angry"; "upset" ].

(** *** Python operations on decoded JSON *)

Definition json_truthy (j : json) : bool :=
  match j with
  | JNull => false
  | JBool b => b
  | JNum n => negb (n =? 0)%Z
  | JStr s => truthy s
  | JList l => match l with [] => false | _ => true end
  | JDict d => match d with [] => false | _ => true end
  end.

Fixpoint assoc (k : str) (d : list (str * json)) : option json :=
  match d with
  | [] => None
  | (k', v) :: r => if PyStr.eqb k k' then Some v else assoc k r
  end.

(** [j.get(key, default)]: only a dict has [get]. *)
Definition py_get (j : json) (key : str) (default : json) : outcome json :=
  match j with
  | JDict d => Returns (match assoc key d with Some v => v | None => default end)
  | _ => Raises (mkExn AttributeError "object has no attribute 'get'")
  end.

(** [j[0]] *)
Definition py_item0 (j : json) : outcome json :=
  match j with
  | JList (x :: _) => Returns x
  | JList [] => Raises (mkExn IndexError "list index out of range")
  | JStr (String c _) => Returns (JStr (String c EmptyString))
  | JStr EmptyString => Raises (mkExn IndexError "string index out of range")
  | JDict _ => Raises (mkExn KeyError "0")
  | JNull | JBool _ | JNum _ => Raises (mkExn TypeError "object is not subscriptable")
  end.

(** [j.strip()]: only a str has [strip]. *)
Definition py_strip (j : json) : outcome str :=
  match j with
  | JStr s => Returns (strip s)
  | _ => Raises (mkExn AttributeError "object has no attribute 'strip'")
  end.

Section Service.
Variable settings : LLMSettings.
(** The remote end: the reply to each request. *)
Variable post : request -> http_reply.
(** The Unicode tables of the interpreter. *)
Variable unicode : Unicode.

Let L := M (list event).

Definition _extract_response_content (data : json) : L str :=
  try_except
    (let* choices := lift (py_get data "choices" (JList [])) in
     if json_truthy choices then
       let* first := lift (py_item0 choices) in
       let* message := lift (py_get first "message" (JDict [])) in
       let* content := lift (py_get message "content" (JStr "")) in
       lift (py_strip content)
     else ret "")
    [ (fun e => is_class KeyError e || is_class IndexError e || is_class TypeError e,
       fun _ => ret "") ].

Definition _parse_sentiment_label (content : str) : L (option Sentiment) :=
  if negb (truthy content) then ret None
  else
    match first_word content with
    | None => raise (mkExn IndexError "list index out of range")
    | Some w =>
        let first_word := capitalize unicode (strip w) in
        if PyStr.eqb first_word "Positive" then ret (Some POSITIVE)
        else if PyStr.eqb first_word "Neutral" then ret (Some NEUTRAL)
        else if PyStr.eqb first_word "Negative" then ret (Some NEGATIVE)
        else ret (Some NEUTRAL)
    end.

(** [requests.post(...)], [response.raise_for_status()],
    [response.json()] *)
Definition post_and_decode (r : request) : L json :=
  log (EvPost r) ;;
  match post r with
  | PostRaises e => raise e
  | BadStatus _ => raise (mkExn RequestException "HTTPError")
  | BodyNotJson => raise (mkExn RequestException "JSONDecodeError")
  | Body data => ret data
  end.

(** The headers and payload for one text. *)
Definition request_for (text : str) : request :=
  {| req_url := api_url settings;
     req_authorization := "Bearer " +:+ api_key settings;
     req_model := model settings;
     req_content := render_prompt text;
     req_timeout := timeout_seconds settings |}.

Definition _classify_with_llm (text : str) : L (option Sentiment) :=
  try_except
    (let* data := post_and_decode (request_for text) in
     let* content := _extract_response_content data in
     _parse_sentiment_label content)
    [ (is_class Timeout, fun _ => ret None);
      (is_RequestException, fun _ => ret None);
      (is_Exception, fun _ => ret None) ].

Definition _classify_with_heuristics (text : str) : L Sentiment :=
  let lower_text := lower unicode text in
  log (EvKeywords lower_text) ;;
  let has_positive := existsb (fun kw => contains kw lower_text) POSITIVE_KEYWORDS in
  let has_negative := existsb (fun kw => contains kw lower_text) NEGATIVE_KEYWORDS in
  if has_positive && negb has_negative then ret POSITIVE
  else if has_negative && negb has_positive then ret NEGATIVE
  else ret NEUTRAL.

Definition classify (text : str) : L Sentiment :=
  if negb (truthy text) || (len (strip text) <? 3)%nat then ret NEUTRAL
  else
    let* result :=
      (if truthy (api_key settings) then _classify_with_llm text
       else ret None) in
    match result with
    | Some s => ret s
    | None => _classify_with_heuristics text
    end.

End Service.

(** The label text that a reply of the remote end carries: the trimmed text
    at choices[0].message.content of a decoded body, when the body has that
    shape and the text is not blank.  Every other reply is a failure of the
    remote classification: a transport error, an error status, a body that
    is not JSON, and a payload that is malformed at whatever level. *)
Definition reply_content (r : http_reply) : option str :=
  match r with
  | Body (JDict d) =>
      match assoc "choices" d with
      | Some (JList (JDict m :: _)) =>
          match assoc "message" m with
          | Some (JDict mm) =>
              match assoc "content" mm with
              | Some (JStr c) => if truthy (strip c) then Some (strip c) else None
              | _ => None
              end
          | _ => None
          end
      | _ => None
      end
  | _ => None
  end.

(** The label that a word names, as [sentiment_map] reads it once it is
    capitalised. *)
Definition named_label (unicode : Unicode) (w : str) : Sentiment :=
  let first_word := capitalize unicode (strip w) in
  if eqb first_word "Positive" then POSITIVE
  else if eqb first_word "Neutral" then NEUTRAL
  else if eqb first_word "Negative" then NEGATIVE
  else NEUTRAL.

End SentimentService.

(** ** whatsapp_client.py *)

Module WhatsAppClient.
Import PyStr.
Local Open Scope py_scope.

(** What [send_keys] is given: text, or one of the special keys. *)
Inductive keys :=
| Text (s : str)
| ControlA
| Backspace
| Enter.

(** A DOM element as Selenium hands it out, with the answers it gives to the
    calls the client makes on it. *)
#[warnings="-register-all"] Inductive Element := mkElement {
  get_attribute : str -> outcome (option str);
  el_find_elements : str -> outcome (list Element);
  el_text : outcome str;
  click : outcome unit;
  send_keys : keys -> outcome unit
}.

(** What the browser answers at one instant. *)
Record Page := {
  latency : N;                                    (* duration of the call *)
  page_source : outcome str;
  find_element : str -> outcome Element;
  find_elements : str -> outcome (list Element);
  wait_until_present : str -> Z -> outcome Element;
  sleep_interrupted : bool;                       (* Ctrl-C during a sleep *)
  quit : outcome unit
}.

(** The environment of a client: the page shown at each step, the value of
    [str(hash(s))] in this process, whether the browser can be launched,
    and the Unicode tables of the interpreter. *)
Record World := {
  pages : nat -> Page;
  hash_str : str -> str;
  launch : bool -> outcome unit;
  unicode_db : PyStr.Unicode
}.

(** The client object: how many browser steps it has made and its clock. *)
Record Client := {
  tick : nat;
  now : Z
}.

(** One discovered message: [(element, is_incoming, msg_id)]. *)
Record Msg := {
  element : Element;
  is_incoming : bool;
  msg_id : option str
}.

(** A CSS attribute value in double quotes. *)
Definition q (value : str) : str :=
  String 34 value +:+ String 34 EmptyString.

Definition SELECTORS_search_box : str := ("div[contenteditable=" +:+ q "true" +:+ "][data-tab=" +:+ q "3" +:+ "]").
Definition SELECTORS_message_input : str := ("div[contenteditable=" +:+ q "true" +:+ "][data-tab=" +:+ q "10" +:+ "]").
Definition SELECTORS_message_input_alt : str := ("footer div[contenteditable=" +:+ q "true" +:+ "]").

Definition BLOCK_INDICATORS : list str :=
  [ "temporarily banned";
    "account is temporarily";
    "verify your phone";
    "unusual activity" ].

Definition blocked_message : str := "WhatsApp blocking detected".

(** [x or d] on an optional string *)
Definition or_else (x : option str) (d : str) : str :=
  match x with
  | Some s => if truthy s then s else d
  | None => d
  end.

(** [text[i:i+50]] for [i] in [range(0, len(text), 50)] *)
Fixpoint chunks (fuel : nat) (text : str) : list str :=
  match fuel with
  | O => []
  | S fuel' =>
      match text with
      | EmptyString => []
      | _ => take_str 50 text :: chunks fuel' (drop_str 50 text)
      end
  end.

Fixpoint chars (s : str) : list str :=
  match s with
  | EmptyString => []
  | String c r => String c EmptyString :: chars r
  end.

Definition outcome_bind {A B} (o : outcome A) (k : A -> outcome B) : outcome B :=
  match o with
  | Returns a => k a
  | Raises e => Raises e
  end.

(** *** Text extraction (no browser step: the element answers) *)

(** The loop [for text_el in text_elements] *)
Fixpoint first_text (text_elements : list Element) : outcome (option str) :=
  match text_elements with
  | [] => Returns None
  | text_el :: rest =>
      match el_text text_el with
      | Raises e => Raises e
      | Returns t =>
          let text := strip t in
          if truthy text then Returns (Some text) else first_text rest
      end
  end.

Definition text_selectors : list str :=
  [ "span.selectable-text.copyable-text > span";
    "span.selectable-text.copyable-text";
    "span.selectable-text > span";
    "span.selectable-text";
    ("span[dir=" +:+ q "ltr" +:+ "]");
    "span.copyable-text" ].

(** The fallback: [element.text.strip() if element.text else None] under a
    bare [except]. *)
Definition text_fallback (el : Element) : outcome (option str) :=
  match el_text el with
  | Returns t => Returns (if truthy t then Some (strip t) else None)
  | Raises _ => Returns None
  end.

Fixpoint try_text_selectors (el : Element) (selectors : list str)
    : outcome (option str) :=
  match selectors with
  | [] => text_fallback el
  | selector :: rest =>
      match outcome_bind (el_find_elements el selector) first_text with
      | Returns (Some text) => Returns (Some text)
      | Returns None => try_text_selectors el rest
      | Raises e =>
          if is_class NoSuchElementException e
             || is_class StaleElementReferenceException e
          then try_text_selectors el rest
          else Raises e
      end
  end.

Definition _extract_text_from_message (el : Element) : outcome (option str) :=
  try_text_selectors el text_selectors.

(** *** Reading one element in each discovery strategy *)

Definition read_pre_plain_text (hash : str -> str) (el : Element) : outcome Msg :=
  outcome_bind (get_attribute el "data-pre-plain-text") (fun a =>
  let pre_text := or_else a "" in
  let incoming := negb (contains "You" pre_text) && negb (contains "] You:" pre_text) in
  outcome_bind (get_attribute el "data-id") (fun i =>
  Returns {| element := el; is_incoming := incoming;
             msg_id := Some (or_else i (hash pre_text)) |})).

Definition read_data_id (incoming : bool) (el : Element) : outcome Msg :=
  outcome_bind (get_attribute el "data-id") (fun i =>
  Returns {| element := el; is_incoming := incoming; msg_id := i |}).

Definition read_bubble (idx : nat) (el : Element) : outcome Msg :=
  outcome_bind (get_attribute el "class") (fun a =>
  let class_attr := or_else a "" in
  Returns {| element := el; is_incoming := contains "message-in" class_attr;
             msg_id := Some (decimal idx) |}).

(** A [for] loop that appends to [messages], skips an element whose read
    raises StaleElementReferenceException, and stops at any other
    exception, which is handed back with what was appended so far. *)
Fixpoint collect (read : nat -> Element -> outcome Msg) (idx : nat)
    (elements : list Element) (messages : list Msg) : list Msg * option exn :=
  match elements with
  | [] => (messages, None)
  | el :: rest =>
      match read idx el with
      | Returns m => collect read (S idx) rest (messages ++ [m])%list
      | Raises e =>
          if is_class StaleElementReferenceException e
          then collect read (S idx) rest messages
          else (messages, Some e)
      end
  end.

Definition collect_from (found : outcome (list Element))
    (read : nat -> Element -> outcome Msg) (messages : list Msg)
    : list Msg * option exn :=
  match found with
  | Returns elements => collect read 0 elements messages
  | Raises e => (messages, Some e)
  end.

Definition nonempty {A} (l : list A) : bool :=
  match l with
  | [] => false
  | _ => true
  end.

Section Client.
Variable world : World.

Let D := M Client.

(** One call to the browser: it answers with the page of the current step;
    the step counter and the clock advance. *)
Definition observe : D Page :=
  fun c =>
    let p := pages world (tick c) in
    (Returns p, {| tick := S (tick c); now := now c + Z.of_N (latency p) |}).

Definition time_time : D Z := fun c => (Returns (now c), c).

(** [time.sleep(d)]: a negative length is a ValueError; the sleep can be
    interrupted from the keyboard. *)
Definition time_sleep (d : Z) : D unit :=
  if (d <? 0)%Z then raise (mkExn ValueError "sleep length must be non-negative")
  else
    let* p := observe in
    if sleep_interrupted p then raise (mkExn KeyboardInterrupt "")
    else fun c => (Returns tt, {| tick := tick c; now := now c + d |}).

(** [_random_delay(a, b)]: a short sleep whose random length is the latency
    of the step. *)
Definition _random_delay : D unit :=
  let* p := observe in
  if sleep_interrupted p then raise (mkExn KeyboardInterrupt "")
  else ret tt.

Definition driver_find_element (selector : str) : D Element :=
  let* p := observe in lift (find_element p selector).

Definition driver_find_elements (selector : str) : D (list Element) :=
  let* p := observe in lift (find_elements p selector).

Definition _check_for_blocks : D bool :=
  try_except
    (let* p := observe in
     let* source := lift (page_source p) in
     let page_text := lower (unicode_db world) source in
     ret (existsb (fun indicator =>
                     contains (lower (unicode_db world) indicator) page_text)
                  BLOCK_INDICATORS))
    [ (is_Exception, fun _ => ret false) ].

Definition wait_for_login (timeout : Z) : D bool :=
  try_except
    (let* p := observe in
     let* _ := lift (wait_until_present p SELECTORS_search_box timeout) in
     ret true)
    [ (is_class TimeoutException, fun _ => ret false) ].

Definition _find_search_box : D (option Element) :=
  try_except
    (let* el := driver_find_element SELECTORS_search_box in ret (Some el))
    [ (is_class NoSuchElementException, fun _ =>
         let* found :=
           try_except
             (let* elements := driver_find_elements ("div[contenteditable=" +:+ q "true" +:+ "]") in
              ret (hd_error elements))
             [ (is_Exception, fun _ => ret None) ] in
         ret found) ].

Fixpoint find_first (selectors_to_try : list str) : D (option Element) :=
  match selectors_to_try with
  | [] => ret None
  | selector :: rest =>
      let* found :=
        try_except
          (let* el := driver_find_element selector in ret (Some el))
          [ (is_class NoSuchElementException, fun _ => ret None) ] in
      match found with
      | Some el => ret (Some el)
      | None => find_first rest
      end
  end.

Definition _find_message_input : D (option Element) :=
  find_first
    [ SELECTORS_message_input;
      SELECTORS_message_input_alt;
      ("div[contenteditable=" +:+ q "true" +:+ "][data-tab=" +:+ q "10" +:+ "]");
      ("footer div[contenteditable=" +:+ q "true" +:+ "][data-tab=" +:+ q "10" +:+ "]");
      ("div[title=" +:+ q "Type a message" +:+ "]") ].

(** [for piece in pieces: box.send_keys(piece); self._random_delay(..)] *)
Fixpoint type_pieces (box : Element) (pieces : list str) : D unit :=
  match pieces with
  | [] => ret tt
  | piece :: rest =>
      lift (send_keys box (Text piece)) ;;
      _random_delay ;;
      type_pieces box rest
  end.

Definition open_chat (phone : str) : D bool :=
  let* blocked := _check_for_blocks in
  if blocked then raise (mkExn WhatsAppBlockedError blocked_message)
  else
    try_except
      (let* found := _find_search_box in
       match found with
       | None => ret false
       | Some search_box =>
           lift (click search_box) ;;
           _random_delay ;;
           lift (send_keys search_box ControlA) ;;
           lift (send_keys search_box Backspace) ;;
           _random_delay ;;
           type_pieces search_box (chars phone) ;;
           time_sleep 2 ;;
           lift (send_keys search_box Enter) ;;
           time_sleep 3 ;;
           let* input := _find_message_input in
           ret (match input with Some _ => true | None => false end)
       end)
      [ (is_Exception, fun _ => ret false) ].

Definition send_message (text : str) : D bool :=
  try_except
    (_random_delay ;;
     let* found := _find_message_input in
     match found with
     | None => ret false
     | Some input_box =>
         lift (click input_box) ;;
         _random_delay ;;
         type_pieces input_box (chunks (len text) text) ;;
         _random_delay ;;
         lift (send_keys input_box Enter) ;;
         ret true
     end)
    [ (is_Exception, fun _ => ret false) ].

(** The end of one [try] block of a discovery strategy: [Some messages]
    when the method returns there, [None] when it goes on to the next
    strategy with the messages appended so far.  A KeyboardInterrupt is not
    caught by [except Exception]. *)
Definition strategy_end (r : list Msg * option exn) : D (option (list Msg)) :=
  match r with
  | (messages, None) => ret (if nonempty messages then Some messages else None)
  | (messages, Some e) => if is_Exception e then ret None else raise e
  end.

Definition _get_message_elements : D (list Msg) :=
  let messages := [] in
  (* Strategy 1 *)
  let* p1 := observe in
  let r1 := collect_from (find_elements p1 "div[data-pre-plain-text]")
              (fun _ => read_pre_plain_text (hash_str world)) messages in
  let messages := fst r1 in
  let* done1 := strategy_end r1 in
  match done1 with
  | Some result => ret result
  | None =>
      (* Strategy 2 *)
      let* p2 := observe in
      let r2 := collect_from (find_elements p2 ("div[data-id^=" +:+ q "true_" +:+ "]"))
                  (fun _ => read_data_id true) messages in
      let messages := fst r2 in
      let* r2' :=
        match snd r2 with
        | Some e => ret (messages, Some e)
        | None =>
            let* p2' := observe in
            ret (collect_from (find_elements p2' ("div[data-id^=" +:+ q "false_" +:+ "]"))
                   (fun _ => read_data_id false) messages)
        end in
      let messages := fst r2' in
      let* done2 := strategy_end r2' in
      match done2 with
      | Some result => ret result
      | None =>
          (* Strategy 3 *)
          let* p3 := observe in
          let r3 :=
            match find_element p3 ("div[data-tab=" +:+ q "8" +:+ "]") with
            | Raises e => (messages, Some e)
            | Returns pane =>
                collect_from
                  (el_find_elements pane ("div[tabindex=" +:+ q "-1" +:+ "][class*=" +:+ q "message" +:+ "]"))
                  read_bubble messages
            end in
          let messages := fst r3 in
          let* done3 := strategy_end r3 in
          match done3 with
          | Some result => ret result
          | None => ret messages
          end
      end
  end.

Definition opt_truthy (t : option str) : bool :=
  match t with
  | Some s => truthy s
  | None => false
  end.

Definition read_latest_message : D (option str) :=
  try_except
    (_random_delay ;;
     let* messages := _get_message_elements in
     if negb (nonempty messages) then ret None
     else
       match last messages with
       | None => ret None
       | Some m => lift (_extract_text_from_message (element m))
       end)
    [ (is_Exception, fun _ => ret None) ].

Definition read_latest_incoming_message : D (option str) :=
  try_except
    (_random_delay ;;
     let* messages := _get_message_elements in
     if negb (nonempty messages) then ret None
     else
       let incoming_messages := filter (fun m => is_incoming m) messages in
       match last incoming_messages with
       | None => ret None
       | Some m => lift (_extract_text_from_message (element m))
       end)
    [ (is_Exception, fun _ => ret None) ].

(** [ignore_text and text == ignore_text] *)
Definition ignored (ignore_text : option str) (text : str) : bool :=
  match ignore_text with
  | Some ig => truthy ig && PyStr.eqb text ig
  | None => false
  end.

(** The loop [for element, is_incoming, msg_id in reversed(messages)] of
    [wait_for_reply], given the messages newest first. *)
Fixpoint pick (baseline_messages : gset (option str))
    (ignore_text : option str) (newest_first : list Msg)
    : outcome (option str) :=
  match newest_first with
  | [] => Returns None
  | m :: rest =>
      if negb (is_incoming m) then pick baseline_messages ignore_text rest
      else if bool_decide (msg_id m ∈ baseline_messages)
      then pick baseline_messages ignore_text rest
      else
        match _extract_text_from_message (element m) with
        | Raises e => Raises e
        | Returns text =>
            if negb (opt_truthy text) then pick baseline_messages ignore_text rest
            else
              match text with
              | Some t =>
                  if ignored ignore_text t
                  then pick baseline_messages ignore_text rest
                  else Returns (Some t)
              | None => pick baseline_messages ignore_text rest
              end
        end
  end.

(** What makes a discovered message a new reply with text [t], given the
    baseline and the text to ignore: it is incoming, its identity token is
    not in the baseline, its extracted text is [t], which is not empty and
    is not the ignored text. *)
Definition new_reply (baseline_messages : gset (option str))
    (ignore_text : option str) (m : Msg) (t : str) : Prop :=
  is_incoming m = true /\
  (msg_id m ∉ baseline_messages) /\
  _extract_text_from_message (element m) = Returns (Some t) /\
  t <> "" /\
  ignored ignore_text t = false.

(** A discovered message that the loop of [wait_for_reply] passes over: it
    is outgoing, or its token is in the baseline, or its text is read and is
    missing, empty or the ignored text. *)
Definition skipped (baseline_messages : gset (option str))
    (ignore_text : option str) (m : Msg) : Prop :=
  is_incoming m = false \/
  (msg_id m ∈ baseline_messages) \/
  exists text,
    _extract_text_from_message (element m) = Returns text /\
    (opt_truthy text = false \/
     exists t, text = Some t /\ ignored ignore_text t = true).

(** [t] is the text of the newest new reply among [messages], which are in
    page order (oldest first): the messages after it are passed over. *)
Definition newest_new_reply (baseline_messages : gset (option str))
    (ignore_text : option str) (messages : list Msg) (t : str) : Prop :=
  exists older m newer,
    messages = (older ++ m :: newer)%list /\
    new_reply baseline_messages ignore_text m t /\
    Forall (skipped baseline_messages ignore_text) newer.

(** The baseline: identity tokens of the incoming messages in view when the
    wait starts. *)
Definition capture_baseline : D (gset (option str)) :=
  try_except
    (let* messages := _get_message_elements in
     ret (list_to_set (map msg_id (filter (fun m => is_incoming m) messages))))
    [ (is_Exception, fun _ => ret ∅) ].

Inductive poll_result :=
| Reply (text : str)     (* [return text] *)
| TimedOut                  (* the loop condition failed: [return None] *)
| OutOfFuel.                (* the model stopped unrolling the loop *)

(** One pass through the body of the [while] loop: [Some text] when it
    returns, [None] when it has slept and goes round again. *)
Definition poll_once (poll_interval : Z)
    (baseline_messages : gset (option str)) (ignore_text : option str)
    : D (option str) :=
  try_except
    (let* messages := _get_message_elements in
     if negb (nonempty messages) then
       time_sleep poll_interval ;; ret None
     else
       let* found := lift (pick baseline_messages ignore_text (rev messages)) in
       match found with
       | Some text => ret (Some text)
       | None => time_sleep poll_interval ;; ret None
       end)
    [ (is_Exception, fun _ => time_sleep poll_interval ;; ret None) ].

Fixpoint poll_loop (fuel : nat) (start_time timeout poll_interval : Z)
    (baseline_messages : gset (option str)) (ignore_text : option str)
    : D poll_result :=
  match fuel with
  | O => ret OutOfFuel
  | S fuel' =>
      let* t := time_time in
      if (t - start_time <? timeout)%Z then
        let* r := poll_once poll_interval baseline_messages ignore_text in
        match r with
        | Some text => ret (Reply text)
        | None => poll_loop fuel' start_time timeout poll_interval
                    baseline_messages ignore_text
        end
      else ret TimedOut
  end.

(** The states in which the loop, entered in the first state, starts a
    pass: a pass that starts before the timeout and finds no reply leads to
    the next one. *)
Inductive polled (start_time timeout poll_interval : Z)
    (baseline_messages : gset (option str)) (ignore_text : option str)
    : Client -> Client -> Prop :=
| PolledHere c :
    polled start_time timeout poll_interval baseline_messages ignore_text c c
| PolledNext c c1 c2 :
    (now c - start_time < timeout)%Z ->
    poll_once poll_interval baseline_messages ignore_text c = (Returns None, c1) ->
    polled start_time timeout poll_interval baseline_messages ignore_text c1 c2 ->
    polled start_time timeout poll_interval baseline_messages ignore_text c c2.

Definition wait_for_reply (fuel : nat) (timeout poll_interval : Z)
    (ignore_text : option str) : D poll_result :=
  let* start_time := time_time in
  let* baseline_messages := capture_baseline in
  poll_loop fuel start_time timeout poll_interval baseline_messages ignore_text.

Definition close : D unit :=
  try_except
    (let* p := observe in lift (quit p))
    [ (is_Exception, fun _ => ret tt) ].

(** Neither the clock nor the step counter of the client goes back
    during [m]. *)
Definition advances {A} (m : D A) : Prop :=
  forall c r c', m c = (r, c') -> (now c <= now c')%Z /\ tick c <= tick c'.

End Client.

(** [WhatsAppClient(headless)]: launching the browser can fail. *)
Definition new_client (world : World) (headless : bool) : outcome Client :=
  outcome_bind (launch world headless) (fun _ =>
  Returns {| tick := 0; now := 0 |}).

(** The operator does not interrupt the browser while it quits: [quit]
    fails, if at all, with an [Exception]. *)
Definition quit_not_interrupted (world : World) : Prop :=
  forall n e, quit (pages world n) = Raises e -> is_Exception e = true.

End WhatsAppClient.

(** ** messaging_provider.py *)

(** The abstract base class [MessagingProvider]: the five operations every
    provider implements, over the provider's own state. *)
Module Interface.

Class MessagingProvider (P : Type) := {
  connect : M P bool;
  is_connected : P -> bool;
  send_message : str -> str -> M P bool;
  wait_for_reply : str -> Z -> M P (option str);
  close : M P unit
}.

End Interface.

Module SeleniumProvider.
Local Open Scope py_scope.

Record provider := {
  _headless : bool;
  _client : option WhatsAppClient.Client;
  _connected : bool
}.

(** [SeleniumProvider(headless)] *)
Definition new (headless : bool) : provider :=
  {| _headless := headless; _client := None; _connected := false |}.

Definition set_client (c : option WhatsAppClient.Client) (self : provider) : provider :=
  {| _headless := _headless self; _client := c; _connected := _connected self |}.

Definition set_connected (b : bool) (self : provider) : provider :=
  {| _headless := _headless self; _client := _client self; _connected := b |}.

(** A method call on the client object [c] that [self._client] refers to:
    the object is updated in place. *)
Definition on_client {A} (c : WhatsAppClient.Client)
    (m : M WhatsAppClient.Client A) : M provider A :=
  fun self => let (r, c') := m c in (r, set_client (Some c') self).

(** The flag [_connected] is set only while there is a client. *)
Definition flag_needs_client (p : provider) : Prop :=
  _connected p = true -> _client p <> None.

Section Provider.
Variable world : WhatsAppClient.World.

Definition connect : M provider bool :=
  try_except
    (let* self := get in
     let* c := lift (WhatsAppClient.new_client world (_headless self)) in
     put (set_client (Some c) self) ;;
     ret true)
    [ (is_Exception, fun _ => ret false) ].

Definition is_connected (self : provider) : bool :=
  _connected self && match _client self with Some _ => true | None => false end.

Definition confirm_login (timeout : Z) : M provider bool :=
  let* self := get in
  match _client self with
  | None => ret false
  | Some c =>
      let* result := on_client c (WhatsAppClient.wait_for_login world timeout) in
      let* self := get in
      put (set_connected result self) ;;
      ret result
  end.

Definition send_message (phone text : str) : M provider bool :=
  let* self := get in
  match _client self with
  | None => ret false
  | Some c =>
      let* opened := on_client c (WhatsAppClient.open_chat world phone) in
      if negb opened then ret false
      else
        let* self := get in
        match _client self with
        | None => ret false
        | Some c => on_client c (WhatsAppClient.send_message world text)
        end
  end.

(** The loop of the client is unrolled [S (Z.to_nat timeout)] times, which
    is enough for the poll interval of 3 seconds used here (see
    [provider_wait_never_out_of_fuel]). *)
Definition wait_for_reply (phone : str) (timeout : Z) : M provider (option str) :=
  let* self := get in
  match _client self with
  | None => ret None
  | Some c =>
      let* r := on_client c
                  (WhatsAppClient.wait_for_reply world (S (Z.to_nat timeout))
                     timeout 3 None) in
      match r with
      | WhatsAppClient.Reply text => ret (Some text)
      | WhatsAppClient.TimedOut => ret None
      | WhatsAppClient.OutOfFuel => ret None
      end
  end.

Definition read_latest_incoming : M provider (option str) :=
  let* self := get in
  match _client self with
  | None => ret None
  | Some c => on_client c (WhatsAppClient.read_latest_incoming_message world)
  end.

Definition raw_client (self : provider) : option WhatsAppClient.Client :=
  _client self.

Definition close : M provider unit :=
  let* self := get in
  match _client self with
  | None => ret tt
  | Some c =>
      try_except (on_client c (WhatsAppClient.close world))
        [ (is_Exception, fun _ => ret tt) ] ;;
      let* self := get in
      put (set_client None self) ;;
      let* self := get in
      put (set_connected false self)
  end.

#[export] Instance selenium_provider : Interface.MessagingProvider provider :=
  Interface.Build_MessagingProvider provider
    connect is_connected send_message wait_for_reply close.

(** A caller's use of the provider: a sequence of method calls, each with
    what it gave back. *)
Inductive call :=
| Connect
| ConfirmLogin (timeout : Z)
| SendMessage (phone text : str)
| WaitForReply (phone : str) (timeout : Z)
| ReadLatestIncoming
| Close.

Inductive call_result :=
| GaveBool (b : bool)
| GaveText (t : option str)
| GaveNothing
| Raised (e : exn).

Definition result_of {A} (wrap : A -> call_result) (r : outcome A * provider)
    : call_result * provider :=
  match r with
  | (Returns a, p) => (wrap a, p)
  | (Raises e, p) => (Raised e, p)
  end.

Definition perform (k : call) (self : provider) : call_result * provider :=
  match k with
  | Connect => result_of GaveBool (connect self)
  | ConfirmLogin timeout => result_of GaveBool (confirm_login timeout self)
  | SendMessage phone text => result_of GaveBool (send_message phone text self)
  | WaitForReply phone timeout => result_of GaveText (wait_for_reply phone timeout self)
  | ReadLatestIncoming => result_of GaveText (read_latest_incoming self)
  | Close => result_of (fun _ => GaveNothing) (close self)
  end.

(** The provider after a sequence of calls (a raised exception is taken to
    be handled by the caller, who goes on). *)
Definition session (calls : list call) (self : provider) : provider :=
  fold_left (fun p k => snd (perform k p)) calls self.

End Provider.
End SeleniumProvider.

Module APIProvider.
Import PyStr.
Local Open Scope py_scope.

Record provider := {
  _api_key : str;
  _phone_number_id : str;
  _api_url : str;
  _connected : bool
}.

Definition DEFAULT_API_URL : str := "https://graph.facebook.com/v18.0".

(** [APIProvider(api_key, phone_number_id, api_url)] *)
Definition new (api_key phone_number_id api_url : str) : provider :=
  {| _api_key := api_key;
     _phone_number_id := phone_number_id;
     _api_url := if truthy api_url then api_url else DEFAULT_API_URL;
     _connected := false |}.

Definition set_connected (b : bool) (self : provider) : provider :=
  {| _api_key := _api_key self;
     _phone_number_id := _phone_number_id self;
     _api_url := _api_url self;
     _connected := b |}.

Definition connect : M provider bool :=
  let* self := get in
  if negb (truthy (_api_key self)) || negb (truthy (_phone_number_id self))
  then ret false
  else put (set_connected true self) ;; ret true.

Definition is_connected (self : provider) : bool := _connected self.

Definition send_message (phone text : str) : M provider bool :=
  let* self := get in
  if negb (_connected self) then ret false
  else ret false.

Definition wait_for_reply (phone : str) (timeout : Z) : M provider (option str) :=
  ret None.

Definition close : M provider unit :=
  let* self := get in
  put (set_connected false self).

#[export] Instance api_provider : Interface.MessagingProvider provider :=
  Interface.Build_MessagingProvider provider
    connect is_connected send_message wait_for_reply close.

End APIProvider.

(** ** database.py: the customers table *)

Module Database.
Import PyStr.

Record Customer := {
  id : Z;
  user_id : Z;
  name : str;
  phone : str;
  product : str;
  has_review : bool;
  status : str;
  sentiment : str;
  last_message : str;
  created_at : str
}.

#[global] Instance Customer_eq_dec : EqDecision Customer.
Proof. solve_decision. Defined.

(** The rows of the table [customers], in the order of their ids. *)
Definition table : Type := list Customer.

(** The keyword arguments that callers pass to [update_customer]. *)
Inductive assignment :=
| SetStatus (v : str)
| SetHasReview (v : bool)
| SetSentiment (v : str)
| SetLastMessage (v : str).

Definition assign (a : assignment) (c : Customer) : Customer :=
  match a with
  | SetStatus v =>
      {| id := id c; user_id := user_id c; name := name c; phone := phone c;
         product := product c; has_review := has_review c; status := v;
         sentiment := sentiment c; last_message := last_message c;
         created_at := created_at c |}
  | SetHasReview v =>
      {| id := id c; user_id := user_id c; name := name c; phone := phone c;
         product := product c; has_review := v; status := status c;
         sentiment := sentiment c; last_message := last_message c;
         created_at := created_at c |}
  | SetSentiment v =>
      {| id := id c; user_id := user_id c; name := name c; phone := phone c;
         product := product c; has_review := has_review c; status := status c;
         sentiment := v; last_message := last_message c;
         created_at := created_at c |}
  | SetLastMessage v =>
      {| id := id c; user_id := user_id c; name := name c; phone := phone c;
         product := product c; has_review := has_review c; status := status c;
         sentiment := sentiment c; last_message := v;
         created_at := created_at c |}
  end.

(** The integers SQLite stores: 64 bits, signed.  The methods below that
    take an id bind it to the parameter [?] of their statement; for a
    Python int outside this range the driver raises OverflowError there and
    no statement runs.  The definitions give the statement's effect, for an
    id in the range. *)
Definition sqlite_integer (i : Z) : Prop := (- 2 ^ 63 <= i < 2 ^ 63)%Z.

(** [UPDATE customers SET ... WHERE id = ?], for an id that is a
    [sqlite_integer] *)
Definition update_customer (customer_id : Z) (updates : list assignment)
    (t : table) : table :=
  match updates with
  | [] => t
  | _ =>
      map (fun c => if (id c =? customer_id)%Z
                    then fold_left (fun c a => assign a c) updates c
                    else c) t
  end.

Definition mark_done (customer_id : Z) (sentiment last_message : str)
    (t : table) : table :=
  update_customer customer_id
    [ SetStatus "done"; SetHasReview true; SetSentiment sentiment;
      SetLastMessage (take_str 200 last_message) ] t.

Definition mark_no_reply (customer_id : Z) (t : table) : table :=
  update_customer customer_id [ SetStatus "no_reply" ] t.

Definition mark_error (customer_id : Z) (error : str) (t : table) : table :=
  update_customer customer_id
    [ SetStatus "error"; SetLastMessage (take_str 200 ("Error: " +:+ error)) ] t.

(** [DELETE FROM customers WHERE id = ?], for an id that is a
    [sqlite_integer] *)
Definition delete_customer (customer_id : Z) (t : table) : table :=
  filter (fun c => negb (id c =? customer_id)%Z) t.

Definition reset_customer (customer_id : Z) (t : table) : table :=
  update_customer customer_id
    [ SetStatus "pending"; SetHasReview false; SetSentiment "";
      SetLastMessage "" ] t.

(** [SELECT * FROM customers WHERE [user_id = ? AND] status = 'pending'
    ORDER BY id] *)
Definition get_pending_customers (owner : option Z) (t : table) : list Customer :=
  filter (fun c =>
            match owner with
            | Some u => (user_id c =? u)%Z
            | None => true
            end && PyStr.eqb (status c) "pending") t.

(** [SELECT * FROM customers WHERE id = ?], [fetchone()], for an id that
    is a [sqlite_integer] *)
Definition get_customer (customer_id : Z) (t : table) : option Customer :=
  List.find (fun c => (id c =? customer_id)%Z) t.

(** [SELECT * FROM customers [WHERE user_id = ?] ORDER BY id] *)
Definition get_all_customers (owner : option Z) (t : table) : list Customer :=
  List.filter (fun c =>
            match owner with
            | Some u => (user_id c =? u)%Z
            | None => true
            end) t.

(** The properties of the dataclass [Customer]. *)
Definition is_completed (c : Customer) : bool := PyStr.eqb (status c) "done".

Definition needs_review_request (c : Customer) : bool :=
  negb (has_review c) && PyStr.eqb (status c) "pending".

(** The table [customers] together with its entry in [sqlite_sequence]: the
    largest id that AUTOINCREMENT has handed out. *)
Record Store := {
  rows : table;
  seq : Z
}.

(** The row that [INSERT INTO customers (user_id, name, phone, product)]
    creates, with the defaults of the schema; [stamp] is CURRENT_TIMESTAMP. *)
Definition new_row (new_id owner : Z) (n p pr stamp : str) : Customer :=
  {| id := new_id; user_id := owner; name := n; phone := p; product := pr;
     has_review := false; status := "pending"; sentiment := "";
     last_message := ""; created_at := stamp |}.

(** The constraint [UNIQUE(user_id, phone)]: is the pair taken? *)
Definition taken (owner : Z) (p : str) (t : table) : bool :=
  existsb (fun c => (user_id c =? owner)%Z && PyStr.eqb (phone c) p) t.

(** The id AUTOINCREMENT gives the next row: one more than the largest id
    in the table or ever handed out. *)
Definition next_id (st : Store) : Z :=
  fold_right Z.max (seq st) (map id (rows st)) + 1.

(** The INSERT statement: [None] stands for sqlite3.IntegrityError, which
    leaves the store as it was. *)
Definition insert_customer (owner : Z) (n p pr stamp : str) (st : Store)
    : option Z * Store :=
  if taken owner p (rows st) then (None, st)
  else
    let i := next_id st in
    (Some i, {| rows := (rows st ++ [new_row i owner n p pr stamp])%list; seq := i |}).

(** [add_customer]: the new id ([cursor.lastrowid]), or [None] when the
    customer exists. *)
Definition add_customer (owner : Z) (n p pr stamp : str) (st : Store)
    : option Z * Store :=
  insert_customer owner n p pr stamp st.

(** One entry of the list given to [bulk_add_customers]: the values of its
    keys 'name', 'phone' and 'product' ('' for a missing key). *)
Record Entry := {
  e_name : str;
  e_phone : str;
  e_product : str
}.

(** The dict that [bulk_add_customers] returns; [errors] holds the entries
    reported as "Missing name or phone". *)
Record BulkResult := {
  added : nat;
  skipped : nat;
  errors : list Entry
}.

Fixpoint bulk_loop (owner : Z) (stamp : str) (customers : list Entry)
    (result : BulkResult) (st : Store) : BulkResult * Store :=
  match customers with
  | [] => (result, st)
  | customer :: rest =>
      let n := strip (e_name customer) in
      let p := strip (e_phone customer) in
      let pr := strip (e_product customer) in
      if negb (truthy n) || negb (truthy p) then
        bulk_loop owner stamp rest
          {| added := added result; skipped := skipped result;
             errors := (errors result ++ [customer])%list |} st
      else
        match insert_customer owner n p pr stamp st with
        | (Some _, st') =>
            bulk_loop owner stamp rest
              {| added := S (added result); skipped := skipped result;
                 errors := errors result |} st'
        | (None, st') =>
            bulk_loop owner stamp rest
              {| added := added result; skipped := S (skipped result);
                 errors := errors result |} st'
        end
  end.

Definition bulk_add_customers (owner : Z) (stamp : str)
    (customers : list Entry) (st : Store) : BulkResult * Store :=
  bulk_loop owner stamp customers {| added := 0; skipped := 0; errors := [] |} st.

(** A row as INSERT leaves it: pending, nothing recorded. *)
Definition fresh (c : Customer) : Prop :=
  status c = "pending" /\ has_review c = false /\ sentiment c = "" /\
  last_message c = "".

(** The invariant of the table: ids are distinct, and so are the pairs
    (user_id, phone). *)
Definition well_keyed (t : table) : Prop :=
  NoDup (map id t) /\ NoDup (map (fun c => (user_id c, phone c)) t).

(** An assignment that does not clear [has_review]. *)
Definition harmless (a : assignment) : Prop := a <> SetHasReview false.

(** What the campaign may change in a row: nothing but [status],
    [sentiment], [last_message], and [has_review], which can only become
    true. *)
Definition outcome_fields_only (c c' : Customer) : Prop :=
  id c' = id c /\ user_id c' = user_id c /\ name c' = name c /\
  phone c' = phone c /\ product c' = product c /\
  created_at c' = created_at c /\
  (has_review c' = has_review c \/ has_review c' = true).

(** The same, for a campaign that works on the customers with the given
    ids: the other rows are as they were. *)
Definition kept_by_campaign (ids : list Z) (c c' : Customer) : Prop :=
  outcome_fields_only c c' /\ (~ In (id c) ids -> c' = c).

End Database.

(** ** run_campaign.py *)

Module Campaign.
Import PyStr Database.
Local Open Scope py_scope.

(** [REVIEW_REQUEST.format(name=.., product=..)] *)
Definition REVIEW_REQUEST (name product : str) : str :=
  "Hi " +:+ name +:+ ", we noticed you recently purchased " +:+ product +:+
  ". We hope you're satisfied! Would you mind sharing a quick review about your experience?".

(** [GOOGLE_LINK_MSG.format(name=.., link=..)] *)
Definition GOOGLE_LINK_MSG (name link : str) : str :=
  "Thank you so much for your kind words, " +:+ name +:+
  "! We really appreciate it. If you have a moment, we would be grateful if you could share your experience on Google: " +:+
  link.

(** [THANK_YOU_MSG.format(name=..)] *)
Definition THANK_YOU_MSG (name : str) : str :=
  "Thank you for your feedback, " +:+ name +:+
  ". We appreciate you taking the time to share your thoughts with us.".

(** Everything outside the program that a run depends on. *)
Record Env := {
  world : WhatsAppClient.World;
  llm : SentimentService.LLMSettings;
  post : SentimentService.request -> SentimentService.http_reply;
  google_link : str;
  operator_ready : bool      (* ENTER at the prompt; false: Ctrl-C *)
}.

(** The objects a run owns: the provider and the database. *)
Record Run := {
  provider : SeleniumProvider.provider;
  db : table
}.

Definition on_provider {A} (m : M SeleniumProvider.provider A) : M Run A :=
  fun s => let (r, p) := m (provider s) in (r, {| provider := p; db := db s |}).

Definition on_db (f : table -> table) : M Run unit :=
  fun s => (Returns tt, {| provider := provider s; db := f (db s) |}).

Inductive control := Next | Break.

Section Run.
Variable env : Env.

(** [sentiment_service.classify(text)]; the service's own record of what it
    did is dropped. *)
Definition classify (text : str) : M Run SentimentService.Sentiment :=
  lift (fst (SentimentService.classify (llm env) (post env)
               (WhatsAppClient.unicode_db (world env)) text [])).

(** [random_delay(40, 90)]: a sleep of random length (the latency of the
    step), which the keyboard can interrupt. *)
Definition random_delay : M Run unit :=
  on_provider
    (let* self := get in
     match SeleniumProvider._client self with
     | Some c => SeleniumProvider.on_client c (WhatsAppClient._random_delay (world env))
     | None => ret tt
     end).

Definition send (phone text : str) : M Run bool :=
  on_provider (SeleniumProvider.send_message (world env) phone text).

(** The reply to a classified message. *)
Definition response_for (sentiment : str) (customer : Customer) : str :=
  if PyStr.eqb sentiment "Positive"
  then GOOGLE_LINK_MSG (name customer) (google_link env)
  else THANK_YOU_MSG (name customer).

(** The body of the [try] statement for one customer. *)
Definition process_customer (pending : list Customer) (customer : Customer)
    : M Run unit :=
  let product_name :=
    if truthy (product customer) then product customer
    else "your recent purchase" in
  (if has_review customer then
     let* msg :=
       on_provider
         (let* self := get in
          match SeleniumProvider.raw_client self with
          | Some c =>
              SeleniumProvider.on_client c
                (WhatsAppClient.read_latest_incoming_message (world env))
          | None => ret None
          end) in
     match msg with
     | Some m =>
         if truthy m then
           let* llm_sentiment := classify m in
           let sentiment := SentimentService.value llm_sentiment in
           let text := response_for sentiment customer in
           let* sent := send (phone customer) text in
           if sent then on_db (mark_done (id customer) sentiment (take_str 100 text))
           else on_db (mark_error (id customer) "Failed to send message")
         else ret tt
     | None => ret tt
     end
   else
     let text := REVIEW_REQUEST (name customer) product_name in
     let* sent := send (phone customer) text in
     if sent then
       let* reply :=
         on_provider (SeleniumProvider.wait_for_reply (world env)
                        (phone customer) 300) in
       match reply with
       | Some r =>
           if truthy r then
             let* llm_sentiment := classify r in
             let sentiment := SentimentService.value llm_sentiment in
             let response := response_for sentiment customer in
             let* sent := send (phone customer) response in
             if sent
             then on_db (mark_done (id customer) sentiment (take_str 100 response))
             else on_db (mark_error (id customer) "Failed to send response")
           else on_db (mark_no_reply (id customer))
       | None => on_db (mark_no_reply (id customer))
       end
     else on_db (mark_error (id customer) "Failed to send request")) ;;
  if bool_decide (Some customer <> last pending) then random_delay else ret tt.

(** One iteration of [for customer in pending], with its two handlers. *)
Definition guarded_step (pending : list Customer) (customer : Customer)
    : M Run control :=
  try_except
    (process_customer pending customer ;; ret Next)
    [ (is_class KeyboardInterrupt, fun _ => ret Break);
      (is_Exception, fun e =>
         on_db (mark_error (id customer) (take_str 100 (message e))) ;;
         ret Next) ].

Fixpoint campaign_loop (pending todo : list Customer) : M Run unit :=
  match todo with
  | [] => ret tt
  | customer :: rest =>
      let* k := guarded_step pending customer in
      match k with
      | Next => campaign_loop pending rest
      | Break => ret tt
      end
  end.

(** [run_campaign] once the pending customers have been read. *)
Definition campaign_with (pending : list Customer) : M Run unit :=
  if negb (WhatsAppClient.nonempty pending) then ret tt
  else
    let* launched := on_provider (SeleniumProvider.connect (world env)) in
    if negb launched then ret tt
    else if negb (operator_ready env) then
      on_provider (SeleniumProvider.close (world env))
    else
      let* ready := on_provider (SeleniumProvider.confirm_login (world env) 30) in
      if negb ready then on_provider (SeleniumProvider.close (world env))
      else
        campaign_loop pending pending ;;
        on_provider (SeleniumProvider.close (world env)).

Definition campaign : M Run unit :=
  let* s := get in
  campaign_with (get_pending_customers None (db s)).

(** [run_campaign()] on a database holding the table [t]. *)
Definition run_campaign (t : table) : outcome unit * Run :=
  campaign {| provider := SeleniumProvider.new false; db := t |}.

End Run.

(** The three writes a customer's step can make. *)
Inductive write (customer : Customer) (t : table) : table -> Prop :=
| WroteDone sentiment last_message :
    write customer t (mark_done (id customer) sentiment last_message t)
| WroteNoReply :
    write customer t (mark_no_reply (id customer) t)
| WroteError error :
    write customer t (mark_error (id customer) error t).

(** What a customer's step makes of the table [t]: one of the three
    writes; unless [sure], it may also leave [t] as it is. *)
Definition settled (sure : bool) (customer : Customer) (t t' : table) : Prop :=
  if sure then write customer t t' else t' = t \/ write customer t t'.

(** [m] writes to the table at most once, and then one of the three writes
    for [customer]; when [sure], it does not return without that write; when
    it raises an [Exception] it has written nothing. *)
Definition records {A} (sure : bool) (customer : Customer) (m : M Run A) : Prop :=
  forall s r s',
    m s = (r, s') ->
    match r with
    | Returns _ => settled sure customer (db s) (db s')
    | Raises e =>
        if is_Exception e then db s' = db s
        else settled false customer (db s) (db s')
    end.

(** [m] raises nothing but what is no [Exception]. *)
Definition interrupt_only {A} (m : M Run A) : Prop :=
  forall s e s', m s = (Raises e, s') -> is_Exception e = false.

(** The tables a loop over the given customers can make of a table: for
    each customer in turn, at most one of the three writes. *)
Inductive trail : list Customer -> table -> table -> Prop :=
| TrailEnd t : trail [] t t
| TrailStep customer rest t t1 t' :
    settled false customer t t1 -> trail rest t1 t' ->
    trail (customer :: rest) t t'.

(** [m] does not write to the table. *)
Definition quiet {A} (m : M Run A) : Prop :=
  forall s r s', m s = (r, s') -> db s' = db s.

(** Whatever [m] does, the table it leaves differs from the one it found in
    the outcome fields of the rows with the given ids only. *)
Definition frames {A} (ids : list Z) (m : M Run A) : Prop :=
  forall s r s', m s = (r, s') -> Forall2 (kept_by_campaign ids) (db s) (db s').

End Campaign.

(** ** Concrete environments used to run the model *)

Module Examples.
Import WhatsAppClient.

(** Tables that know nothing beyond ASCII.  The examples hold ASCII text
    only, for which the tables are not consulted. *)
Definition ascii_only : PyStr.Unicode :=
  {| PyStr.is_decimal := fun _ => false;
     PyStr.lower_text := fun s => s;
     PyStr.capitalize_text := fun s => s |}.

(** An element that accepts every interaction and has the given text. *)
Definition plain_element (text : str) : Element :=
  {| get_attribute := fun _ => Returns None;
     el_find_elements := fun _ => Returns [];
     el_text := Returns text;
     click := Returns tt;
     send_keys := fun _ => Returns tt |}.

(** A message bubble with its two attributes and its text. *)
Definition bubble (pre_text data_id text : str) : Element :=
  {| get_attribute := fun a =>
       if PyStr.eqb a "data-pre-plain-text" then Returns (Some pre_text)
       else if PyStr.eqb a "data-id" then Returns (Some data_id)
       else Returns None;
     el_find_elements := fun selector =>
       if PyStr.eqb selector "span.selectable-text.copyable-text"
       then Returns [plain_element text]
       else Returns [];
     el_text := Returns text;
     click := Returns tt;
     send_keys := fun _ => Returns tt |}.

(** A loaded chat page with the given source and message bubbles; every
    control is found. *)
Definition chat_page (source : str) (bubbles : list Element) : Page :=
  {| latency := 0;
     page_source := Returns source;
     find_element := fun _ => Returns (plain_element "");
     find_elements := fun selector =>
       if PyStr.eqb selector "div[data-pre-plain-text]" then Returns bubbles
       else Returns [];
     wait_until_present := fun _ _ => Returns (plain_element "");
     sleep_interrupted := false;
     quit := Returns tt |}.

(** The account is flagged: every page carries a block indicator. *)
Definition blocked_world : World :=
  {| pages := fun _ => chat_page "Your account is temporarily banned" [];
     hash_str := fun s => s;
     launch := fun _ => Returns tt;
     unicode_db := ascii_only |}.

Definition loved_it : Element :=
  bubble "[10:02, 1/2/2025] Ayesha: " "false_923001234567@c.us_3A"
    "Loved it, thanks!".

Definition old_message : Element :=
  bubble "[09:00, 1/2/2025] Ayesha: " "false_923001234567@c.us_1F"
    "Is my order on its way?".

(** A healthy session in which the customer's reply shows up at browser
    step [k]; [history] is in view from the start. *)
Definition reply_world (history : list Element) (k : nat) : World :=
  {| pages := fun n =>
       chat_page "<html>WhatsApp</html>"
         (if (n <? k)%nat then history else (history ++ [loved_it])%list);
     hash_str := fun s => s;
     launch := fun _ => Returns tt;
     unicode_db := ascii_only |}.

Definition ayesha : Database.Customer :=
  {| Database.id := 1; Database.user_id := 1; Database.name := "Ayesha";
     Database.phone := "923001234567"; Database.product := "Blender";
     Database.has_review := false; Database.status := "pending";
     Database.sentiment := ""; Database.last_message := "";
     Database.created_at := "2025-01-01 10:00:00" |}.

Definition bilal : Database.Customer :=
  {| Database.id := 2; Database.user_id := 1; Database.name := "Bilal";
     Database.phone := "923009876543"; Database.product := "";
     Database.has_review := false; Database.status := "pending";
     Database.sentiment := ""; Database.last_message := "";
     Database.created_at := "2025-01-01 10:05:00" |}.

(** No credential for the remote classifier. *)
Definition no_key : SentimentService.LLMSettings :=
  {| SentimentService.api_key := "";
     SentimentService.api_url := "https://openrouter.ai/api/v1/chat/completions";
     SentimentService.model := "meta-llama/llama-3.2-3b-instruct:free";
     SentimentService.timeout_seconds := 15 |}.

Definition with_key : SentimentService.LLMSettings :=
  {| SentimentService.api_key := "sk-or-v1-0000";
     SentimentService.api_url := "https://openrouter.ai/api/v1/chat/completions";
     SentimentService.model := "meta-llama/llama-3.2-3b-instruct:free";
     SentimentService.timeout_seconds := 15 |}.

(** A remote end that never answers in time. *)
Definition post_times_out (r : SentimentService.request) : SentimentService.http_reply :=
  SentimentService.PostRaises (mkExn Timeout "Read timed out.").

Definition env_of (w : World) : Campaign.Env :=
  {| Campaign.world := w;
     Campaign.llm := no_key;
     Campaign.post := post_times_out;
     Campaign.google_link := "https://g.page/r/review";
     Campaign.operator_ready := true |}.

(** A spreadsheet with an untidy header, one good row and one empty row. *)
Definition sample_frame : ExcelParser.Frame :=
  {| ExcelParser.columns :=
       [ ExcelParser.TextLabel "Customer Name"; ExcelParser.TextLabel " Phone ";
         ExcelParser.TextLabel "Item" ];
     ExcelParser.str_accessor_granted := true;
     ExcelParser.rows :=
       [ (fun col => if PyStr.eqb col "customer name" then " Ayesha "
                     else if PyStr.eqb col "phone" then "+92 300-1234567"
                     else "Blender");
         (fun col => if PyStr.eqb col "customer name" then "nan"
                     else if PyStr.eqb col "phone" then "0300"
                     else "nan") ] |}.

(** A remote end that answers in the expected shape, with the label in
    upper case and blanks around it. *)
Definition praise_reply (r : SentimentService.request) : SentimentService.http_reply :=
  SentimentService.Body
    (SentimentService.JDict
       [("id", SentimentService.JStr "gen-1");
        ("choices",
         SentimentService.JList
           [SentimentService.JDict
              [("message",
                SentimentService.JDict
                  [("role", SentimentService.JStr "assistant");
                   ("content", SentimentService.JStr " POSITIVE ")])]])]).

(** The browser is lost while the operator scans the code: waiting for the
    page fails with an error that is no timeout. *)
Definition lost_browser_world : World :=
  {| pages := fun _ =>
       {| latency := 0;
          page_source := Returns "<html>WhatsApp</html>";
          find_element := fun _ => Returns (plain_element "");
          find_elements := fun _ => Returns [];
          wait_until_present := fun _ _ =>
            Raises (mkExn WebDriverException "chrome not reachable");
          sleep_interrupted := false;
          quit := Returns tt |};
     hash_str := fun s => s;
     launch := fun _ => Returns tt;
     unicode_db := ascii_only |}.

(** A remote end whose payload is malformed inside: the content is null. *)
Definition null_content_reply (r : SentimentService.request) : SentimentService.http_reply :=
  SentimentService.Body
    (SentimentService.JDict
       [("choices",
         SentimentService.JList
           [SentimentService.JDict
              [("message",
                SentimentService.JDict
                  [("role", SentimentService.JStr "assistant");
                   ("content", SentimentService.JNull)])]])]).

(** The text 'ok' between two no-break spaces (U+00A0). *)
Definition padded_ok : str := String 160 ("ok" +:+ String 160 "").

(** The first customer after a positive answer and the thank-you. *)
Definition ayesha_thanked : Database.Customer :=
  {| Database.id := 1; Database.user_id := 1; Database.name := "Ayesha";
     Database.phone := "923001234567"; Database.product := "Blender";
     Database.has_review := true; Database.status := "done";
     Database.sentiment := "Positive"; Database.last_message := "Thank you";
     Database.created_at := "2025-01-01 10:00:00" |}.

End Examples.

(** * Results *)

(** ** Strings *)

Module PyStrFacts.
Import PyStr.

Lemma eqb_eq (a b : str) : eqb a b = true <-> a = b.
Proof.
  revert b. induction a as [|x a IH]; intros [|y b]; simpl;
    try (split; [discriminate | intros H; discriminate]);
    [split; reflexivity|].
  rewrite andb_true_iff, N.eqb_eq, IH. split.
  - intros [-> ->]. reflexivity.
  - intros H. injection H as -> ->. split; reflexivity.
Qed.

Lemma eqb_refl (a : str) : eqb a a = true.
Proof. apply eqb_eq. reflexivity. Qed.

Lemma eqb_neq (a b : str) : eqb a b = false <-> a <> b.
Proof.
  destruct (eqb a b) eqn:E.
  - apply eqb_eq in E. split; [discriminate | intros H; contradiction].
  - split; [|reflexivity]. intros _ H. apply eqb_eq in H. congruence.
Qed.

Lemma startswith_spec (p s : str) :
  startswith p s = true <-> exists post, s = p +:+ post.
Proof.
  revert s. induction p as [|a p IH]; intros s; simpl.
  - split; [intros _; exists s; reflexivity | reflexivity].
  - destruct s as [|b s].
    + split; [discriminate | intros [post H]; discriminate].
    + destruct (N.eqb a b) eqn:E.
      * apply N.eqb_eq in E. subst b. rewrite IH.
        split; intros [post H]; exists post; [rewrite H; reflexivity|].
        injection H as H. exact H.
      * apply N.eqb_neq in E.
        split; [discriminate | intros [post H]; injection H as H1 H2; congruence].
Qed.

Lemma contains_spec (needle hay : str) :
  contains needle hay = true <-> occurs_in needle hay.
Proof.
  induction hay as [|c r IH]; simpl.
  - rewrite orb_false_r, startswith_spec. unfold occurs_in. split.
    + intros [post H]. exists "", post. exact H.
    + intros [pre [post H]]. destruct pre; simpl in H; [|discriminate].
      exists post. exact H.
  - rewrite orb_true_iff, startswith_spec, IH. unfold occurs_in. split.
    + intros [[post H] | [pre [post H]]].
      * exists "", post. exact H.
      * exists (String c pre), post. simpl. rewrite H. reflexivity.
    + intros [pre [post H]]. destruct pre as [|c' pre]; simpl in H.
      * left. exists post. exact H.
      * right. injection H as _ H. exists pre, post. exact H.
Qed.

Lemma any_keyword_spec (keywords : list str) (text : str) :
  existsb (fun kw => contains kw text) keywords = true <->
  exists kw, In kw keywords /\ occurs_in kw text.
Proof.
  rewrite existsb_exists. split; intros [kw [H1 H2]]; exists kw; split; try assumption.
  - apply contains_spec; assumption.
  - apply contains_spec; assumption.
Qed.

Lemma truthy_len (s : str) : truthy s = false -> len s = 0.
Proof. destruct s; [reflexivity | discriminate]. Qed.

End PyStrFacts.

(** *** Trimming, reversal and slices *)

Module PyStrMore.
Import PyStr.

Lemma app_cons (c : char) (a b : str) :
  String c a +:+ b = String c (a +:+ b).
Proof. reflexivity. Qed.

Lemma app_nil_l_str (b : str) : "" +:+ b = b.
Proof. reflexivity. Qed.

Ltac ssimpl := rewrite ?app_cons, ?app_nil_l_str; simpl.

Lemma app_nil_r_str (s : str) : s +:+ "" = s.
Proof. induction s as [|c r IH]; ssimpl; [reflexivity | rewrite IH; reflexivity]. Qed.

Lemma app_assoc_str (a b c : str) : (a +:+ b) +:+ c = a +:+ (b +:+ c).
Proof. induction a as [|x a IH]; ssimpl; [reflexivity | rewrite IH; reflexivity]. Qed.

Lemma rev_onto_spec (s acc : str) : rev_onto s acc = reverse s +:+ acc.
Proof.
  unfold reverse. revert acc. induction s as [|c r IH]; intros acc; ssimpl.
  - reflexivity.
  - rewrite (IH (String c acc)), (IH (String c "")), app_assoc_str. reflexivity.
Qed.

Lemma reverse_cons (c : char) (s : str) :
  reverse (String c s) = reverse s +:+ String c "".
Proof. unfold reverse at 1. ssimpl. apply rev_onto_spec. Qed.

Lemma reverse_app (a b : str) : reverse (a +:+ b) = reverse b +:+ reverse a.
Proof.
  induction a as [|c a IH]; ssimpl.
  - change (reverse "") with "". rewrite app_nil_r_str. reflexivity.
  - rewrite !reverse_cons, IH, app_assoc_str. reflexivity.
Qed.

Lemma reverse_involutive (s : str) : reverse (reverse s) = s.
Proof.
  induction s as [|c r IH]; [reflexivity|].
  rewrite reverse_cons, reverse_app, IH. reflexivity.
Qed.

Lemma all_str_app (p : char -> bool) (a b : str) :
  all_str p (a +:+ b) = all_str p a && all_str p b.
Proof.
  induction a as [|c a IH]; ssimpl; [reflexivity|].
  rewrite IH, andb_assoc. reflexivity.
Qed.

Lemma all_str_reverse (p : char -> bool) (s : str) :
  all_str p (reverse s) = all_str p s.
Proof.
  induction s as [|c r IH]; [reflexivity|].
  rewrite reverse_cons, all_str_app, IH. ssimpl.
  rewrite andb_true_r, andb_comm. reflexivity.
Qed.

Lemma len_app (a b : str) : len (a +:+ b) = len a + len b.
Proof. induction a as [|c a IH]; ssimpl; [reflexivity | rewrite IH; reflexivity]. Qed.

Lemma len_reverse (s : str) : len (reverse s) = len s.
Proof.
  induction s as [|c r IH]; [reflexivity|].
  rewrite reverse_cons, len_app, IH. ssimpl. lia.
Qed.

(** [lstrip] takes white space off the front, and only that. *)
Lemma lstrip_spec (s : str) :
  exists w, s = w +:+ lstrip s /\ all_str isspace w = true /\
            no_leading_space (lstrip s).
Proof.
  induction s as [|c r IH]; ssimpl.
  - exists "". repeat split.
  - destruct (isspace c) eqn:E.
    + destruct IH as [w [H1 [H2 H3]]]. exists (String c w). ssimpl.
      rewrite <- H1, E, H2. repeat split. exact H3.
    + exists "". ssimpl. repeat split. exact E.
Qed.

Lemma lstrip_fixed (s : str) : no_leading_space s -> lstrip s = s.
Proof. destruct s as [|c r]; ssimpl; [reflexivity|]. intros ->. reflexivity. Qed.

(** [rstrip] takes white space off the end, and only that. *)
Lemma rstrip_spec (s : str) :
  exists w, s = rstrip s +:+ w /\ all_str isspace w = true /\
            no_leading_space (reverse (rstrip s)).
Proof.
  unfold rstrip. destruct (lstrip_spec (reverse s)) as [w [H1 [H2 H3]]].
  exists (reverse w). split; [|split].
  - rewrite <- reverse_app, <- H1, reverse_involutive. reflexivity.
  - rewrite all_str_reverse. exact H2.
  - rewrite reverse_involutive. exact H3.
Qed.

Lemma rstrip_fixed (s : str) : no_leading_space (reverse s) -> rstrip s = s.
Proof.
  intros H. unfold rstrip. rewrite (lstrip_fixed _ H). apply reverse_involutive.
Qed.

Lemma lstrip_keeps_last (a : str) (c : char) :
  isspace c = false -> exists u, lstrip (a +:+ String c "") = u +:+ String c "".
Proof.
  intros Hc. induction a as [|d a IH]; ssimpl.
  - rewrite Hc. exists "". reflexivity.
  - destruct (isspace d); [exact IH|]. exists (String d a). reflexivity.
Qed.

Lemma rstrip_keeps_no_leading_space (s : str) :
  no_leading_space s -> no_leading_space (rstrip s).
Proof.
  destruct s as [|c r]; [intros _; exact I|]. ssimpl. intros Hc.
  unfold rstrip. rewrite reverse_cons.
  destruct (lstrip_keeps_last (reverse r) c Hc) as [u ->].
  rewrite reverse_app. ssimpl. exact Hc.
Qed.

(** What [strip] returns has no white space at either end, and [strip]
    leaves it as it is. *)
Lemma strip_no_leading_space (s : str) : no_leading_space (strip s).
Proof.
  unfold strip. apply rstrip_keeps_no_leading_space.
  destruct (lstrip_spec s) as [w [_ [_ H]]]. exact H.
Qed.

Lemma strip_idempotent (s : str) : strip (strip s) = strip s.
Proof.
  pose proof (strip_no_leading_space s) as H1.
  assert (H2 : no_leading_space (reverse (strip s))).
  { unfold strip. destruct (rstrip_spec (lstrip s)) as [w [_ [_ H]]]. exact H. }
  unfold strip at 1. rewrite (lstrip_fixed _ H1). apply rstrip_fixed. exact H2.
Qed.

(** [strip] only takes characters away at the two ends. *)
Lemma strip_spec (s : str) :
  exists front back, s = front +:+ strip s +:+ back /\
                     all_str isspace front = true /\ all_str isspace back = true.
Proof.
  destruct (lstrip_spec s) as [w [H1 [H2 _]]].
  destruct (rstrip_spec (lstrip s)) as [w' [G1 [G2 _]]].
  exists w, w'. unfold strip. rewrite <- G1, <- H1. repeat split; assumption.
Qed.

Lemma all_str_strip (p : char -> bool) (s : str) :
  all_str p s = true -> all_str p (strip s) = true.
Proof.
  destruct (strip_spec s) as [front [back [H _]]]. intros Hs.
  rewrite H, !all_str_app in Hs.
  apply andb_true_iff in Hs. destruct Hs as [_ Hs].
  apply andb_true_iff in Hs. exact (proj1 Hs).
Qed.

Lemma len_take_str (n : nat) (s : str) : len (take_str n s) <= n.
Proof.
  revert s. induction n as [|n IH]; intros s; ssimpl; [lia|].
  destruct s as [|c r]; ssimpl; [lia|]. specialize (IH r). lia.
Qed.

Lemma take_str_short (n : nat) (s : str) : len s <= n -> take_str n s = s.
Proof.
  revert s. induction n as [|n IH]; intros s H.
  - destruct s; [reflexivity | simpl in H; lia].
  - destruct s as [|c r]; [reflexivity|]. ssimpl. rewrite IH; [reflexivity|].
    simpl in H. lia.
Qed.

End PyStrMore.

(** ** The monad *)

Section MonadFacts.
Context {St : Type}.

Lemma roe_ret {A} (a : A) : raises_only_Exception (ret a : M St A).
Proof. intros s e s' H. discriminate. Qed.

Lemma roe_raise {A} (e : exn) :
  is_Exception e = true -> raises_only_Exception (raise e : M St A).
Proof. intros He s e' s' H. injection H as <- _. exact He. Qed.

Lemma roe_lift {A} (o : outcome A) :
  (forall e, o = Raises e -> is_Exception e = true) ->
  raises_only_Exception (lift o : M St A).
Proof. intros Ho s e s' H. injection H as H _. apply Ho. exact H. Qed.

Lemma roe_bind {A B} (m : M St A) (k : A -> M St B) :
  raises_only_Exception m -> (forall a, raises_only_Exception (k a)) ->
  raises_only_Exception (bind m k).
Proof.
  intros Hm Hk s e s' H. unfold bind in H.
  destruct (m s) as [[a|e0] s0] eqn:E.
  - eapply Hk; eassumption.
  - injection H as <- <-. eapply Hm; eassumption.
Qed.

Lemma roe_try_except {A} (m : M St A) (clauses : list (clause St A)) :
  raises_only_Exception m ->
  (forall e h, dispatch clauses e = Some h -> raises_only_Exception h) ->
  raises_only_Exception (try_except m clauses).
Proof.
  intros Hm Hc s e s' H. unfold try_except in H.
  destruct (m s) as [[a|e0] s0] eqn:E; [discriminate|].
  destruct (dispatch clauses e0) as [h|] eqn:D.
  - eapply Hc; eassumption.
  - injection H as <- <-. eapply Hm; eassumption.
Qed.

(** A [try] whose clauses accept every [Exception] and whose handlers
    return, around a body that raises nothing else, always returns. *)
Lemma try_except_always_returns {A} (m : M St A) (clauses : list (clause St A)) :
  raises_only_Exception m ->
  (forall e, is_Exception e = true ->
     exists h, dispatch clauses e = Some h /\ always_returns h) ->
  always_returns (try_except m clauses).
Proof.
  intros Hm Hc s. unfold try_except.
  destruct (m s) as [[a|e] s0] eqn:E.
  - eauto.
  - destruct (Hc e (Hm _ _ _ E)) as [h [-> Hh]]. apply Hh.
Qed.

End MonadFacts.

Section MonadStateFacts.
Context {St : Type}.

Lemma ks_ret {A} (a : A) : keeps_state (ret a : M St A).
Proof. intros s. reflexivity. Qed.

Lemma ks_raise {A} (e : exn) : keeps_state (raise e : M St A).
Proof. intros s. reflexivity. Qed.

Lemma ks_lift {A} (o : outcome A) : keeps_state (lift o : M St A).
Proof. intros s. reflexivity. Qed.

Lemma ks_bind {A B} (m : M St A) (k : A -> M St B) :
  keeps_state m -> (forall a, keeps_state (k a)) -> keeps_state (bind m k).
Proof.
  intros Hm Hk s. unfold bind. specialize (Hm s).
  destruct (m s) as [[a|e] s0]; simpl in Hm; subst s0.
  - apply Hk.
  - reflexivity.
Qed.

Lemma ks_try_except {A} (m : M St A) (clauses : list (clause St A)) :
  keeps_state m ->
  (forall e h, dispatch clauses e = Some h -> keeps_state h) ->
  keeps_state (try_except m clauses).
Proof.
  intros Hm Hc s. unfold try_except. specialize (Hm s).
  destruct (m s) as [[a|e] s0]; simpl in Hm; subst s0.
  - reflexivity.
  - destruct (dispatch clauses e) as [h|] eqn:D.
    + eapply Hc; eassumption.
    + reflexivity.
Qed.

End MonadStateFacts.

(** ** Sentiment classification *)

Module SentimentFacts.
Import PyStr PyStrFacts PyStrMore SentimentService.

Section Service.
Variable settings : LLMSettings.
Variable post : request -> http_reply.
Variable unicode : Unicode.

Lemma py_get_Exception j key default e :
  py_get j key default = Raises e -> is_Exception e = true.
Proof. destruct j; simpl; intros H; inversion H; reflexivity. Qed.

Lemma py_item0_Exception j e :
  py_item0 j = Raises e -> is_Exception e = true.
Proof.
  destruct j as [| | |s|l|d]; simpl; try (intros H; inversion H; reflexivity).
  - destruct s; intros H; inversion H; reflexivity.
  - destruct l; intros H; inversion H; reflexivity.
Qed.

Lemma py_strip_Exception j e :
  py_strip j = Raises e -> is_Exception e = true.
Proof. destruct j; simpl; intros H; inversion H; reflexivity. Qed.

Lemma extract_raises_only_Exception data :
  raises_only_Exception (_extract_response_content data).
Proof.
  apply roe_try_except.
  - apply roe_bind; [apply roe_lift, py_get_Exception|]. intros choices.
    destruct (json_truthy choices); [|apply roe_ret].
    apply roe_bind; [apply roe_lift, py_item0_Exception|]. intros first.
    apply roe_bind; [apply roe_lift, py_get_Exception|]. intros msg.
    apply roe_bind; [apply roe_lift, py_get_Exception|]. intros content.
    apply roe_lift, py_strip_Exception.
  - intros e h. simpl. destruct (_ || _); intros H; inversion H. apply roe_ret.
Qed.

Lemma extract_keeps_state data : keeps_state (_extract_response_content data).
Proof.
  apply ks_try_except.
  - apply ks_bind; [apply ks_lift|]. intros choices.
    destruct (json_truthy choices); [|apply ks_ret].
    repeat (apply ks_bind; [apply ks_lift|]; intros ?). apply ks_lift.
  - intros e h. simpl. destruct (_ || _); intros H; inversion H. apply ks_ret.
Qed.

Lemma parse_raises_only_Exception content :
  raises_only_Exception (_parse_sentiment_label unicode content).
Proof.
  unfold _parse_sentiment_label.
  destruct (negb (truthy content)); [apply roe_ret|].
  destruct (first_word content); [|apply roe_raise; reflexivity].
  repeat (match goal with |- context [if ?b then _ else _] => destruct b end);
    apply roe_ret.
Qed.

Lemma parse_keeps_state content :
  keeps_state (_parse_sentiment_label unicode content).
Proof.
  unfold _parse_sentiment_label.
  destruct (negb (truthy content)); [apply ks_ret|].
  destruct (first_word content); [|apply ks_raise].
  repeat (match goal with |- context [if ?b then _ else _] => destruct b end);
    apply ks_ret.
Qed.

(** The request is recorded, whatever comes back. *)
Lemma post_and_decode_logs r l :
  snd (post_and_decode post r l) = (l ++ [EvPost r])%list.
Proof.
  unfold post_and_decode, bind, log. destruct (post r); reflexivity.
Qed.

Lemma post_and_decode_raises_only_Exception r :
  (forall e, post r = PostRaises e -> is_Exception e = true) ->
  raises_only_Exception (post_and_decode post r).
Proof.
  intros Hp l e l'. unfold post_and_decode, bind, log.
  destruct (post r) as [e0| | |data] eqn:E; intros H; inversion H; subst;
    try reflexivity.
  apply Hp. reflexivity.
Qed.

Lemma llm_logs_one_request text l :
  snd (_classify_with_llm settings post unicode text l)
  = (l ++ [EvPost (request_for settings text)])%list.
Proof.
  unfold _classify_with_llm, try_except.
  set (r := request_for settings text).
  unfold bind at 1.
  pose proof (post_and_decode_logs r l) as Hl.
  destruct (post_and_decode post r l) as [[data|e] l1]; simpl in Hl; subst l1.
  - unfold bind.
    pose proof (extract_keeps_state data (l ++ [EvPost r])%list) as He.
    destruct (_extract_response_content data _) as [[content|e] l2];
      simpl in He; subst l2.
    + pose proof (parse_keeps_state content (l ++ [EvPost r])%list) as Hq.
      destruct (_parse_sentiment_label unicode content _) as [[o|e] l3];
        simpl in Hq; subst l3; [reflexivity|].
      simpl. repeat (match goal with |- context [if ?b then _ else _] => destruct b end); reflexivity.
    + simpl. repeat (match goal with |- context [if ?b then _ else _] => destruct b end); reflexivity.
  - simpl. repeat (match goal with |- context [if ?b then _ else _] => destruct b end); reflexivity.
Qed.

Lemma llm_always_returns text :
  (forall r e, post r = PostRaises e -> is_Exception e = true) ->
  always_returns (_classify_with_llm settings post unicode text).
Proof.
  intros Hp. apply try_except_always_returns.
  - apply roe_bind; [apply post_and_decode_raises_only_Exception, Hp|].
    intros data. apply roe_bind; [apply extract_raises_only_Exception|].
    intros content. apply parse_raises_only_Exception.
  - intros e He. simpl.
    destruct (is_class Timeout e); [eexists; split; [reflexivity|]; intros s; eexists _, _; reflexivity|].
    destruct (is_RequestException e); [eexists; split; [reflexivity|]; intros s; eexists _, _; reflexivity|].
    rewrite He. eexists; split; [reflexivity|]. intros s; eexists _, _; reflexivity.
Qed.

(** The heuristic tier returns its label and records one keyword look-up. *)
Lemma heuristics_returns text l :
  _classify_with_heuristics unicode text l
  = (fst (_classify_with_heuristics unicode text []),
     (l ++ [EvKeywords (lower unicode text)])%list).
Proof.
  unfold _classify_with_heuristics, bind, log, ret. simpl.
  repeat (match goal with |- context [if ?b then _ else _] => destruct b end);
    reflexivity.
Qed.

Lemma heuristics_label text :
  exists label, fst (_classify_with_heuristics unicode text []) = Returns label.
Proof.
  unfold _classify_with_heuristics, bind, log, ret. simpl.
  repeat (match goal with |- context [if ?b then _ else _] => destruct b end);
    eexists; reflexivity.
Qed.

Lemma long_text_not_short text :
  3 <= len (strip text) ->
  negb (truthy text) || (len (strip text) <? 3)%nat = false.
Proof.
  intros H. destruct text as [|c r].
  - simpl in H. lia.
  - simpl. apply Nat.ltb_ge. exact H.
Qed.

Lemma short_text_is_short text :
  len (strip text) < 3 ->
  negb (truthy text) || (len (strip text) <? 3)%nat = true.
Proof.
  intros H. apply orb_true_iff. right. apply Nat.ltb_lt. exact H.
Qed.

(** Without a credential, a text that is not short goes straight to the
    keywords. *)
Lemma classify_without_key text l :
  api_key settings = "" -> 3 <= len (strip text) ->
  classify settings post unicode text l = _classify_with_heuristics unicode text l.
Proof.
  intros Hk Hl. unfold classify. rewrite (long_text_not_short _ Hl), Hk.
  reflexivity.
Qed.

(** *** What the remote tier makes of a reply *)

(** The content of a response of the expected shape is found and trimmed. *)
Lemma extract_well_formed d m mm others content l :
  assoc "choices" d = Some (JList (JDict m :: others)) ->
  assoc "message" m = Some (JDict mm) ->
  assoc "content" mm = Some (JStr content) ->
  _extract_response_content (JDict d) l = (Returns (strip content), l).
Proof.
  intros H1 H2 H3.
  unfold _extract_response_content, try_except, bind, lift, py_get.
  rewrite H1. simpl. rewrite H2, H3. reflexivity.
Qed.

Lemma reply_content_shape r c :
  reply_content r = Some c ->
  exists d m others mm c0,
    r = Body (JDict d) /\
    assoc "choices" d = Some (JList (JDict m :: others)) /\
    assoc "message" m = Some (JDict mm) /\
    assoc "content" mm = Some (JStr c0) /\
    truthy (strip c0) = true /\ c = strip c0.
Proof.
  unfold reply_content.
  destruct r as [e| | |data]; try discriminate.
  destruct data as [| | | | |d]; try discriminate.
  destruct (assoc "choices" d) as [[| | | |[|[| | | | |m] others]|]|] eqn:E1;
    try (cbn; discriminate).
  destruct (assoc "message" m) as [[| | | | |mm]|] eqn:E2;
    try (cbn; discriminate).
  destruct (assoc "content" mm) as [[| | |c0| |]|] eqn:E3;
    try (cbn; discriminate).
  destruct (truthy (strip c0)) eqn:Et; [|discriminate].
  intros H. injection H as <-. exists d, m, others, mm, c0.
  repeat split; assumption.
Qed.

(** A text that the extraction returns is the content of the reply, or
    empty. *)
Lemma extract_returns data l c l' :
  _extract_response_content data l = (Returns c, l') ->
  truthy c = true -> reply_content (Body data) = Some c.
Proof.
  unfold _extract_response_content, try_except, bind, lift, ret, reply_content.
  destruct data as [| | |s|items|d]; cbn [py_get dispatch fst snd];
    try (cbn; discriminate).
  destruct (assoc "choices" d) as [choices|]; cbn [json_truthy];
    [|intros H; injection H as <- _; discriminate].
  destruct choices as [|b|n|s|[|first others]|[|kv ms]];
    cbn [json_truthy py_item0];
    try (intros H; injection H as <- _; discriminate);
    try (cbn; intros H; injection H as <- _; discriminate).
  - destruct b; cbn; intros H; [|injection H as <- _; discriminate];
      injection H as <- _; discriminate.
  - destruct (negb (n =? 0)%Z); cbn; intros H; injection H as <- _; discriminate.
  - destruct s as [|x s]; cbn; intros H; [injection H as <- _; discriminate|].
    discriminate.
  - destruct first as [| | | | |m]; try (cbn; discriminate).
    cbn [py_get].
    destruct (assoc "message" m) as [message|].
    + destruct message as [| | | | |mm]; try (cbn; discriminate).
      cbn [py_get].
      destruct (assoc "content" mm) as [content|].
      * destruct content as [| | |c0| |]; try (cbn; discriminate).
        cbn [py_strip]. intros H. injection H as <- _. intros ->. reflexivity.
      * cbn. intros H. injection H as <- _. discriminate.
    + cbn. intros H. injection H as <- _. discriminate.
Qed.

(** The label of a content that is not blank: that of its first word. *)
Lemma parse_content c0 l :
  truthy (strip c0) = true ->
  exists w,
    first_word (strip c0) = Some w /\
    _parse_sentiment_label unicode (strip c0) l
    = (Returns (Some (named_label unicode w)), l).
Proof.
  intros Ht.
  assert (Hw : exists w, first_word (strip c0) = Some w).
  { unfold first_word. rewrite (lstrip_fixed _ (strip_no_leading_space c0)).
    destruct (strip c0); [discriminate | eauto]. }
  destruct Hw as [w Hw]. exists w. split; [exact Hw|].
  unfold _parse_sentiment_label, named_label. rewrite Ht, Hw. cbn [negb].
  repeat (match goal with |- context [if ?b then _ else _] => destruct b end);
    reflexivity.
Qed.

(** The remote tier: one request; the label of the content when the reply
    carries one, and no label for every other reply. *)
Lemma llm_result text l :
  (forall e, post (request_for settings text) = PostRaises e ->
             is_Exception e = true) ->
  _classify_with_llm settings post unicode text l
  = (Returns match reply_content (post (request_for settings text)) with
             | Some c =>
                 match first_word c with
                 | Some w => Some (named_label unicode w)
                 | None => None
                 end
             | None => None
             end,
     (l ++ [EvPost (request_for settings text)])%list).
Proof.
  intros Hp. set (r := request_for settings text) in *.
  destruct (reply_content (post r)) as [c|] eqn:Ec.
  - destruct (reply_content_shape _ _ Ec)
      as (d & m & others & mm & c0 & Hr & H1 & H2 & H3 & Ht & ->).
    destruct (parse_content c0 (l ++ [EvPost r])%list Ht) as [w [Hw Hq]].
    rewrite Hw.
    unfold _classify_with_llm, try_except, bind at 1.
    fold r. unfold post_and_decode, bind at 1, log. rewrite Hr.
    unfold ret at 1, bind at 1.
    rewrite (extract_well_formed d m mm others c0 _ H1 H2 H3), Hq. reflexivity.
  - pose proof (llm_logs_one_request text l) as Hl. fold r in Hl.
    assert (Ha : exists o l1,
               _classify_with_llm settings post unicode text l = (Returns o, l1)).
    { unfold _classify_with_llm. apply try_except_always_returns.
      - apply roe_bind; [apply post_and_decode_raises_only_Exception; exact Hp|].
        intros data. apply roe_bind; [apply extract_raises_only_Exception|].
        intros content. apply parse_raises_only_Exception.
      - intros e He. simpl.
        destruct (is_class Timeout e); [eexists; split; [reflexivity|]; intros s; eexists _, _; reflexivity|].
        destruct (is_RequestException e); [eexists; split; [reflexivity|]; intros s; eexists _, _; reflexivity|].
        rewrite He. eexists; split; [reflexivity|]. intros s; eexists _, _; reflexivity. }
    destruct Ha as (o & l1 & Ha). rewrite Ha in Hl |- *. cbn [snd] in Hl. subst l1.
    destruct o as [s|]; [exfalso|reflexivity].
    revert Ha. unfold _classify_with_llm, try_except, bind at 1.
    fold r. unfold post_and_decode, bind at 1, log.
    destruct (post r) as [e| | |data] eqn:Er.
    + cbn. repeat (match goal with |- context [if ?b then _ else _] => destruct b end);
        discriminate.
    + cbn. discriminate.
    + cbn. discriminate.
    + unfold ret at 1, bind at 1.
      pose proof (extract_keeps_state data (l ++ [EvPost r])%list) as Hk.
      destruct (_extract_response_content data (l ++ [EvPost r])%list)
        as [[c|e] l2] eqn:Ee; cbn [snd] in Hk; subst l2.
      * destruct (truthy c) eqn:Et.
        -- rewrite (extract_returns _ _ _ _ Ee Et) in Ec. discriminate.
        -- unfold _parse_sentiment_label. rewrite Et. cbn. discriminate.
      * cbn. repeat (match goal with |- context [if ?b then _ else _] => destruct b end);
          discriminate.
Qed.

End Service.

(** C3.  Whatever the text, the configuration, the Unicode tables and the
    behaviour of the remote end (provided a failing request raises an
    [Exception], which timeouts, network errors and HTTP errors are),
    [classify] returns one of the three labels and raises nothing.  When the
    credential is set and the text is not short, one request is posted, and
    the result is the one of the keyword heuristics for every reply that
    does not carry a label text: a transport error, an error status, a body
    that is not JSON, and a payload that is malformed at any level (no
    "choices", an empty list, an entry or a message that is no object, a
    content that is missing, null, no text or blank).  For the other
    replies the keywords are not consulted.  The last part lists replies
    that carry no label text. *)
Theorem classify_always_returns_a_label
    (settings : LLMSettings) (post : request -> http_reply)
    (unicode : Unicode) (text : str) (l : list event) :
  (forall r e, post r = PostRaises e -> is_Exception e = true) ->
  (exists label l',
      classify settings post unicode text l = (Returns label, l') /\
      (label = POSITIVE \/ label = NEUTRAL \/ label = NEGATIVE)) /\
  (truthy (api_key settings) = true -> 3 <= len (strip text) ->
   match reply_content (post (request_for settings text)) with
   | None =>
       classify settings post unicode text l
       = _classify_with_heuristics unicode text
           (l ++ [EvPost (request_for settings text)])%list
   | Some _ =>
       exists label,
         classify settings post unicode text l
         = (Returns label, (l ++ [EvPost (request_for settings text)])%list)
   end) /\
  ((forall e, reply_content (PostRaises e) = None) /\
   (forall code, reply_content (BadStatus code) = None) /\
   reply_content BodyNotJson = None /\
   (forall data, (forall d, data <> JDict d) -> reply_content (Body data) = None) /\
   (forall d, assoc "choices" d = None -> reply_content (Body (JDict d)) = None) /\
   (forall d, assoc "choices" d = Some (JList []) ->
              reply_content (Body (JDict d)) = None) /\
   (forall d m others mm,
       assoc "choices" d = Some (JList (JDict m :: others)) ->
       assoc "message" m = Some (JDict mm) ->
       assoc "content" mm = Some JNull ->
       reply_content (Body (JDict d)) = None)).
Proof.
  intros Hp. split; [|split].
  - assert (Hlabel : forall s : Sentiment, s = POSITIVE \/ s = NEUTRAL \/ s = NEGATIVE)
      by (intros []; auto).
    unfold classify.
    destruct (negb (truthy text) || (len (strip text) <? 3)%nat).
    { eexists _, _. split; [reflexivity | apply Hlabel]. }
    assert (Hh : forall l0, exists label l',
                 _classify_with_heuristics unicode text l0 = (Returns label, l')).
    { intros l0. rewrite heuristics_returns.
      destruct (heuristics_label unicode text) as [label ->]. eauto. }
    destruct (truthy (api_key settings)).
    + destruct (llm_always_returns settings post unicode text Hp l) as [o [l1 E]].
      unfold bind. rewrite E. destruct o as [s|].
      * eexists _, _. split; [reflexivity | apply Hlabel].
      * destruct (Hh l1) as [label [l' ->]]. eexists _, _. split; [reflexivity | apply Hlabel].
    + unfold bind, ret. destruct (Hh l) as [label [l' ->]].
      eexists _, _. split; [reflexivity | apply Hlabel].
  - intros Hk Hl. unfold classify.
    rewrite (long_text_not_short _ Hl), Hk. unfold bind.
    rewrite (llm_result settings post unicode text l (Hp _)).
    destruct (reply_content (post (request_for settings text))) as [c|] eqn:Ec;
      [|reflexivity].
    destruct (reply_content_shape _ _ Ec)
      as (d & m & others & mm & c0 & _ & _ & _ & _ & Ht & ->).
    destruct (parse_content unicode c0 [] Ht) as [w [-> _]].
    eexists. reflexivity.
  - repeat split; try reflexivity.
    + intros data Hd. destruct data; try reflexivity. exfalso. eapply Hd. reflexivity.
    + intros d H. unfold reply_content. rewrite H. reflexivity.
    + intros d H. unfold reply_content. rewrite H. reflexivity.
    + intros d m others mm H1 H2 H3. unfold reply_content.
      rewrite H1, H2, H3. reflexivity.
Qed.

Lemma classify_always_returns_a_label_witness :
  (forall r e, Examples.null_content_reply r = PostRaises e -> is_Exception e = true) /\
  truthy (api_key Examples.with_key) = true /\
  3 <= len (strip "Great service, thanks") /\
  reply_content (Examples.null_content_reply
                   (request_for Examples.with_key "Great service, thanks")) = None /\
  classify Examples.with_key Examples.null_content_reply Examples.ascii_only
    "Great service, thanks" []
  = _classify_with_heuristics Examples.ascii_only "Great service, thanks"
      ([] ++ [EvPost (request_for Examples.with_key "Great service, thanks")])%list.
Proof.
  assert (H : forall r e, Examples.null_content_reply r = PostRaises e ->
                          is_Exception e = true).
  { intros r e E. discriminate. }
  split; [exact H|]. split; [reflexivity|].
  split; [vm_compute; lia|]. split; [reflexivity|].
  exact (proj1 (proj2 (classify_always_returns_a_label Examples.with_key
                         Examples.null_content_reply Examples.ascii_only
                         "Great service, thanks" [] H))
           eq_refl ltac:(vm_compute; lia)).
Defined.

(** C5.  With no credential and a text of trimmed length at least 3, the
    label follows the keywords found in the lower-cased text (the text as
    [str.lower] gives it, whatever its characters): positive only gives
    Positive, negative only gives Negative, both or neither gives Neutral;
    the two examples of the specification come out Positive and
    Negative. *)
Theorem heuristic_fallback_follows_keywords
    (settings : LLMSettings) (post : request -> http_reply)
    (unicode : Unicode) (text : str) (l : list event) :
  api_key settings = "" -> 3 <= len (strip text) ->
  let has := fun kws => exists kw, In kw kws /\ occurs_in kw (lower unicode text) in
  (exists label,
      classify settings post unicode text l
      = (Returns label, (l ++ [EvKeywords (lower unicode text)])%list) /\
      (has POSITIVE_KEYWORDS /\ ~ has NEGATIVE_KEYWORDS -> label = POSITIVE) /\
      (has NEGATIVE_KEYWORDS /\ ~ has POSITIVE_KEYWORDS -> label = NEGATIVE) /\
      (has POSITIVE_KEYWORDS /\ has NEGATIVE_KEYWORDS \/
       ~ has POSITIVE_KEYWORDS /\ ~ has NEGATIVE_KEYWORDS -> label = NEUTRAL)) /\
  fst (classify settings post unicode "This is the best product, thank you!" l)
  = Returns POSITIVE /\
  fst (classify settings post unicode "Terrible, I want a refund" l)
  = Returns NEGATIVE.
Proof.
  intros Hk Hl has. split; [|split].
  - rewrite (classify_without_key settings post unicode text l Hk Hl).
    unfold _classify_with_heuristics, bind, log, ret.
    pose proof (any_keyword_spec POSITIVE_KEYWORDS (lower unicode text)) as Hpos.
    pose proof (any_keyword_spec NEGATIVE_KEYWORDS (lower unicode text)) as Hneg.
    fold (has POSITIVE_KEYWORDS) in Hpos. fold (has NEGATIVE_KEYWORDS) in Hneg.
    destruct (existsb _ POSITIVE_KEYWORDS) eqn:Ep;
      destruct (existsb _ NEGATIVE_KEYWORDS) eqn:En; simpl;
      eexists; (split; [reflexivity|]);
      repeat split; intros H; try reflexivity; exfalso;
      repeat match goal with
             | H : _ /\ _ |- _ => destruct H
             | H : _ \/ _ |- _ => destruct H
             end;
      try (match goal with
           | Hn : ~ has _ |- _ => apply Hn; first [apply Hpos | apply Hneg]; reflexivity
           end);
      try (match goal with
           | Hh : has POSITIVE_KEYWORDS |- _ => apply Hpos in Hh; discriminate
           end);
      try (match goal with
           | Hh : has NEGATIVE_KEYWORDS |- _ => apply Hneg in Hh; discriminate
           end).
  - rewrite classify_without_key; [|exact Hk|vm_compute; lia].
    rewrite heuristics_returns. reflexivity.
  - rewrite classify_without_key; [|exact Hk|vm_compute; lia].
    rewrite heuristics_returns. reflexivity.
Qed.

Lemma heuristic_fallback_follows_keywords_witness :
  api_key Examples.no_key = "" /\
  3 <= len (strip "Terrible, I want a refund") /\
  fst (classify Examples.no_key Examples.post_times_out Examples.ascii_only
         "Terrible, I want a refund" [])
  = Returns NEGATIVE.
Proof.
  split; [reflexivity|]. split; [vm_compute; lia|].
  apply (heuristic_fallback_follows_keywords Examples.no_key
           Examples.post_times_out Examples.ascii_only
           "Terrible, I want a refund" []).
  - reflexivity.
  - vm_compute; lia.
Defined.

(** C6.  A text whose trimmed length is below 3 (the empty text included)
    is Neutral and nothing is recorded: no request is posted and the
    keywords are not consulted.  From trimmed length 3 on, the first thing
    the service does is post the request (credential set) or consult the
    keywords (no credential).  The length is the number of characters
    that [str.strip] leaves, white space being that of Unicode. *)
Theorem short_text_short_circuits
    (settings : LLMSettings) (post : request -> http_reply)
    (unicode : Unicode) (text : str) (l : list event) :
  (len (strip text) < 3 ->
   classify settings post unicode text l = (Returns NEUTRAL, l)) /\
  (3 <= len (strip text) ->
   exists res rest,
     classify settings post unicode text l
     = (res, (l ++ (if truthy (api_key settings)
                    then EvPost (request_for settings text)
                    else EvKeywords (lower unicode text)) :: rest)%list)).
Proof.
  split.
  - intros H. unfold classify. rewrite (short_text_is_short _ H). reflexivity.
  - intros H. unfold classify. rewrite (long_text_not_short _ H).
    destruct (truthy (api_key settings)).
    + unfold bind.
      pose proof (llm_logs_one_request settings post unicode text l) as Hl.
      destruct (_classify_with_llm settings post unicode text l) as [[o|e] l1];
        simpl in Hl; subst l1.
      * destruct o as [s|].
        -- eexists _, []. reflexivity.
        -- rewrite heuristics_returns. eexists _, [_].
           rewrite <- app_assoc. reflexivity.
      * eexists _, []. reflexivity.
    + unfold bind, ret. rewrite heuristics_returns. eexists _, []. reflexivity.
Qed.

Lemma short_text_short_circuits_witness :
  (len (strip Examples.padded_ok) < 3 /\
   classify Examples.with_key Examples.post_times_out Examples.ascii_only
     Examples.padded_ok []
   = (Returns NEUTRAL, [])) /\
  (3 <= len (strip " oky ") /\
   exists res rest,
     classify Examples.no_key Examples.post_times_out Examples.ascii_only " oky " []
     = (res, ([] ++ EvKeywords (lower Examples.ascii_only " oky ") :: rest)%list)).
Proof.
  split; (split; [vm_compute; lia|]).
  - apply (proj1 (short_text_short_circuits Examples.with_key
                    Examples.post_times_out Examples.ascii_only
                    Examples.padded_ok [])).
    vm_compute; lia.
  - apply (proj2 (short_text_short_circuits Examples.no_key
                    Examples.post_times_out Examples.ascii_only " oky " [])).
    vm_compute; lia.
Defined.

End SentimentFacts.

(** ** The browser session client *)

Module WhatsAppClientFacts.
Import PyStr WhatsAppClient.
Local Open Scope Z_scope.

(** *** Choosing the reply among the discovered messages *)

Lemma skipped_not_new B ig m t :
  skipped B ig m -> ~ new_reply B ig m t.
Proof.
  intros [H | [H | [text [Hx H]]]] (Hi & Hb & Ht & Hne & Hig).
  - congruence.
  - contradiction.
  - rewrite Hx in Ht. injection Ht as ->. destruct H as [H | [t0 [E H]]].
    + destruct t; [congruence | discriminate].
    + injection E as <-. congruence.
Qed.

Lemma pick_skips B ig m rest :
  skipped B ig m -> pick B ig (m :: rest) = pick B ig rest.
Proof.
  intros Hs. cbn [pick].
  destruct (is_incoming m) eqn:Ein; [|reflexivity]. cbn [negb].
  destruct (bool_decide (msg_id m ∈ B)) eqn:Eb; [reflexivity|].
  apply bool_decide_eq_false in Eb.
  destruct Hs as [H | [H | [text [Hx H]]]]; [congruence | contradiction |].
  rewrite Hx. destruct H as [H | [t0 [-> H]]].
  - rewrite H. reflexivity.
  - cbn [opt_truthy]. destruct (truthy t0); cbn [negb]; [|reflexivity].
    rewrite H. reflexivity.
Qed.

Lemma pick_takes B ig m rest t :
  new_reply B ig m t -> pick B ig (m :: rest) = Returns (Some t).
Proof.
  intros (Hi & Hb & Ht & Hne & Hig). cbn [pick]. rewrite Hi. cbn [negb].
  rewrite (bool_decide_eq_false_2 _ Hb), Ht. cbn [opt_truthy].
  destruct t as [|x t]; [contradiction|]. cbn [truthy negb]. rewrite Hig.
  reflexivity.
Qed.

Lemma pick_reply B ig newest_first t :
  pick B ig newest_first = Returns (Some t) <->
  exists newer m older,
    newest_first = (newer ++ m :: older)%list /\
    new_reply B ig m t /\
    Forall (skipped B ig) newer.
Proof.
  split.
  - induction newest_first as [|m rest IH]; simpl; [discriminate|].
    assert (Hrest : pick B ig rest = Returns (Some t) ->
                    skipped B ig m ->
                    exists newer m0 older,
                      m :: rest = (newer ++ m0 :: older)%list /\
                      new_reply B ig m0 t /\
                      Forall (skipped B ig) newer).
    { intros H Hm. destruct (IH H) as [newer [m0 [older [-> [Hq Hf]]]]].
      exists (m :: newer), m0, older. split; [reflexivity|]. split; [exact Hq|].
      constructor; assumption. }
    destruct (is_incoming m) eqn:Ein; simpl.
    2:{ intros H. apply Hrest; [exact H|]. left. exact Ein. }
    destruct (bool_decide (msg_id m ∈ B)) eqn:Eb.
    { intros H. apply Hrest; [exact H|]. right. left.
      apply bool_decide_eq_true in Eb. exact Eb. }
    apply bool_decide_eq_false in Eb.
    destruct (_extract_text_from_message (element m)) as [text|e] eqn:Et;
      [|discriminate].
    destruct text as [t0|]; simpl.
    2:{ intros H. apply Hrest; [exact H|]. right. right. exists None.
        split; [exact Et|]. left. reflexivity. }
    destruct (truthy t0) eqn:Etr; simpl.
    2:{ intros H. apply Hrest; [exact H|]. right. right. exists (Some t0).
        split; [exact Et|]. left. exact Etr. }
    destruct (ignored ig t0) eqn:Eig.
    { intros H. apply Hrest; [exact H|]. right. right. exists (Some t0).
      split; [exact Et|]. right. exists t0. split; [reflexivity | exact Eig]. }
    intros H. injection H as ->.
    exists [], m, rest. split; [reflexivity|]. split; [|constructor].
    repeat split; try assumption. intros ->. discriminate.
  - intros (newer & m & older & -> & Hq & Hf).
    induction Hf as [|m' newer Hm' Hf IH].
    + apply pick_takes. exact Hq.
    + cbn [app]. rewrite (pick_skips _ _ _ _ Hm'). exact IH.
Qed.

(** *** The clock *)

Section Clock.
Variable world : World.

Lemma adv_ret {A} (a : A) : advances (ret a).
Proof. intros c r c' H. injection H as _ <-. lia. Qed.

Lemma adv_raise {A} (e : exn) : advances (raise e : M Client A).
Proof. intros c r c' H. injection H as _ <-. lia. Qed.

Lemma adv_lift {A} (o : outcome A) : advances (lift o).
Proof. intros c r c' H. injection H as _ <-. lia. Qed.

Lemma adv_bind {A B} (m : M Client A) (k : A -> M Client B) :
  advances m -> (forall a, advances (k a)) -> advances (bind m k).
Proof.
  intros Hm Hk c r c' H. unfold bind in H.
  destruct (m c) as [[a|e] c1] eqn:E.
  - destruct (Hm _ _ _ E). destruct (Hk a _ _ _ H). lia.
  - injection H as _ <-. exact (Hm _ _ _ E).
Qed.

Lemma adv_try_except {A} (m : M Client A) (clauses : list (clause Client A)) :
  advances m ->
  (forall e h, dispatch clauses e = Some h -> advances h) ->
  advances (try_except m clauses).
Proof.
  intros Hm Hc c r c' H. unfold try_except in H.
  destruct (m c) as [[a|e] c1] eqn:E.
  - injection H as _ <-. exact (Hm _ _ _ E).
  - destruct (Hm _ _ _ E). destruct (dispatch clauses e) as [h|] eqn:D.
    + destruct (Hc _ _ D _ _ _ H). lia.
    + injection H as _ <-. lia.
Qed.

Lemma adv_observe : advances (observe world).
Proof. intros c r c' H. injection H as _ <-. simpl. lia. Qed.

Lemma adv_time_sleep d : advances (time_sleep world d).
Proof.
  unfold time_sleep. destruct (d <? 0) eqn:Ed; [apply adv_raise|].
  apply Z.ltb_ge in Ed.
  apply adv_bind; [apply adv_observe|]. intros p.
  destruct (sleep_interrupted p); [apply adv_raise|].
  intros c r c' H. injection H as _ <-. simpl. lia.
Qed.

Lemma adv_strategy_end r : advances (strategy_end r).
Proof.
  destruct r as [messages [e|]]; simpl.
  - destruct (is_Exception e); [apply adv_ret | apply adv_raise].
  - apply adv_ret.
Qed.

Lemma adv_get_message_elements : advances (_get_message_elements world).
Proof.
  unfold _get_message_elements.
  apply adv_bind; [apply adv_observe|]. intros p1.
  apply adv_bind; [apply adv_strategy_end|]. intros [result|]; [apply adv_ret|].
  apply adv_bind; [apply adv_observe|]. intros p2.
  apply adv_bind.
  { destruct (snd _); [apply adv_ret|].
    apply adv_bind; [apply adv_observe|]. intros p2'. apply adv_ret. }
  intros r2'.
  apply adv_bind; [apply adv_strategy_end|]. intros [result|]; [apply adv_ret|].
  apply adv_bind; [apply adv_observe|]. intros p3.
  apply adv_bind; [apply adv_strategy_end|]. intros [result|]; apply adv_ret.
Qed.

Lemma adv_capture_baseline : advances (capture_baseline world).
Proof.
  apply adv_try_except.
  - apply adv_bind; [apply adv_get_message_elements|]. intros; apply adv_ret.
  - intros e h. simpl. destruct (is_Exception e); intros H; inversion H.
    apply adv_ret.
Qed.

(** A sleep of non-negative length fails only by interruption, and takes
    at least its length when it returns. *)
Lemma time_sleep_raises d c e c' :
  0 <= d -> time_sleep world d c = (Raises e, c') -> cls e = KeyboardInterrupt.
Proof.
  intros Hd. unfold time_sleep. apply Z.ltb_ge in Hd. rewrite Hd.
  unfold bind, observe, raise.
  destruct (sleep_interrupted _); intros H; inversion H. reflexivity.
Qed.

Lemma time_sleep_returns d c c' :
  0 <= d -> time_sleep world d c = (Returns tt, c') ->
  now c + d <= now c' /\ (tick c <= tick c')%nat.
Proof.
  intros Hd. unfold time_sleep. pose proof Hd as Hd'. apply Z.ltb_ge in Hd'. rewrite Hd'.
  unfold bind, observe, raise.
  destruct (sleep_interrupted _); intros H; inversion H. simpl. lia.
Qed.

Lemma not_Exception_is_interrupt e :
  is_Exception e = false -> cls e = KeyboardInterrupt.
Proof. unfold is_Exception. destruct (cls e); congruence. Qed.

(** *** One poll *)

Lemma pick_newest B ig messages t :
  pick B ig (rev messages) = Returns (Some t) <->
  newest_new_reply B ig messages t.
Proof.
  rewrite pick_reply. split.
  - intros [newer [m [older [E [Hq Hf]]]]].
    exists (rev older), m, (rev newer). split; [|split].
    + rewrite <- (rev_involutive messages), E, rev_app_distr. simpl.
      rewrite <- app_assoc. reflexivity.
    + exact Hq.
    + apply Forall_rev. exact Hf.
  - intros [older [m [newer [-> [Hq Hf]]]]].
    exists (rev newer), m, (rev older). split; [|split].
    + rewrite rev_app_distr. simpl. rewrite <- app_assoc. reflexivity.
    + exact Hq.
    + apply Forall_rev. exact Hf.
Qed.

Lemma poll_once_spec poll B ig c r c' :
  0 < poll ->
  poll_once world poll B ig c = (r, c') ->
  (r = Returns None /\ now c + poll <= now c' /\ (tick c <= tick c')%nat) \/
  (exists t messages,
      r = Returns (Some t) /\
      _get_message_elements world c = (Returns messages, c') /\
      newest_new_reply B ig messages t) \/
  (exists e, r = Raises e /\ cls e = KeyboardInterrupt).
Proof.
  intros Hp. assert (Hp0 : 0 <= poll) by lia.
  unfold poll_once, try_except, bind at 1.
  pose proof (adv_get_message_elements c) as Hscan.
  destruct (_get_message_elements world c) as [[messages|e] c2] eqn:Es.
  - specialize (Hscan _ _ eq_refl). destruct Hscan as [Hn Ht].
    assert (Hsleep : forall r0 c0,
               (let (o, s') := bind (time_sleep world poll) (fun _ => ret None) c2 in
                match o with
                | Returns a => (Returns (a : option str), s')
                | Raises e =>
                    match dispatch [(is_Exception, fun _ : exn =>
                             bind (time_sleep world poll) (fun _ => ret None))] e with
                    | Some h => h s'
                    | None => (Raises e, s')
                    end
                end) = (r0, c0) ->
               (r0 = Returns None /\ now c + poll <= now c0 /\ (tick c <= tick c0)%nat) \/
               (exists e, r0 = Raises e /\ cls e = KeyboardInterrupt)).
    { intros r0 c0. unfold bind at 1.
      destruct (time_sleep world poll c2) as [[[]|e] c3] eqn:E1.
      - intros H. injection H as <- <-. left.
        destruct (time_sleep_returns _ _ _ Hp0 E1). split; [reflexivity|]. lia.
      - pose proof (time_sleep_raises _ _ _ _ Hp0 E1) as Hk.
        simpl. unfold is_Exception. rewrite Hk.
        intros H. injection H as <- <-. right. eauto. }
    destruct (negb (nonempty messages)); [intros H; destruct (Hsleep _ _ H); auto|].
    unfold bind at 1, lift.
    destruct (pick B ig (rev messages)) as [[t|]|e] eqn:Epick.
    + intros H. injection H as <- <-. right. left.
      exists t, messages. repeat split. apply pick_newest. exact Epick.
    + intros H. destruct (Hsleep _ _ H); auto.
    + simpl. destruct (is_Exception e) eqn:Ee.
      * unfold bind at 1.
        destruct (time_sleep world poll c2) as [[[]|e'] c3] eqn:E1.
        -- intros H. injection H as <- <-. left.
           destruct (time_sleep_returns _ _ _ Hp0 E1). split; [reflexivity|]. lia.
        -- intros H. injection H as <- <-. right. right.
           eexists. split; [reflexivity|]. eapply time_sleep_raises; eassumption.
      * intros H. injection H as <- <-. right. right.
        eexists. split; [reflexivity|]. apply not_Exception_is_interrupt. exact Ee.
  - specialize (Hscan _ _ eq_refl). destruct Hscan as [Hn Ht].
    simpl. destruct (is_Exception e) eqn:Ee.
    + unfold bind at 1.
      destruct (time_sleep world poll c2) as [[[]|e'] c3] eqn:E1.
      * intros H. injection H as <- <-. left.
        destruct (time_sleep_returns _ _ _ Hp0 E1). split; [reflexivity|]. lia.
      * intros H. injection H as <- <-. right. right.
        eexists. split; [reflexivity|]. eapply time_sleep_raises; eassumption.
    + intros H. injection H as <- <-. right. right.
      eexists. split; [reflexivity|]. apply not_Exception_is_interrupt. exact Ee.
Qed.


(** *** The polling loop *)

Lemma poll_loop_spec start timeout poll B ig fuel :
  0 < poll ->
  forall c r c',
    start <= now c ->
    (Z.to_nat (timeout - (now c - start)) < fuel)%nat ->
    poll_loop world fuel start timeout poll B ig c = (r, c') ->
    (r = Returns TimedOut /\ timeout <= now c' - start) \/
    (exists t c1 messages,
        r = Returns (Reply t) /\
        polled world start timeout poll B ig c c1 /\
        now c1 - start < timeout /\
        _get_message_elements world c1 = (Returns messages, c') /\
        newest_new_reply B ig messages t) \/
    (exists e, r = Raises e /\ cls e = KeyboardInterrupt).
Proof.
  intros Hp. induction fuel as [|fuel IH]; intros c r c' Hs Hf; [lia|].
  simpl. unfold bind at 1, time_time.
  destruct (now c - start <? timeout) eqn:Et.
  - apply Z.ltb_lt in Et. unfold bind at 1.
    destruct (poll_once world poll B ig c) as [ro c1] eqn:Eo.
    destruct (poll_once_spec _ _ _ _ _ _ Hp Eo)
      as [[-> [Hn Hk]] | [[t [messages [-> [Hscan Hnew]]]] | [e [-> He]]]].
    + intros H. apply IH in H; [|lia|lia].
      destruct H as [H | [[t [c3 [messages [Hr [Hk' [Hlt [Hscan Hnew]]]]]]] | H]]; auto.
      right. left. exists t, c3, messages. repeat split; try assumption.
      eapply PolledNext; eassumption.
    + intros H. injection H as <- <-. right. left.
      exists t, c, messages. repeat split; try assumption. constructor.
    + intros H. injection H as <- <-. right. right. eauto.
  - apply Z.ltb_ge in Et. intros H. injection H as <- <-. left. split; [reflexivity|lia].
Qed.





End Clock.



(** The loop of [wait_for_reply] never runs out of fuel when it is unrolled
    more than [timeout] times and the poll interval is positive. *)
Lemma wait_for_reply_enough_fuel world fuel timeout poll ig c r c' :
  0 < poll -> (Z.to_nat timeout < fuel)%nat ->
  wait_for_reply world fuel timeout poll ig c = (r, c') ->
  r <> Returns OutOfFuel.
Proof.
  intros Hp Hf. unfold wait_for_reply, bind at 1, time_time, bind at 1.
  destruct (capture_baseline world c) as [[B|e] cb] eqn:Eb.
  - destruct (adv_capture_baseline world _ _ _ Eb) as [Hn Hk].
    intros H.
    apply (poll_loop_spec world (now c) timeout poll B ig fuel Hp) in H; [|lia|lia].
    destruct H as [[-> _] | [[t [c1 [ms [-> _]]]] | [e [-> _]]]]; discriminate.
  - intros H. injection H as <- _. discriminate.
Qed.

End WhatsAppClientFacts.

(** ** The providers *)

Module ProviderFacts.
Import WhatsAppClient.

(** *** The browser-session provider *)

Section Selenium.
Variable world : World.

Lemma client_close_returns c :
  quit_not_interrupted world ->
  exists c', WhatsAppClient.close world c = (Returns tt, c').
Proof.
  intros Hq. unfold WhatsAppClient.close, try_except, bind, observe, lift.
  destruct (quit (pages world (tick c))) as [[]|e] eqn:E.
  - eauto.
  - simpl. rewrite (Hq _ _ E). unfold ret. eauto.
Qed.

Lemma provider_close_returns p :
  quit_not_interrupted world ->
  exists p1,
    SeleniumProvider.close world p = (Returns tt, p1) /\
    SeleniumProvider._client p1 = None /\
    SeleniumProvider.is_connected p1 = false.
Proof.
  intros Hq. unfold SeleniumProvider.close, bind at 1, get.
  destruct (SeleniumProvider._client p) as [c|] eqn:Ec.
  - destruct (client_close_returns c Hq) as [c' Hc].
    unfold bind at 1, try_except, SeleniumProvider.on_client. rewrite Hc.
    eexists. split; [reflexivity|]. split; reflexivity.
  - exists p. split; [reflexivity|]. split; [exact Ec|].
    unfold SeleniumProvider.is_connected. rewrite Ec. apply andb_false_r.
Qed.

Lemma provider_close_closed p :
  SeleniumProvider._client p = None ->
  SeleniumProvider.close world p = (Returns tt, p).
Proof.
  intros Ec. unfold SeleniumProvider.close, bind, get. rewrite Ec. reflexivity.
Qed.

(** The methods, with the monad unfolded. *)
Lemma connect_eq p :
  SeleniumProvider.connect world p =
  match new_client world (SeleniumProvider._headless p) with
  | Returns c => (Returns true, SeleniumProvider.set_client (Some c) p)
  | Raises e => if is_Exception e then (Returns false, p) else (Raises e, p)
  end.
Proof.
  unfold SeleniumProvider.connect, try_except, bind, get, lift, put, ret.
  destruct (new_client world (SeleniumProvider._headless p)) as [c|e]; simpl.
  - reflexivity.
  - destruct (is_Exception e); reflexivity.
Qed.

Lemma confirm_login_eq timeout p :
  SeleniumProvider.confirm_login world timeout p =
  match SeleniumProvider._client p with
  | None => (Returns false, p)
  | Some c =>
      match wait_for_login world timeout c with
      | (Returns b, c') =>
          (Returns b,
           SeleniumProvider.set_connected b (SeleniumProvider.set_client (Some c') p))
      | (Raises e, c') => (Raises e, SeleniumProvider.set_client (Some c') p)
      end
  end.
Proof.
  unfold SeleniumProvider.confirm_login, bind, get, put, ret,
    SeleniumProvider.on_client.
  destruct (SeleniumProvider._client p) as [c|]; [|reflexivity].
  destruct (wait_for_login world timeout c) as [[b|e] c']; reflexivity.
Qed.

Lemma send_message_eq phone text p :
  SeleniumProvider.send_message world phone text p =
  match SeleniumProvider._client p with
  | None => (Returns false, p)
  | Some c =>
      match open_chat world phone c with
      | (Returns true, c') =>
          let (r, c'') := WhatsAppClient.send_message world text c' in
          (r, SeleniumProvider.set_client (Some c'') p)
      | (Returns false, c') => (Returns false, SeleniumProvider.set_client (Some c') p)
      | (Raises e, c') => (Raises e, SeleniumProvider.set_client (Some c') p)
      end
  end.
Proof.
  unfold SeleniumProvider.send_message, bind, get, ret, SeleniumProvider.on_client.
  destruct (SeleniumProvider._client p) as [c|]; [|reflexivity].
  destruct (open_chat world phone c) as [[[]|e] c']; reflexivity.
Qed.

Lemma wait_for_reply_eq phone timeout p :
  SeleniumProvider.wait_for_reply world phone timeout p =
  match SeleniumProvider._client p with
  | None => (Returns None, p)
  | Some c =>
      match WhatsAppClient.wait_for_reply world (S (Z.to_nat timeout)) timeout 3 None c with
      | (Returns (Reply text), c') =>
          (Returns (Some text), SeleniumProvider.set_client (Some c') p)
      | (Returns _, c') => (Returns None, SeleniumProvider.set_client (Some c') p)
      | (Raises e, c') => (Raises e, SeleniumProvider.set_client (Some c') p)
      end
  end.
Proof.
  unfold SeleniumProvider.wait_for_reply, bind, get, ret, SeleniumProvider.on_client.
  destruct (SeleniumProvider._client p) as [c|]; [|reflexivity].
  destruct (WhatsAppClient.wait_for_reply world _ timeout 3 None c)
    as [[[t| |]|e] c']; reflexivity.
Qed.

Lemma read_latest_incoming_eq p :
  SeleniumProvider.read_latest_incoming world p =
  match SeleniumProvider._client p with
  | None => (Returns None, p)
  | Some c =>
      let (r, c') := read_latest_incoming_message world c in
      (r, SeleniumProvider.set_client (Some c') p)
  end.
Proof.
  unfold SeleniumProvider.read_latest_incoming, bind, get, ret,
    SeleniumProvider.on_client.
  destruct (SeleniumProvider._client p) as [c|]; reflexivity.
Qed.

Lemma close_eq p :
  SeleniumProvider.close world p =
  match SeleniumProvider._client p with
  | None => (Returns tt, p)
  | Some c =>
      match WhatsAppClient.close world c with
      | (Returns _, c') =>
          (Returns tt,
           SeleniumProvider.set_connected false (SeleniumProvider.set_client None p))
      | (Raises e, c') =>
          if is_Exception e
          then (Returns tt,
                SeleniumProvider.set_connected false (SeleniumProvider.set_client None p))
          else (Raises e, SeleniumProvider.set_client (Some c') p)
      end
  end.
Proof.
  unfold SeleniumProvider.close, bind, get, put, ret, try_except,
    SeleniumProvider.on_client.
  destruct (SeleniumProvider._client p) as [c|]; [|reflexivity].
  destruct (WhatsAppClient.close world c) as [[[]|e] c']; simpl; [reflexivity|].
  destruct (is_Exception e); reflexivity.
Qed.

(** What a call leaves of the flag [_connected]. *)
Lemma perform_connected k p :
  quit_not_interrupted world ->
  match k with
  | SeleniumProvider.ConfirmLogin timeout =>
      SeleniumProvider._connected (snd (SeleniumProvider.perform world k p))
      = SeleniumProvider._connected p \/
      (fst (SeleniumProvider.perform world k p) = SeleniumProvider.GaveBool true /\
       SeleniumProvider._connected (snd (SeleniumProvider.perform world k p)) = true) \/
      SeleniumProvider._connected (snd (SeleniumProvider.perform world k p)) = false
  | SeleniumProvider.Close =>
      SeleniumProvider.is_connected (snd (SeleniumProvider.perform world k p)) = false
  | _ =>
      SeleniumProvider._connected (snd (SeleniumProvider.perform world k p))
      = SeleniumProvider._connected p
  end.
Proof.
  intros Hq. destruct k; unfold SeleniumProvider.perform.
  - rewrite connect_eq.
    destruct (new_client world (SeleniumProvider._headless p)) as [c|e]; simpl.
    + reflexivity.
    + destruct (is_Exception e); reflexivity.
  - rewrite confirm_login_eq.
    destruct (SeleniumProvider._client p) as [c|]; [|left; reflexivity].
    destruct (wait_for_login world timeout c) as [[[]|e] c']; simpl; auto.
  - rewrite send_message_eq.
    destruct (SeleniumProvider._client p) as [c|]; [|reflexivity].
    destruct (open_chat world phone c) as [[[]|e] c']; simpl; try reflexivity.
    destruct (WhatsAppClient.send_message world text c') as [[b|e] c'']; reflexivity.
  - rewrite wait_for_reply_eq.
    destruct (SeleniumProvider._client p) as [c|]; [|reflexivity].
    destruct (WhatsAppClient.wait_for_reply world _ timeout 3 None c)
      as [[[t| |]|e] c']; reflexivity.
  - rewrite read_latest_incoming_eq.
    destruct (SeleniumProvider._client p) as [c|]; [|reflexivity].
    destruct (read_latest_incoming_message world c) as [[t|e] c']; reflexivity.
  - destruct (provider_close_returns p Hq) as [p1 [-> [_ H]]]. exact H.
Qed.

Lemma perform_keeps_flag_needs_client k p :
  SeleniumProvider.flag_needs_client p ->
  SeleniumProvider.flag_needs_client (snd (SeleniumProvider.perform world k p)).
Proof.
  unfold SeleniumProvider.flag_needs_client. intros Hinv.
  destruct k; unfold SeleniumProvider.perform.
  - rewrite connect_eq.
    destruct (new_client world (SeleniumProvider._headless p)) as [c|e]; simpl.
    + intros _. discriminate.
    + destruct (is_Exception e); exact Hinv.
  - rewrite confirm_login_eq.
    destruct (SeleniumProvider._client p) as [c|] eqn:Ec;
      [|simpl; rewrite Ec; exact Hinv].
    destruct (wait_for_login world timeout c) as [[[]|e] c']; simpl;
      intros _; discriminate.
  - rewrite send_message_eq.
    destruct (SeleniumProvider._client p) as [c|] eqn:Ec;
      [|simpl; rewrite Ec; exact Hinv].
    destruct (open_chat world phone c) as [[[]|e] c']; simpl;
      try (intros _; discriminate).
    destruct (WhatsAppClient.send_message world text c') as [[b|e] c''];
      simpl; intros _; discriminate.
  - rewrite wait_for_reply_eq.
    destruct (SeleniumProvider._client p) as [c|] eqn:Ec;
      [|simpl; rewrite Ec; exact Hinv].
    destruct (WhatsAppClient.wait_for_reply world _ timeout 3 None c)
      as [[[t| |]|e] c']; simpl; intros _; discriminate.
  - rewrite read_latest_incoming_eq.
    destruct (SeleniumProvider._client p) as [c|] eqn:Ec;
      [|simpl; rewrite Ec; exact Hinv].
    destruct (read_latest_incoming_message world c) as [[t|e] c']; simpl;
      intros _; discriminate.
  - rewrite close_eq.
    destruct (SeleniumProvider._client p) as [c|] eqn:Ec;
      [|simpl; rewrite Ec; exact Hinv].
    destruct (WhatsAppClient.close world c) as [[[]|e] c']; simpl.
    + discriminate.
    + destruct (is_Exception e); simpl; [discriminate|]. intros _. discriminate.
Qed.

Lemma session_snoc calls k p :
  SeleniumProvider.session world (calls ++ [k]) p
  = snd (SeleniumProvider.perform world k (SeleniumProvider.session world calls p)).
Proof. unfold SeleniumProvider.session. rewrite fold_left_app. reflexivity. Qed.

Lemma session_keeps_flag_needs_client calls p :
  SeleniumProvider.flag_needs_client p ->
  SeleniumProvider.flag_needs_client (SeleniumProvider.session world calls p).
Proof.
  intros Hp. induction calls as [|k calls IH] using rev_ind; [exact Hp|].
  rewrite session_snoc. apply perform_keeps_flag_needs_client. exact IH.
Qed.

(** The flag is set only by a login that was confirmed and not followed by
    a [close]. *)
Lemma connected_flag_history calls headless :
  quit_not_interrupted world ->
  SeleniumProvider._connected
    (SeleniumProvider.session world calls (SeleniumProvider.new headless)) = true ->
  exists before timeout after,
    calls = (before ++ SeleniumProvider.ConfirmLogin timeout :: after)%list /\
    fst (SeleniumProvider.perform world (SeleniumProvider.ConfirmLogin timeout)
           (SeleniumProvider.session world before (SeleniumProvider.new headless)))
    = SeleniumProvider.GaveBool true /\
    ~ In SeleniumProvider.Close after.
Proof.
  intros Hq. induction calls as [|k calls IH] using rev_ind; [discriminate|].
  rewrite session_snoc.
  set (p := SeleniumProvider.session world calls (SeleniumProvider.new headless)) in *.
  assert (Hinv : SeleniumProvider.flag_needs_client p).
  { apply session_keeps_flag_needs_client. intros H. discriminate. }
  assert (Hext : forall k0, k0 <> SeleniumProvider.Close ->
            SeleniumProvider._connected p = true ->
            exists before timeout after,
              (calls ++ [k0])%list
              = (before ++ SeleniumProvider.ConfirmLogin timeout :: after)%list /\
              fst (SeleniumProvider.perform world (SeleniumProvider.ConfirmLogin timeout)
                     (SeleniumProvider.session world before (SeleniumProvider.new headless)))
              = SeleniumProvider.GaveBool true /\
              ~ In SeleniumProvider.Close after).
  { intros k0 Hk0 Hc. destruct (IH Hc) as [before [timeout [after [-> [Hr Hn]]]]].
    exists before, timeout, (after ++ [k0])%list. split; [|split].
    - rewrite <- app_assoc. reflexivity.
    - exact Hr.
    - intros Hin. apply in_app_or in Hin. destruct Hin as [Hin | [Hin | []]].
      + exact (Hn Hin).
      + exact (Hk0 Hin). }
  pose proof (perform_connected k p Hq) as Hk. simpl in Hk.
  destruct k; try (rewrite Hk; apply Hext; discriminate).
  - destruct Hk as [Hk | [[Hr Hk] | Hk]].
    + rewrite Hk. apply Hext. discriminate.
    + intros _. exists calls, timeout, []. split; [reflexivity|]. split; [exact Hr|].
      intros [].
    + rewrite Hk. discriminate.
  - intros Hc. exfalso. unfold SeleniumProvider.is_connected in Hk.
    rewrite Hc in Hk. simpl in Hk.
    apply (perform_keeps_flag_needs_client SeleniumProvider.Close p Hinv) in Hc.
    destruct (SeleniumProvider._client _); [discriminate | contradiction].
Qed.

End Selenium.

(** C9.  Provided the operator does not interrupt the browser while it
    quits, [close] on the browser-session provider returns without error in
    any state, leaves [is_connected] false, and a second [close] returns
    without error and changes nothing; the client's own [close] returns
    without error however often it is called. *)
Theorem close_is_idempotent
    (world : World) (p : SeleniumProvider.provider) :
  quit_not_interrupted world ->
  (exists p1,
      SeleniumProvider.close world p = (Returns tt, p1) /\
      SeleniumProvider.is_connected p1 = false /\
      SeleniumProvider.close world p1 = (Returns tt, p1)) /\
  (forall c, exists c1 c2,
      WhatsAppClient.close world c = (Returns tt, c1) /\
      WhatsAppClient.close world c1 = (Returns tt, c2)).
Proof.
  intros Hq. split.
  - destruct (provider_close_returns world p Hq) as [p1 [H1 [Hc Hn]]].
    exists p1. split; [exact H1|]. split; [exact Hn|].
    apply provider_close_closed. exact Hc.
  - intros c. destruct (client_close_returns world c Hq) as [c1 H1].
    destruct (client_close_returns world c1 Hq) as [c2 H2].
    exists c1, c2. split; assumption.
Qed.

Lemma example_quit_not_interrupted history k :
  quit_not_interrupted (Examples.reply_world history k).
Proof. intros n e H. discriminate. Qed.

Lemma close_is_idempotent_witness :
  quit_not_interrupted (Examples.reply_world [] 0) /\
  exists p1,
    SeleniumProvider.close (Examples.reply_world [] 0)
      {| SeleniumProvider._headless := false;
         SeleniumProvider._client := Some {| tick := 7; now := 12 |};
         SeleniumProvider._connected := true |} = (Returns tt, p1) /\
    SeleniumProvider.is_connected p1 = false /\
    SeleniumProvider.close (Examples.reply_world [] 0) p1 = (Returns tt, p1).
Proof.
  split; [apply example_quit_not_interrupted|].
  apply (proj1 (close_is_idempotent (Examples.reply_world [] 0)
                  {| SeleniumProvider._headless := false;
                     SeleniumProvider._client := Some {| tick := 7; now := 12 |};
                     SeleniumProvider._connected := true |}
                  (example_quit_not_interrupted [] 0))).
Defined.

(** C10.  On the browser-session provider, a [connect] that returns true
    leaves [is_connected] false, although from then on [send_message] and
    [wait_for_reply] pass their guard and do what the client does.  Over
    any sequence of calls on a new provider (the operator not interrupting
    the browser while it quits), [is_connected] is true only if a
    [confirm_login] of the sequence returned true and no [close] was called
    after it.  In the healthy example session, [send_message] succeeds
    right after [connect] while [is_connected] is still false. *)
Theorem is_connected_needs_confirmed_login (world : World) (headless : bool) :
  quit_not_interrupted world ->
  (forall p1,
      SeleniumProvider.connect world (SeleniumProvider.new headless)
      = (Returns true, p1) ->
      SeleniumProvider.is_connected p1 = false /\
      exists c,
        SeleniumProvider._client p1 = Some c /\
        (forall phone text,
            fst (SeleniumProvider.send_message world phone text p1)
            = fst (bind (open_chat world phone)
                     (fun opened =>
                        if negb opened then ret false
                        else WhatsAppClient.send_message world text) c)) /\
        (forall phone timeout,
            fst (SeleniumProvider.wait_for_reply world phone timeout p1)
            = match fst (WhatsAppClient.wait_for_reply world
                           (S (Z.to_nat timeout)) timeout 3 None c) with
              | Returns (Reply text) => Returns (Some text)
              | Returns _ => Returns None
              | Raises e => Raises e
              end)) /\
  (forall calls,
      SeleniumProvider.is_connected
        (SeleniumProvider.session world calls (SeleniumProvider.new headless))
      = true ->
      exists before timeout after,
        calls = (before ++ SeleniumProvider.ConfirmLogin timeout :: after)%list /\
        fst (SeleniumProvider.perform world (SeleniumProvider.ConfirmLogin timeout)
               (SeleniumProvider.session world before
                  (SeleniumProvider.new headless)))
        = SeleniumProvider.GaveBool true /\
        ~ In SeleniumProvider.Close after) /\
  (exists p1,
      SeleniumProvider.connect (Examples.reply_world [] 0)
        (SeleniumProvider.new false) = (Returns true, p1) /\
      SeleniumProvider.is_connected p1 = false /\
      fst (SeleniumProvider.send_message (Examples.reply_world [] 0)
             "923001234567" "Hello!" p1) = Returns true).
Proof.
  intros Hq. split; [|split].
  - intros p1. rewrite connect_eq. simpl.
    destruct (new_client world headless) as [c|e] eqn:En.
    2:{ destruct (is_Exception e); discriminate. }
    intros H. injection H as <-. split; [reflexivity|].
    exists c. split; [reflexivity|]. split.
    + intros phone text. rewrite send_message_eq. simpl. unfold bind.
      destruct (open_chat world phone c) as [[[]|e] c']; simpl; try reflexivity.
      destruct (WhatsAppClient.send_message world text c'); reflexivity.
    + intros phone timeout. rewrite wait_for_reply_eq. simpl.
      destruct (WhatsAppClient.wait_for_reply world _ timeout 3 None c)
        as [[[t| |]|e] c']; reflexivity.
  - intros calls H. apply (connected_flag_history world calls headless Hq).
    unfold SeleniumProvider.is_connected in H.
    apply andb_true_iff in H. exact (proj1 H).
  - eexists. split; [vm_compute; reflexivity|]. split; vm_compute; reflexivity.
Qed.

Lemma is_connected_needs_confirmed_login_witness :
  quit_not_interrupted (Examples.reply_world [] 0) /\
  (SeleniumProvider.is_connected
     (SeleniumProvider.session (Examples.reply_world [] 0)
        [SeleniumProvider.Connect; SeleniumProvider.ConfirmLogin 30;
         SeleniumProvider.SendMessage "923001234567" "Hello!"]
        (SeleniumProvider.new false)) = true) /\
  exists before timeout after,
    [SeleniumProvider.Connect; SeleniumProvider.ConfirmLogin 30;
     SeleniumProvider.SendMessage "923001234567" "Hello!"]
    = (before ++ SeleniumProvider.ConfirmLogin timeout :: after)%list /\
    fst (SeleniumProvider.perform (Examples.reply_world [] 0)
           (SeleniumProvider.ConfirmLogin timeout)
           (SeleniumProvider.session (Examples.reply_world [] 0) before
              (SeleniumProvider.new false)))
    = SeleniumProvider.GaveBool true /\
    ~ In SeleniumProvider.Close after.
Proof.
  split; [apply example_quit_not_interrupted|].
  split; [vm_compute; reflexivity|].
  apply (proj1 (proj2 (is_connected_needs_confirmed_login
                         (Examples.reply_world [] 0) false
                         (example_quit_not_interrupted [] 0)))).
  vm_compute; reflexivity.
Defined.

(** *** The cloud-API provider *)

(** C7 (counterexample).  On a connected cloud-API provider, [send_message]
    and [wait_for_reply] do not raise: the first returns false and the
    second returns none. *)
Lemma api_stub_does_not_fail_loudly :
  ~ (forall (p : APIProvider.provider) (phone text : str) (timeout : Z),
        (exists e, fst (APIProvider.send_message phone text p) = Raises e) /\
        (exists e, fst (APIProvider.wait_for_reply phone timeout p) = Raises e)).
Proof.
  intros H.
  destruct (H (APIProvider.set_connected true
                 (APIProvider.new "EAAxxxxxxx" "1234567890" ""))
              "923001234567" "Hello!" 180%Z) as [[e He] _].
  vm_compute in He. discriminate.
Qed.

(** C7 (amended).  Whatever its state and its arguments, the cloud-API
    provider's [send_message] returns false and its [wait_for_reply] returns
    none; neither raises and neither changes the provider.  The same holds
    when they are called through the provider interface. *)
Theorem api_stub_returns_negative_results
    (p : APIProvider.provider) (phone text : str) (timeout : Z) :
  APIProvider.send_message phone text p = (Returns false, p) /\
  APIProvider.wait_for_reply phone timeout p = (Returns None, p) /\
  @Interface.send_message _ APIProvider.api_provider phone text p
  = (Returns false, p) /\
  @Interface.wait_for_reply _ APIProvider.api_provider phone timeout p
  = (Returns None, p).
Proof.
  assert (H : APIProvider.send_message phone text p = (Returns false, p)).
  { unfold APIProvider.send_message, bind, get, ret.
    destruct (negb (APIProvider._connected p)); reflexivity. }
  repeat split; try exact H; reflexivity.
Qed.

End ProviderFacts.

(** ** Phone normalisation *)

Module ExcelParserFacts.
Import PyStr ExcelParser.

Lemma all_filter_str (p : char -> bool) (s : str) :
  all_str p (filter_str p s) = true.
Proof.
  induction s as [|c r IH]; simpl; [reflexivity|].
  destruct (p c) eqn:E; simpl; [rewrite E|]; exact IH.
Qed.

Lemma all_drop_str (p : char -> bool) (n : nat) (s : str) :
  all_str p s = true -> all_str p (drop_str n s) = true.
Proof.
  revert s. induction n as [|n IH]; intros s H; [exact H|].
  destruct s as [|c r]; simpl; [reflexivity|].
  simpl in H. apply andb_true_iff in H. apply IH. exact (proj2 H).
Qed.

(** What the code does guarantee: only digits and ['+'] are left. *)
Lemma clean_phone_digits_or_plus unicode (phone : str) :
  all_str (digit_or_plus unicode) (_clean_phone unicode phone) = true.
Proof.
  unfold _clean_phone.
  destruct (negb (truthy phone) || PyStr.eqb (lower unicode phone) "nan");
    [reflexivity|].
  pose proof (all_filter_str (digit_or_plus unicode) (strip phone)) as H.
  change (filter_str (digit_or_plus unicode) (strip phone))
    with (keep_digits_plus unicode (strip phone)) in H.
  set (k := keep_digits_plus unicode (strip phone)) in *.
  assert (H1 : all_str (digit_or_plus unicode)
                 (if startswith "+" k then drop_str 1 k else k) = true).
  { destruct (startswith "+" k); [apply all_drop_str|]; exact H. }
  destruct (startswith "00" _); [apply all_drop_str|]; exact H1.
Qed.

(** C4 (evaluation at the failing input).  The two examples of the
    specification normalise as stated, but a ['+'] that is not in front
    survives normalisation: ["+92+300"] becomes ["92+300"], which does not
    consist of digits only. *)
Theorem clean_phone_keeps_interior_plus (unicode : Unicode) :
  _clean_phone unicode "+92 300-1234567" = "923001234567" /\
  _clean_phone unicode "0092-300" = "92300" /\
  _clean_phone unicode "+92+300" = "92+300" /\
  all_str (isdigit unicode) (_clean_phone unicode "+92+300") = false.
Proof. repeat split; vm_compute; reflexivity. Qed.

End ExcelParserFacts.

(** ** The customers table *)

Module DatabaseFacts.
Import PyStr Database.

Lemma outcome_fields_only_refl c : outcome_fields_only c c.
Proof. unfold outcome_fields_only. repeat split; auto. Qed.

Lemma outcome_fields_only_trans a b c :
  outcome_fields_only a b -> outcome_fields_only b c -> outcome_fields_only a c.
Proof.
  unfold outcome_fields_only.
  intros (H1 & H2 & H3 & H4 & H5 & H6 & H7) (G1 & G2 & G3 & G4 & G5 & G6 & G7).
  repeat split; try congruence.
  destruct G7 as [G7|G7]; [|right; exact G7].
  destruct H7 as [H7|H7]; [left|right]; congruence.
Qed.

Lemma kept_refl ids c : kept_by_campaign ids c c.
Proof. split; [apply outcome_fields_only_refl | reflexivity]. Qed.

Lemma kept_trans ids a b c :
  kept_by_campaign ids a b -> kept_by_campaign ids b c -> kept_by_campaign ids a c.
Proof.
  intros [H1 H2] [G1 G2]. split.
  - eapply outcome_fields_only_trans; eassumption.
  - intros Hn. specialize (H2 Hn). subst b. exact (G2 Hn).
Qed.

Lemma kept_table_refl ids (t : table) : Forall2 (kept_by_campaign ids) t t.
Proof. induction t; constructor; [apply kept_refl | assumption]. Qed.

Lemma kept_table_trans ids (t1 t2 t3 : table) :
  Forall2 (kept_by_campaign ids) t1 t2 ->
  Forall2 (kept_by_campaign ids) t2 t3 ->
  Forall2 (kept_by_campaign ids) t1 t3.
Proof.
  intros H. revert t3. induction H as [|a b t1 t2 Hab H IH]; intros t3 G.
  - inversion G. constructor.
  - inversion G as [|b' c t2' t3' Hbc G']; subst.
    constructor; [eapply kept_trans; eassumption | apply IH; assumption].
Qed.

Lemma assign_outcome_fields_only a c :
  harmless a -> outcome_fields_only c (assign a c).
Proof.
  unfold harmless, outcome_fields_only. intros Ha.
  destruct a as [v|v|v|v]; simpl; repeat split; auto.
  destruct v; [right; reflexivity | congruence].
Qed.

Lemma assignments_outcome_fields_only updates c :
  Forall harmless updates ->
  outcome_fields_only c (fold_left (fun c a => assign a c) updates c).
Proof.
  intros H. revert c. induction H as [|a updates Ha H IH]; intros c; simpl.
  - apply outcome_fields_only_refl.
  - eapply outcome_fields_only_trans; [|apply IH].
    apply assign_outcome_fields_only. exact Ha.
Qed.

Lemma update_customer_kept ids customer_id updates (t : table) :
  In customer_id ids -> Forall harmless updates ->
  Forall2 (kept_by_campaign ids) t (update_customer customer_id updates t).
Proof.
  intros Hin Hu. unfold update_customer.
  destruct updates as [|a updates]; [apply kept_table_refl|].
  induction t as [|c t IH]; simpl; constructor; [|exact IH].
  destruct (id c =? customer_id)%Z eqn:E; [|apply kept_refl].
  apply Z.eqb_eq in E. split.
  - apply (assignments_outcome_fields_only (a :: updates)). exact Hu.
  - intros Hn. rewrite E in Hn. contradiction.
Qed.

Lemma mark_done_kept ids customer_id sentiment last_message t :
  In customer_id ids ->
  Forall2 (kept_by_campaign ids) t (mark_done customer_id sentiment last_message t).
Proof.
  intros H. apply update_customer_kept; [exact H|].
  repeat constructor; unfold harmless; discriminate.
Qed.

Lemma mark_no_reply_kept ids customer_id t :
  In customer_id ids ->
  Forall2 (kept_by_campaign ids) t (mark_no_reply customer_id t).
Proof.
  intros H. apply update_customer_kept; [exact H|].
  repeat constructor; unfold harmless; discriminate.
Qed.

Lemma mark_error_kept ids customer_id error t :
  In customer_id ids ->
  Forall2 (kept_by_campaign ids) t (mark_error customer_id error t).
Proof.
  intros H. apply update_customer_kept; [exact H|].
  repeat constructor; unfold harmless; discriminate.
Qed.

(** [mark_error] leaves the rows of the other customers alone. *)
Lemma mark_error_others customer_id error (t : table) :
  Forall2 (fun row row' => id row <> customer_id -> row' = row)
    t (mark_error customer_id error t).
Proof.
  unfold mark_error, update_customer.
  induction t as [|c t IH]; simpl; constructor; [|exact IH].
  destruct (id c =? customer_id)%Z eqn:E; [|reflexivity].
  apply Z.eqb_eq in E. intros Hn. contradiction.
Qed.

End DatabaseFacts.

(** ** The campaign *)

Module CampaignFacts.
Import PyStr Database Campaign DatabaseFacts.

(** *** What a run leaves of the table *)

Section Frames.
Variable ids : list Z.

Lemma fr_ret {A} (a : A) : frames ids (ret a).
Proof. intros s r s' H. injection H as _ <-. apply kept_table_refl. Qed.

Lemma fr_raise {A} (e : exn) : frames ids (raise e : M Run A).
Proof. intros s r s' H. injection H as _ <-. apply kept_table_refl. Qed.

Lemma fr_lift {A} (o : outcome A) : frames ids (lift o).
Proof. intros s r s' H. injection H as _ <-. apply kept_table_refl. Qed.

Lemma fr_bind {A B} (m : M Run A) (k : A -> M Run B) :
  frames ids m -> (forall a, frames ids (k a)) -> frames ids (bind m k).
Proof.
  intros Hm Hk s r s' H. unfold bind in H.
  destruct (m s) as [[a|e] s1] eqn:E.
  - eapply kept_table_trans; [eapply Hm; eassumption | eapply Hk; eassumption].
  - injection H as _ <-. eapply Hm; eassumption.
Qed.

Lemma fr_try_except {A} (m : M Run A) (clauses : list (clause Run A)) :
  frames ids m ->
  (forall e h, dispatch clauses e = Some h -> frames ids h) ->
  frames ids (try_except m clauses).
Proof.
  intros Hm Hc s r s' H. unfold try_except in H.
  destruct (m s) as [[a|e] s1] eqn:E.
  - injection H as _ <-. eapply Hm; eassumption.
  - destruct (dispatch clauses e) as [h|] eqn:D.
    + eapply kept_table_trans; [eapply Hm; eassumption | eapply Hc; eassumption].
    + injection H as _ <-. eapply Hm; eassumption.
Qed.

(** The provider does not touch the database. *)
Lemma fr_on_provider {A} (m : M SeleniumProvider.provider A) :
  frames ids (on_provider m).
Proof.
  intros s r s' H. unfold on_provider in H.
  destruct (m (provider s)) as [r0 p]. injection H as _ <-. apply kept_table_refl.
Qed.

Lemma fr_on_db (f : table -> table) :
  (forall t, Forall2 (kept_by_campaign ids) t (f t)) -> frames ids (on_db f).
Proof. intros Hf s r s' H. injection H as _ <-. apply Hf. Qed.

End Frames.

Ltac frame_step :=
  first
    [ apply fr_ret
    | apply fr_raise
    | apply fr_lift
    | apply fr_on_provider
    | apply fr_on_db; intros ?;
      first [ apply mark_done_kept | apply mark_no_reply_kept | apply mark_error_kept ];
      assumption
    | apply fr_bind; [|intros ?]
    | match goal with
      | |- frames _ (if ?b then _ else _) => destruct b
      | |- frames _ (match ?x with _ => _ end) => destruct x
      end ].

Section Run.
Variable env : Env.

Lemma fr_process_customer ids pending customer :
  In (id customer) ids -> frames ids (process_customer env pending customer).
Proof.
  intros Hin. unfold process_customer, send, classify, random_delay.
  repeat frame_step.
Qed.

Lemma fr_guarded_step ids pending customer :
  In (id customer) ids -> frames ids (guarded_step env pending customer).
Proof.
  intros Hin. unfold guarded_step. apply fr_try_except.
  - apply fr_bind; [apply fr_process_customer; exact Hin | intros; apply fr_ret].
  - intros e h. simpl.
    destruct (is_class KeyboardInterrupt e); [intros H; injection H as <-; apply fr_ret|].
    destruct (is_Exception e); [|discriminate].
    intros H. injection H as <-. repeat frame_step.
Qed.

Lemma fr_campaign_loop ids pending todo :
  (forall c, In c todo -> In (id c) ids) ->
  frames ids (campaign_loop env pending todo).
Proof.
  induction todo as [|customer rest IH]; intros Hids; simpl.
  - apply fr_ret.
  - apply fr_bind.
    + apply fr_guarded_step. apply Hids. left. reflexivity.
    + intros [|]; [|apply fr_ret]. apply IH. intros c Hc. apply Hids. right. exact Hc.
Qed.

Lemma fr_campaign_with ids pending :
  (forall c, In c pending -> In (id c) ids) ->
  frames ids (campaign_with env pending).
Proof.
  intros Hids. unfold campaign_with.
  destruct (negb (WhatsAppClient.nonempty pending)); [apply fr_ret|].
  apply fr_bind; [apply fr_on_provider|]. intros launched.
  destruct (negb launched); [apply fr_ret|].
  destruct (negb (operator_ready env)); [apply fr_on_provider|].
  apply fr_bind; [apply fr_on_provider|]. intros ready.
  destruct (negb ready); [apply fr_on_provider|].
  apply fr_bind; [apply fr_campaign_loop; exact Hids|].
  intros _. apply fr_on_provider.
Qed.

End Run.

(** C8 (counterexample).  A customer without a review who answers ends the
    run with [has_review] set: the field does not stay as it was. *)
Lemma campaign_sets_has_review :
  ~ (forall (env : Env) (t : table),
        Forall2 (fun c c' =>
                   id c' = id c /\ user_id c' = user_id c /\ name c' = name c /\
                   phone c' = phone c /\ product c' = product c /\
                   has_review c' = has_review c /\ created_at c' = created_at c)
          t (db (snd (run_campaign env t)))).
Proof.
  intros H.
  specialize (H (Examples.env_of (Examples.reply_world [] 60)) [Examples.ayesha]).
  vm_compute in H. inversion H as [|c c' t t' Hrow _]; subst.
  destruct Hrow as (_ & _ & _ & _ & _ & Hr & _). discriminate.
Qed.

(** C8 (amended).  A run changes nothing in the table but fields of the
    customers that were pending when it started, and of those only
    [status], [sentiment], [last_message] and [has_review], the last one
    only from false to true ([mark_done] sets it); [id], [user_id], [name],
    [phone], [product] and [created_at] stay as they were, and the table
    keeps all its rows, in their order. *)
Theorem campaign_changes_only_outcome_fields (env : Env) (t : table) :
  Forall2 (kept_by_campaign (map id (get_pending_customers None t)))
    t (db (snd (run_campaign env t))) /\
  length (db (snd (run_campaign env t))) = length t.
Proof.
  assert (H : Forall2 (kept_by_campaign (map id (get_pending_customers None t)))
                t (db (snd (run_campaign env t)))).
  { unfold run_campaign, campaign, bind, get. simpl.
    destruct (campaign_with env (get_pending_customers None t)
                {| provider := SeleniumProvider.new false; db := t |})
      as [r s'] eqn:E.
    apply (fr_campaign_with env _ _ (fun c Hc => in_map id _ c Hc)) in E.
    exact E. }
  split; [exact H|]. symmetry. eapply Forall2_length. exact H.
Qed.

(** *** A block indicator during [open_chat] *)

Lemma open_chat_blocked world phone c :
  fst (WhatsAppClient._check_for_blocks world c) = Returns true ->
  WhatsAppClient.open_chat world phone c
  = (Raises (mkExn WhatsAppBlockedError WhatsAppClient.blocked_message),
     snd (WhatsAppClient._check_for_blocks world c)).
Proof.
  intros H. unfold WhatsAppClient.open_chat, bind at 1.
  destruct (WhatsAppClient._check_for_blocks world c) as [r c'].
  simpl in H. subst r. reflexivity.
Qed.

Lemma guarded_step_absorbs env pending customer s e s1 :
  process_customer env pending customer s = (Raises e, s1) ->
  is_Exception e = true ->
  guarded_step env pending customer s
  = (Returns Next,
     {| provider := provider s1;
        db := mark_error (id customer) (take_str 100 (message e)) (db s1) |}).
Proof.
  intros Hp He. unfold guarded_step, try_except, bind at 1. rewrite Hp. simpl.
  assert (Hk : is_class KeyboardInterrupt e = false).
  { unfold is_class. apply bool_decide_eq_false. intros Hc.
    unfold is_Exception in He. rewrite Hc in He. discriminate. }
  rewrite Hk, He. reflexivity.
Qed.

(** C1 (counterexample).  With a block indicator on every page and two
    pending customers, the run marks the first customer 'error' and goes on
    to the second, which it marks 'error' too. *)
Lemma block_does_not_halt_campaign :
  ~ (forall (env : Env) (t : table) (first : Customer) (rest : list Customer),
        get_pending_customers None t = first :: rest ->
        has_review first = false ->
        (forall c, fst (WhatsAppClient._check_for_blocks (world env) c)
                   = Returns true) ->
        (forall other, In other rest ->
                       In other (db (snd (run_campaign env t)))) /\
        (forall row, In row (db (snd (run_campaign env t))) ->
                     id row = id first -> status row <> "error")).
Proof.
  intros H.
  destruct (H (Examples.env_of Examples.blocked_world)
              [Examples.ayesha; Examples.bilal] Examples.ayesha [Examples.bilal])
    as [Hrest _].
  - reflexivity.
  - reflexivity.
  - intros c. reflexivity.
  - specialize (Hrest Examples.bilal (or_introl eq_refl)).
    vm_compute in Hrest. destruct Hrest as [Hr | [Hr | []]]; discriminate.
Qed.

(** C1 (amended).  When the block check of [open_chat] fires for a customer
    without a review, [open_chat] raises WhatsAppBlockedError, the provider's
    [send_message] passes it on, and the campaign catches it at the
    customer's boundary like any other exception: the customer is marked
    'error' with the message of the exception, the rows of the other
    customers stay as they are, and the loop goes on with the next
    customer.  The same boundary absorbs a WhatsAppBlockedError raised
    anywhere in a customer's step. *)
Theorem block_marks_customer_error_and_continues
    (env : Env) (pending rest : list Customer) (customer : Customer)
    (s : Run) (c : WhatsAppClient.Client) :
  has_review customer = false ->
  SeleniumProvider._client (provider s) = Some c ->
  fst (WhatsAppClient._check_for_blocks (world env) c) = Returns true ->
  let blocked := mkExn WhatsAppBlockedError WhatsAppClient.blocked_message in
  let c' := snd (WhatsAppClient._check_for_blocks (world env) c) in
  let s' := {| provider := SeleniumProvider.set_client (Some c') (provider s);
               db := mark_error (id customer) WhatsAppClient.blocked_message (db s) |} in
  WhatsAppClient.open_chat (world env) (phone customer) c = (Raises blocked, c') /\
  (forall text,
      SeleniumProvider.send_message (world env) (phone customer) text (provider s)
      = (Raises blocked, SeleniumProvider.set_client (Some c') (provider s))) /\
  guarded_step env pending customer s = (Returns Next, s') /\
  campaign_loop env pending (customer :: rest) s = campaign_loop env pending rest s' /\
  Forall2 (fun row row' => id row <> id customer -> row' = row) (db s) (db s') /\
  (forall s0 e s1,
      process_customer env pending customer s0 = (Raises e, s1) ->
      cls e = WhatsAppBlockedError ->
      guarded_step env pending customer s0
      = (Returns Next,
         {| provider := provider s1;
            db := mark_error (id customer) (take_str 100 (message e)) (db s1) |})).
Proof.
  intros Hr Hc Hb blocked c' s'.
  pose proof (open_chat_blocked (world env) (phone customer) c Hb) as Ho.
  fold blocked c' in Ho.
  assert (Hsend : forall text,
            SeleniumProvider.send_message (world env) (phone customer) text (provider s)
            = (Raises blocked, SeleniumProvider.set_client (Some c') (provider s))).
  { intros text. rewrite ProviderFacts.send_message_eq, Hc, Ho. reflexivity. }
  assert (Hstep : guarded_step env pending customer s = (Returns Next, s')).
  { assert (Hp : process_customer env pending customer s
                 = (Raises blocked,
                    {| provider := SeleniumProvider.set_client (Some c') (provider s);
                       db := db s |})).
    { unfold process_customer. rewrite Hr. unfold bind at 1, bind at 1, send, on_provider.
      rewrite Hsend. reflexivity. }
    rewrite (guarded_step_absorbs _ _ _ _ _ _ Hp eq_refl). reflexivity. }
  split; [exact Ho|]. split; [exact Hsend|]. split; [exact Hstep|].
  split; [|split].
  - simpl. unfold bind at 1. rewrite Hstep. reflexivity.
  - apply mark_error_others.
  - intros s0 e s1 Hp He. apply guarded_step_absorbs; [exact Hp|].
    unfold is_Exception. rewrite He. reflexivity.
Qed.

Lemma block_marks_customer_error_and_continues_witness :
  has_review Examples.ayesha = false /\
  SeleniumProvider._client
    {| SeleniumProvider._headless := false;
       SeleniumProvider._client :=
         Some {| WhatsAppClient.tick := 1; WhatsAppClient.now := 0 |};
       SeleniumProvider._connected := true |}
  = Some {| WhatsAppClient.tick := 1; WhatsAppClient.now := 0 |} /\
  fst (WhatsAppClient._check_for_blocks Examples.blocked_world
         {| WhatsAppClient.tick := 1; WhatsAppClient.now := 0 |}) = Returns true /\
  campaign_loop (Examples.env_of Examples.blocked_world)
    [Examples.ayesha; Examples.bilal] [Examples.ayesha; Examples.bilal]
    {| provider :=
         {| SeleniumProvider._headless := false;
            SeleniumProvider._client :=
              Some {| WhatsAppClient.tick := 1; WhatsAppClient.now := 0 |};
            SeleniumProvider._connected := true |};
       db := [Examples.ayesha; Examples.bilal] |}
  = campaign_loop (Examples.env_of Examples.blocked_world)
      [Examples.ayesha; Examples.bilal] [Examples.bilal]
      {| provider :=
           SeleniumProvider.set_client
             (Some (snd (WhatsAppClient._check_for_blocks Examples.blocked_world
                           {| WhatsAppClient.tick := 1; WhatsAppClient.now := 0 |})))
             {| SeleniumProvider._headless := false;
                SeleniumProvider._client :=
                  Some {| WhatsAppClient.tick := 1; WhatsAppClient.now := 0 |};
                SeleniumProvider._connected := true |};
         db := mark_error (id Examples.ayesha) WhatsAppClient.blocked_message
                 [Examples.ayesha; Examples.bilal] |}.
Proof.
  split; [reflexivity|]. split; [reflexivity|]. split; [reflexivity|].
  exact (proj1 (proj2 (proj2 (proj2
    (block_marks_customer_error_and_continues
       (Examples.env_of Examples.blocked_world)
       [Examples.ayesha; Examples.bilal] [Examples.bilal] Examples.ayesha
       {| provider :=
            {| SeleniumProvider._headless := false;
               SeleniumProvider._client :=
                 Some {| WhatsAppClient.tick := 1; WhatsAppClient.now := 0 |};
               SeleniumProvider._connected := true |};
          db := [Examples.ayesha; Examples.bilal] |}
       {| WhatsAppClient.tick := 1; WhatsAppClient.now := 0 |}
       eq_refl eq_refl eq_refl))))).
Defined.

End CampaignFacts.

(** * Further results *)

(** ** More on the importer *)

Module ExcelParserMore.
Import PyStr PyStrFacts PyStrMore ExcelParser.

Section Parser.
Variable unicode : Unicode.

Lemma keep_no_plus_is_digits (s : str) :
  all_str not_plus s = true ->
  all_str (isdigit unicode) (keep_digits_plus unicode s) = true.
Proof.
  induction s as [|c r IH]; [reflexivity|].
  unfold keep_digits_plus in *. cbn [filter_str all_str].
  intros H. apply andb_true_iff in H. destruct H as [Hc Hr].
  unfold not_plus in Hc. apply negb_true_iff in Hc. rewrite Hc, orb_false_r.
  destruct (isdigit unicode c) eqn:Ed; cbn [all_str]; [rewrite Ed|];
    apply IH; exact Hr.
Qed.

Lemma clean_phone_alphabet (phone : str) :
  all_str (digit_or_plus unicode) (_clean_phone unicode phone) = true.
Proof. apply ExcelParserFacts.clean_phone_digits_or_plus. Qed.

(** A ['+'] is dropped when it leads: the rest decides. *)
Lemma leading_plus_step (z : str) :
  all_str not_plus (drop_str 1 z) = true ->
  all_str (isdigit unicode)
    (if startswith "+" (keep_digits_plus unicode z)
     then drop_str 1 (keep_digits_plus unicode z)
     else keep_digits_plus unicode z) = true.
Proof.
  destruct z as [|c r]; [reflexivity|]. cbn [drop_str]. intros Hr.
  pose proof (keep_no_plus_is_digits r Hr) as Hk.
  unfold keep_digits_plus in *. cbn [filter_str].
  destruct (N.eqb c (ord "+")) eqn:Ep.
  - rewrite orb_true_r. apply N.eqb_eq in Ep. subst c.
    cbn [startswith drop_str ord]. rewrite N.eqb_refl. exact Hk.
  - rewrite orb_false_r. destruct (isdigit unicode c) eqn:Ed.
    + cbn [startswith]. cbn [ord] in Ep. rewrite N.eqb_sym, Ep.
      cbn [all_str]. rewrite Ed. exact Hk.
    + destruct (startswith "+" _);
        [exact (ExcelParserFacts.all_drop_str (isdigit unicode) 1 _ Hk)
        | exact Hk].
Qed.

Lemma rstrip_prefix (u : str) :
  all_str not_plus (drop_str 1 u) = true ->
  all_str not_plus (drop_str 1 (rstrip u)) = true.
Proof.
  destruct (rstrip_spec u) as [w [H _]]. intros Hu.
  destruct (rstrip u) as [|c r]; [reflexivity|].
  rewrite H in Hu. rewrite app_cons in Hu. cbn [drop_str] in *.
  rewrite all_str_app in Hu. apply andb_true_iff in Hu. exact (proj1 Hu).
Qed.

(** X1.  A phone number in which no ['+'] comes after the first character
    that is not white space is normalised to digits only, the digits being
    those of the class [\d]. *)
Theorem clean_phone_digits_when_plus_leads (phone : str) :
  all_str not_plus (drop_str 1 (lstrip phone)) = true ->
  all_str (isdigit unicode) (_clean_phone unicode phone) = true.
Proof.
  intros H. unfold _clean_phone.
  destruct (negb (truthy phone) || PyStr.eqb (lower unicode phone) "nan");
    [reflexivity|].
  pose proof (leading_plus_step (strip phone)) as Hs.
  unfold strip in Hs at 1. specialize (Hs (rstrip_prefix _ H)).
  destruct (startswith "00" _); [apply ExcelParserFacts.all_drop_str|]; exact Hs.
Qed.

(** *** Column detection *)

Lemma column_matches_spec (patterns : list str) (col : str) :
  column_matches unicode patterns col = true <-> matches unicode patterns col.
Proof.
  unfold column_matches, matches. rewrite existsb_exists.
  split; intros [pattern [Hin H]]; exists pattern; (split; [exact Hin|]).
  - apply orb_true_iff in H. destruct H as [H|H]; [left|right];
      apply contains_spec; exact H.
  - apply orb_true_iff. destruct H as [H|H]; [left|right];
      apply contains_spec; exact H.
Qed.

Lemma find_column_spec (columns : list label) (patterns : list str) :
  match _find_column unicode columns patterns with
  | Returns (Some col) =>
      exists before after,
        columns = (map TextLabel before ++ TextLabel col :: after)%list /\
        matches unicode patterns col /\
        forall c, In c before -> ~ matches unicode patterns c
  | Returns None =>
      exists texts,
        columns = map TextLabel texts /\
        forall c, In c texts -> ~ matches unicode patterns c
  | Raises e =>
      cls e = AttributeError /\
      exists before type_name after,
        columns = (map TextLabel before ++ OtherLabel type_name :: after)%list /\
        forall c, In c before -> ~ matches unicode patterns c
  end.
Proof.
  induction columns as [|[col|type_name] rest IH]; cbn [_find_column].
  - exists []. split; [reflexivity | intros c []].
  - destruct (column_matches unicode patterns col) eqn:E.
    + exists [], rest. split; [reflexivity|]. split.
      * apply column_matches_spec. exact E.
      * intros c [].
    + assert (Hn : ~ matches unicode patterns col).
      { intros Hm. apply column_matches_spec in Hm. congruence. }
      destruct (_find_column unicode rest patterns) as [[found|]|e].
      * destruct IH as [before [after [-> [Hm Hb]]]].
        exists (col :: before), after. split; [reflexivity|]. split; [exact Hm|].
        intros c [<-|Hc]; [exact Hn | exact (Hb c Hc)].
      * destruct IH as [texts [-> Hb]]. exists (col :: texts).
        split; [reflexivity|].
        intros c [<-|Hc]; [exact Hn | exact (Hb c Hc)].
      * destruct IH as [He [before [tn [after [-> Hb]]]]]. split; [exact He|].
        exists (col :: before), tn, after. split; [reflexivity|].
        intros c [<-|Hc]; [exact Hn | exact (Hb c Hc)].
  - split; [reflexivity|]. exists [], type_name, rest.
    split; [reflexivity | intros c []].
Qed.

(** X2.  [_find_column] goes through the labels in the order of the file.
    It returns the first text label that matches a pattern (a pattern
    occurs in the lower-cased, trimmed label or the label in a pattern)
    when no label before it is something else than a text; it returns
    nothing exactly when all labels are texts and none matches; and it
    raises AttributeError exactly when it comes to a label that is not a
    text before any match. *)
Theorem find_column_first_match (columns : list label) (patterns : list str) :
  match _find_column unicode columns patterns with
  | Returns (Some col) =>
      exists before after,
        columns = (map TextLabel before ++ TextLabel col :: after)%list /\
        matches unicode patterns col /\
        forall c, In c before -> ~ matches unicode patterns c
  | Returns None =>
      exists texts,
        columns = map TextLabel texts /\
        forall c, In c texts -> ~ matches unicode patterns c
  | Raises e =>
      cls e = AttributeError /\
      exists before type_name after,
        columns = (map TextLabel before ++ OtherLabel type_name :: after)%list /\
        forall c, In c before -> ~ matches unicode patterns c
  end.
Proof. apply find_column_spec. Qed.

(** On text labels the search does not raise. *)
Lemma find_column_texts (texts patterns : list str) :
  exists found,
    _find_column unicode (map TextLabel texts) patterns = Returns found /\
    match found with
    | Some col =>
        exists before after,
          texts = (before ++ col :: after)%list /\
          matches unicode patterns col /\
          forall c, In c before -> ~ matches unicode patterns c
    | None => forall c, In c texts -> ~ matches unicode patterns c
    end.
Proof.
  induction texts as [|col rest IH]; cbn [map _find_column].
  - exists None. split; [reflexivity | intros c []].
  - destruct (column_matches unicode patterns col) eqn:E.
    + exists (Some col). split; [reflexivity|]. exists [], rest.
      split; [reflexivity|]. split; [apply column_matches_spec; exact E|].
      intros c [].
    + assert (Hn : ~ matches unicode patterns col).
      { intros Hm. apply column_matches_spec in Hm. congruence. }
      destruct IH as [found [-> IH]]. exists found. split; [reflexivity|].
      destruct found as [c0|].
      * destruct IH as [before [after [-> [Hm Hb]]]].
        exists (col :: before), after. split; [reflexivity|]. split; [exact Hm|].
        intros c [<-|Hc]; [exact Hn | exact (Hb c Hc)].
      * intros c [<-|Hc]; [exact Hn | exact (IH c Hc)].
Qed.

Lemma find_column_raises columns patterns e :
  _find_column unicode columns patterns = Raises e ->
  cls e = AttributeError /\ exists type_name, In (OtherLabel type_name) columns.
Proof.
  intros H. pose proof (find_column_spec columns patterns) as Hs.
  rewrite H in Hs. destruct Hs as [He [before [tn [after [-> _]]]]].
  split; [exact He|]. exists tn. apply in_or_app. right. left. reflexivity.
Qed.

Lemma clean_columns_texts (granted : bool) (texts : list str) :
  clean_columns unicode granted (map TextLabel texts)
  = Returns (map TextLabel (map (fun c => lower unicode (strip c)) texts)).
Proof.
  destruct texts as [|c r]; [reflexivity|].
  cbn [map clean_columns existsb is_text orb clean_label]. f_equal. f_equal.
  induction r as [|d r IH]; [reflexivity|]. cbn [map clean_label]. rewrite IH.
  reflexivity.
Qed.

Lemma clean_columns_result granted columns :
  match clean_columns unicode granted columns with
  | Returns cleaned =>
      cleaned = map (clean_label unicode) columns
  | Raises e =>
      cls e = AttributeError /\ exists type_name, In (OtherLabel type_name) columns
  end.
Proof.
  unfold clean_columns. destruct columns as [|l0 rest]; [reflexivity|].
  destruct (existsb is_text (l0 :: rest) || granted) eqn:E; [reflexivity|].
  split; [reflexivity|]. destruct l0 as [s|tn]; [discriminate|].
  exists tn. left. reflexivity.
Qed.

Lemma clean_label_other columns type_name :
  In (OtherLabel type_name) (map (clean_label unicode) columns) ->
  exists tn, In (OtherLabel tn) columns.
Proof.
  induction columns as [|[s|tn] rest IH]; cbn [map clean_label].
  - intros [].
  - intros [H|H]; [discriminate|]. destruct (IH H) as [t Ht]. exists t.
    right. exact Ht.
  - intros _. exists tn. left. reflexivity.
Qed.

(** *** The rows *)

Lemma truthy_ne (s : str) : truthy s = true -> s <> "".
Proof. destruct s; [discriminate | intros _ H; discriminate]. Qed.

Lemma parse_row_valid name_col phone_col product_col row c :
  parse_row unicode name_col phone_col product_col row = Some c ->
  valid_customer unicode c.
Proof.
  unfold parse_row.
  destruct (negb (truthy (strip (row name_col)))
            || PyStr.eqb (lower unicode (strip (row name_col))) "nan"
            || negb (truthy (_clean_phone unicode (row phone_col)))) eqn:E;
    [discriminate|].
  apply orb_false_iff in E. destruct E as [E Ep].
  apply orb_false_iff in E. destruct E as [En Enan].
  apply negb_false_iff in En, Ep. apply PyStrFacts.eqb_neq in Enan.
  intros H. injection H as <-. unfold valid_customer. simpl.
  split; [apply truthy_ne; exact En|]. split; [exact Enan|].
  split; [apply strip_idempotent|]. split; [apply truthy_ne; exact Ep|].
  split; [apply clean_phone_alphabet | apply strip_idempotent].
Qed.

Lemma parse_rows_valid name_col phone_col product_col rs :
  Forall (valid_customer unicode)
    (parse_rows unicode name_col phone_col product_col rs) /\
  length (parse_rows unicode name_col phone_col product_col rs) <= length rs.
Proof.
  induction rs as [|row rest [IH1 IH2]]; simpl; [split; [constructor | lia]|].
  destruct (parse_row unicode name_col phone_col product_col row) as [c|] eqn:E.
  - split; [constructor; [eapply parse_row_valid; exact E | exact IH1] | simpl; lia].
  - split; [exact IH1 | lia].
Qed.

(** X3.  Every customer that [parse] returns has a trimmed, non-empty name
    that is not 'nan', a non-empty phone made of digits (those of the class
    [\d]) and ['+'] only, and a trimmed product; rows are only ever dropped,
    never invented. *)
Theorem parse_returns_valid_customers
    (df : Frame) (customers : list ParsedCustomer)
    (detected : option str * option str * option str) :
  parse_frame unicode df = Returns (customers, detected) ->
  Forall (valid_customer unicode) customers /\
  length customers <= length (rows df).
Proof.
  unfold parse_frame.
  destruct (clean_columns unicode (str_accessor_granted df) (columns df))
    as [cleaned|e]; [|discriminate].
  destruct (_find_column unicode cleaned NAME_PATTERNS) as [name_col|e];
    [|discriminate].
  destruct (_find_column unicode cleaned PHONE_PATTERNS) as [phone_col|e];
    [|discriminate].
  destruct (_find_column unicode cleaned PRODUCT_PATTERNS) as [product_col|e];
    [|discriminate].
  destruct (negb (column_truthy name_col)); [discriminate|].
  destruct (negb (column_truthy phone_col)); [discriminate|].
  destruct name_col as [nc|]; destruct phone_col as [pc|];
    intros H; injection H as <- _;
    try (split; [constructor | simpl; lia]).
  apply parse_rows_valid.
Qed.

(** X4.  What [parse] raises on a frame that was read.  When all labels
    are texts: the ValueError about the name column when no label matches a
    name pattern, and the ValueError about the phone column when a name
    column is found but no label matches a phone pattern.  When the search
    for the name column comes to a label that is not a text (a number or a
    date in the header row) before a match: AttributeError.  Nothing else
    is raised: an exception of [parse] is one of the two ValueErrors, or an
    AttributeError on a frame that has a label that is not a text. *)
Theorem parse_missing_columns (df : Frame) :
  (forall texts,
      columns df = map TextLabel texts ->
      let cleaned := map (fun c => lower unicode (strip c)) texts in
      ((forall c, In c cleaned -> ~ matches unicode NAME_PATTERNS c) ->
       exists msg, parse_frame unicode df = Raises (mkExn ValueError msg) /\
                   occurs_in "'Name'" msg) /\
      ((exists c, In c cleaned /\ matches unicode NAME_PATTERNS c) ->
       (forall c, In c cleaned -> matches unicode NAME_PATTERNS c -> c <> "") ->
       (forall c, In c cleaned -> ~ matches unicode PHONE_PATTERNS c) ->
       exists msg, parse_frame unicode df = Raises (mkExn ValueError msg) /\
                   occurs_in "'Phone'" msg)) /\
  (forall before type_name after,
      columns df = (map TextLabel before ++ OtherLabel type_name :: after)%list ->
      (forall c, In c before ->
                 ~ matches unicode NAME_PATTERNS (lower unicode (strip c))) ->
      exists e, parse_frame unicode df = Raises e /\ cls e = AttributeError) /\
  (forall e,
      parse_frame unicode df = Raises e ->
      cls e = ValueError \/
      (cls e = AttributeError /\
       exists type_name, In (OtherLabel type_name) (columns df))).
Proof.
  split; [|split].
  - intros texts Hc cleaned. unfold parse_frame.
    rewrite Hc, clean_columns_texts. fold cleaned.
    destruct (find_column_texts cleaned NAME_PATTERNS) as [nf [-> Hn]].
    destruct (find_column_texts cleaned PHONE_PATTERNS) as [pf [-> Hp]].
    destruct (find_column_texts cleaned PRODUCT_PATTERNS) as [qf [-> _]].
    split.
    + intros Hno. destruct nf as [col|].
      * destruct Hn as [before [after [E [Hm _]]]]. exfalso.
        apply (Hno col); [|exact Hm]. rewrite E. apply in_or_app. right. left.
        reflexivity.
      * cbn [column_truthy negb]. eexists. split; [reflexivity|].
        apply contains_spec. vm_compute. reflexivity.
    + intros [c [Hin Hm]] Hne Hno. destruct nf as [col|].
      * destruct Hn as [before [after [E [Hmc _]]]].
        assert (Hcol : truthy col = true).
        { assert (Hx : col <> "").
          { apply Hne; [|exact Hmc]. rewrite E. apply in_or_app. right. left.
            reflexivity. }
          destruct col; [contradiction | reflexivity]. }
        cbn [column_truthy]. rewrite Hcol. cbn [negb].
        destruct pf as [pcol|].
        -- destruct Hp as [before' [after' [E' [Hm' _]]]]. exfalso.
           apply (Hno pcol); [|exact Hm']. rewrite E'. apply in_or_app. right.
           left. reflexivity.
        -- cbn [column_truthy negb]. eexists. split; [reflexivity|].
           apply contains_spec. vm_compute. reflexivity.
      * exfalso. exact (Hn c Hin Hm).
  - intros before type_name after Hc Hno. unfold parse_frame.
    pose proof (clean_columns_result (str_accessor_granted df) (columns df)) as Hcl.
    destruct (clean_columns unicode (str_accessor_granted df) (columns df))
      as [cleaned|e].
    + subst cleaned. rewrite Hc, map_app. cbn [map clean_label].
      assert (Hf : forall l,
                 (forall c, In c l ->
                    ~ matches unicode NAME_PATTERNS (lower unicode (strip c))) ->
                 forall tail,
                   exists e,
                     _find_column unicode
                       (map (clean_label unicode) (map TextLabel l)
                          ++ OtherLabel "float" :: tail)%list NAME_PATTERNS
                     = Raises e /\ cls e = AttributeError).
      { induction l as [|c l IH]; intros Hl tail; cbn [map app _find_column clean_label].
        - eexists. split; reflexivity.
        - assert (E : column_matches unicode NAME_PATTERNS
                        (lower unicode (strip c)) = false).
          { destruct (column_matches unicode NAME_PATTERNS
                        (lower unicode (strip c))) eqn:E; [|reflexivity].
            apply column_matches_spec in E. exfalso.
            exact (Hl c (or_introl eq_refl) E). }
          rewrite E. apply IH. intros c0 Hc0. apply Hl. right. exact Hc0. }
      destruct (Hf before Hno (map (clean_label unicode) after)) as [e [-> He]].
      exists e. split; [reflexivity | exact He].
    + exists e. split; [reflexivity | exact (proj1 Hcl)].
  - intros e. unfold parse_frame.
    pose proof (clean_columns_result (str_accessor_granted df) (columns df)) as Hcl.
    destruct (clean_columns unicode (str_accessor_granted df) (columns df))
      as [cleaned|e0].
    2:{ intros H. injection H as <-. right. exact Hcl. }
    subst cleaned.
    assert (Hr : forall patterns e1,
               _find_column unicode (map (clean_label unicode) (columns df)) patterns
               = Raises e1 ->
               cls e1 = AttributeError /\
               exists type_name, In (OtherLabel type_name) (columns df)).
    { intros patterns e1 H1. destruct (find_column_raises _ _ _ H1) as [He [tn Hin]].
      split; [exact He|]. exact (clean_label_other _ _ Hin). }
    destruct (_find_column unicode _ NAME_PATTERNS) as [name_col|e1] eqn:E1.
    2:{ intros H. injection H as <-. right. exact (Hr _ _ E1). }
    destruct (_find_column unicode _ PHONE_PATTERNS) as [phone_col|e2] eqn:E2.
    2:{ intros H. injection H as <-. right. exact (Hr _ _ E2). }
    destruct (_find_column unicode _ PRODUCT_PATTERNS) as [product_col|e3] eqn:E3.
    2:{ intros H. injection H as <-. right. exact (Hr _ _ E3). }
    destruct (negb (column_truthy name_col)); [intros H; injection H as <-; left; reflexivity|].
    destruct (negb (column_truthy phone_col)); [intros H; injection H as <-; left; reflexivity|].
    destruct name_col, phone_col; discriminate.
Qed.

End Parser.

Lemma clean_phone_digits_when_plus_leads_witness :
  all_str not_plus (drop_str 1 (lstrip "  +92 (300) 123-4567 ")) = true /\
  all_str (isdigit Examples.ascii_only)
    (_clean_phone Examples.ascii_only "  +92 (300) 123-4567 ") = true.
Proof.
  split; [reflexivity|].
  apply (clean_phone_digits_when_plus_leads Examples.ascii_only
           "  +92 (300) 123-4567 ").
  reflexivity.
Defined.

Lemma parse_returns_valid_customers_witness :
  parse_frame Examples.ascii_only Examples.sample_frame
  = Returns ([ {| c_name := "Ayesha"; c_phone := "923001234567";
                  c_product := "Blender" |} ],
             (Some "customer name", Some "phone", Some "item")) /\
  Forall (valid_customer Examples.ascii_only)
    [ {| c_name := "Ayesha"; c_phone := "923001234567"; c_product := "Blender" |} ] /\
  length [ {| c_name := "Ayesha"; c_phone := "923001234567"; c_product := "Blender" |} ]
  <= length (rows Examples.sample_frame).
Proof.
  assert (H : parse_frame Examples.ascii_only Examples.sample_frame
              = Returns ([ {| c_name := "Ayesha"; c_phone := "923001234567";
                              c_product := "Blender" |} ],
                         (Some "customer name", Some "phone", Some "item")))
    by (vm_compute; reflexivity).
  split; [exact H|].
  exact (parse_returns_valid_customers Examples.ascii_only
           Examples.sample_frame _ _ H).
Defined.

End ExcelParserMore.

(** ** More on sentiment classification *)

Module SentimentMore.
Import PyStr PyStrFacts PyStrMore SentimentService SentimentFacts.

Lemma upper_is_P (c : char) :
  N.eqb (upper_char c) 80 = N.eqb (lower_char c) 112.
Proof.
  unfold upper_char, lower_char, islower, isupper.
  destruct (N.leb_spec 97 c), (N.leb_spec c 122), (N.leb_spec 65 c),
    (N.leb_spec c 90); cbn [andb];
    destruct (N.eqb_spec (c - 32) 80), (N.eqb_spec (c + 32) 112),
      (N.eqb_spec c 80), (N.eqb_spec c 112); try reflexivity; lia.
Qed.

Lemma upper_is_N (c : char) :
  N.eqb (upper_char c) 78 = N.eqb (lower_char c) 110.
Proof.
  unfold upper_char, lower_char, islower, isupper.
  destruct (N.leb_spec 97 c), (N.leb_spec c 122), (N.leb_spec 65 c),
    (N.leb_spec c 90); cbn [andb];
    destruct (N.eqb_spec (c - 32) 78), (N.eqb_spec (c + 32) 110),
      (N.eqb_spec c 78), (N.eqb_spec c 110); try reflexivity; lia.
Qed.

(** On ASCII text the label is compared without regard to case. *)
Lemma capitalize_is_Positive unicode (s : str) :
  all_str is_ascii s = true ->
  PyStr.eqb (capitalize unicode s) "Positive"
  = PyStr.eqb (map_str lower_char s) "positive".
Proof.
  intros Ha. unfold capitalize. rewrite Ha.
  destruct s as [|c r]; [reflexivity|].
  cbn [map_str]. cbn [PyStr.eqb]. rewrite (upper_is_P c). reflexivity.
Qed.

Lemma capitalize_is_Negative unicode (s : str) :
  all_str is_ascii s = true ->
  PyStr.eqb (capitalize unicode s) "Negative"
  = PyStr.eqb (map_str lower_char s) "negative".
Proof.
  intros Ha. unfold capitalize. rewrite Ha.
  destruct s as [|c r]; [reflexivity|].
  cbn [map_str]. cbn [PyStr.eqb]. rewrite (upper_is_N c). reflexivity.
Qed.

Lemma capitalize_is_Neutral unicode (s : str) :
  all_str is_ascii s = true ->
  PyStr.eqb (capitalize unicode s) "Neutral"
  = PyStr.eqb (map_str lower_char s) "neutral".
Proof.
  intros Ha. unfold capitalize. rewrite Ha.
  destruct s as [|c r]; [reflexivity|].
  cbn [map_str]. cbn [PyStr.eqb]. rewrite (upper_is_N c). reflexivity.
Qed.

Section Service.
Variable settings : LLMSettings.
Variable post : request -> http_reply.
Variable unicode : Unicode.

(** X5.  When the remote end replies with a label text (a payload that
    holds a text that is not blank at choices[0].message.content),
    [classify] posts that one request, does not consult the keywords, and
    returns the label that the first word of the trimmed text names once
    capitalised: Positive, Negative, and Neutral for every other word.  On
    an ASCII word this is the word compared without regard to case. *)
Theorem remote_label_is_returned (text content : str) (l : list event) :
  truthy (api_key settings) = true ->
  3 <= len (strip text) ->
  reply_content (post (request_for settings text)) = Some content ->
  exists w,
    first_word content = Some w /\
    classify settings post unicode text l
    = (Returns (named_label unicode w),
       (l ++ [EvPost (request_for settings text)])%list) /\
    (all_str is_ascii (strip w) = true ->
     named_label unicode w
     = if PyStr.eqb (map_str lower_char (strip w)) "positive" then POSITIVE
       else if PyStr.eqb (map_str lower_char (strip w)) "negative" then NEGATIVE
       else NEUTRAL).
Proof.
  intros Hk Hl Hc.
  destruct (reply_content_shape _ _ Hc)
    as (d & m & others & mm & c0 & Hr & H1 & H2 & H3 & Ht & ->).
  destruct (parse_content unicode c0 [] Ht) as [w [Hw _]].
  exists w. split; [exact Hw|]. split.
  - unfold classify. rewrite (long_text_not_short _ Hl), Hk. unfold bind.
    rewrite llm_result.
    + rewrite Hc, Hw. reflexivity.
    + intros e He. rewrite He in Hr. discriminate.
  - intros Ha. unfold named_label.
    rewrite (capitalize_is_Positive unicode _ Ha),
      (capitalize_is_Negative unicode _ Ha), (capitalize_is_Neutral unicode _ Ha).
    destruct (PyStr.eqb (map_str lower_char (strip w)) "positive"); [reflexivity|].
    destruct (PyStr.eqb (map_str lower_char (strip w)) "neutral") eqn:En;
      destruct (PyStr.eqb (map_str lower_char (strip w)) "negative") eqn:Eg;
      try reflexivity.
    apply PyStrFacts.eqb_eq in En, Eg. rewrite En in Eg. discriminate.
Qed.

(** X6.  One call posts at most one request, and none without a credential
    or for a short text; besides that it looks the keywords up at most
    once, after the request. *)
Theorem classify_posts_at_most_once (text : str) (l : list event) :
  exists events,
    snd (classify settings post unicode text l) = (l ++ events)%list /\
    (events = [] \/
     events = [EvKeywords (lower unicode text)] \/
     events = [EvPost (request_for settings text)] \/
     events = [EvPost (request_for settings text);
               EvKeywords (lower unicode text)]) /\
    (truthy (api_key settings) = false \/ len (strip text) < 3 ->
     forall r, ~ In (EvPost r) events).
Proof.
  unfold classify.
  destruct (negb (truthy text) || (len (strip text) <? 3)%nat) eqn:Es.
  { exists []. simpl. rewrite app_nil_r. split; [reflexivity|]. split; [auto|].
    intros _ r []. }
  assert (Hlong : ~ len (strip text) < 3).
  { apply orb_false_iff in Es. destruct Es as [_ Es]. apply Nat.ltb_ge in Es. lia. }
  destruct (truthy (api_key settings)) eqn:Ek.
  - unfold bind.
    pose proof (llm_logs_one_request settings post unicode text l) as Hl.
    destruct (_classify_with_llm settings post unicode text l) as [[o|e] l1];
      simpl in Hl; subst l1.
    + destruct o as [s|].
      * exists [EvPost (request_for settings text)]. simpl.
        split; [reflexivity|]. split; [auto|].
        intros [H|H]; [discriminate | contradiction].
      * rewrite heuristics_returns. simpl.
        exists [EvPost (request_for settings text); EvKeywords (lower unicode text)].
        split; [rewrite <- app_assoc; reflexivity|]. split; [auto|].
        intros [H|H]; [discriminate | contradiction].
    + exists [EvPost (request_for settings text)]. simpl.
      split; [reflexivity|]. split; [auto|].
      intros [H|H]; [discriminate | contradiction].
  - unfold bind, ret. rewrite heuristics_returns. simpl.
    exists [EvKeywords (lower unicode text)]. split; [reflexivity|]. split; [auto|].
    intros _ r [H|[]]. discriminate.
Qed.

End Service.

Lemma remote_label_is_returned_witness :
  truthy (api_key Examples.with_key) = true /\
  3 <= len (strip "It was fine") /\
  reply_content (Examples.praise_reply
                   (request_for Examples.with_key "It was fine"))
  = Some "POSITIVE" /\
  classify Examples.with_key Examples.praise_reply Examples.ascii_only
    "It was fine" []
  = (Returns POSITIVE,
     ([] ++ [EvPost (request_for Examples.with_key "It was fine")])%list).
Proof.
  assert (Hc : reply_content (Examples.praise_reply
                                (request_for Examples.with_key "It was fine"))
               = Some "POSITIVE") by reflexivity.
  split; [reflexivity|]. split; [vm_compute; lia|]. split; [exact Hc|].
  destruct (remote_label_is_returned Examples.with_key Examples.praise_reply
              Examples.ascii_only "It was fine" "POSITIVE" []
              eq_refl ltac:(vm_compute; lia) Hc)
    as (w & Hw & Hcl & _).
  injection Hw as <-. exact Hcl.
Defined.

End SentimentMore.

(** ** More on the browser session client *)

Module WhatsAppClientMore.
Import PyStr PyStrFacts PyStrMore WhatsAppClient WhatsAppClientFacts.
Local Open Scope Z_scope.

(** A [try] with the single clause [except Exception] whose handler
    returns lets nothing through but what is not an [Exception]. *)
Lemma guarded_lets_only_interrupt {St A} (m : M St A) (x : A) s e s' :
  try_except m [ (is_Exception, fun _ => ret x) ] s = (Raises e, s') ->
  cls e = KeyboardInterrupt.
Proof.
  unfold try_except. destruct (m s) as [[a|e0] s0]; [discriminate|]. simpl.
  destruct (is_Exception e0) eqn:E; [discriminate|].
  intros H. injection H as <- _. apply not_Exception_is_interrupt. exact E.
Qed.

Section Client.
Variable world : World.

(** X7.  The block check is a case-insensitive search of the page source for
    the four indicators, and it reports no block when the page source
    cannot be read. *)
Theorem check_for_blocks_spec (c : Client) :
  (forall source,
      page_source (pages world (tick c)) = Returns source ->
      exists b,
        fst (_check_for_blocks world c) = Returns b /\
        (b = true <->
         exists indicator,
           In indicator BLOCK_INDICATORS /\
           occurs_in indicator (lower (unicode_db world) source))) /\
  (forall e,
      page_source (pages world (tick c)) = Raises e ->
      is_Exception e = true ->
      fst (_check_for_blocks world c) = Returns false).
Proof.
  split.
  - intros source Hs.
    unfold _check_for_blocks, try_except, bind, observe, lift. rewrite Hs.
    exists (existsb (fun indicator =>
                       contains indicator (lower (unicode_db world) source))
              BLOCK_INDICATORS).
    split; [reflexivity | apply any_keyword_spec].
  - intros e Hs He.
    unfold _check_for_blocks, try_except, bind, observe, lift. rewrite Hs. simpl.
    rewrite He. reflexivity.
Qed.

(** X8.  [open_chat] raises WhatsAppBlockedError exactly when the block check
    fires; every other failure of the navigation comes back as false, and
    only an interrupt from the keyboard gets through. *)
Theorem open_chat_failure_surface (phone : str) (c : Client) :
  match fst (open_chat world phone c) with
  | Raises e =>
      (e = mkExn WhatsAppBlockedError blocked_message /\
       fst (_check_for_blocks world c) = Returns true) \/
      (cls e = KeyboardInterrupt)
  | Returns _ => fst (_check_for_blocks world c) = Returns false
  end.
Proof.
  unfold open_chat, bind at 1.
  destruct (_check_for_blocks world c) as [[[]|e] c1] eqn:Ec; simpl.
  - left. split; reflexivity.
  - match goal with
    | |- context [try_except ?m ?cl c1] =>
        destruct (try_except m cl c1) as [[b|e] c2] eqn:Et
    end; simpl; [reflexivity|].
    right. eapply guarded_lets_only_interrupt. exact Et.
  - right. unfold _check_for_blocks in Ec.
    eapply guarded_lets_only_interrupt. exact Ec.
Qed.

(** The client's [send_message] never raises for a failure of the page:
    it returns false.  Only an interrupt from the keyboard gets through. *)
Theorem client_send_message_failure_surface (text : str) (c : Client) :
  match fst (WhatsAppClient.send_message world text c) with
  | Raises e => cls e = KeyboardInterrupt
  | Returns _ => True
  end.
Proof.
  destruct (WhatsAppClient.send_message world text c) as [[b|e] c'] eqn:E;
    simpl; [exact I|].
  unfold WhatsAppClient.send_message in E.
  eapply guarded_lets_only_interrupt. exact E.
Qed.

Lemma strategy_end_raises r c e c' :
  strategy_end r c = (Raises e, c') -> cls e = KeyboardInterrupt.
Proof.
  destruct r as [messages [e0|]]; simpl.
  - destruct (is_Exception e0) eqn:E; [discriminate|].
    intros H. injection H as <- _. apply not_Exception_is_interrupt. exact E.
  - discriminate.
Qed.

(** X9.  Discovering the messages never raises for a failure of the page
    (missing pane, stale element, any WebDriver error); only an interrupt
    from the keyboard gets through. *)
Theorem get_message_elements_failure_surface (c : Client) :
  match fst (_get_message_elements world c) with
  | Raises e => cls e = KeyboardInterrupt
  | Returns _ => True
  end.
Proof.
  destruct (_get_message_elements world c) as [[ms|e] c'] eqn:E; simpl; [exact I|].
  revert E. unfold _get_message_elements, bind at 1, observe.
  unfold bind at 1.
  match goal with
  | |- context [strategy_end ?r ?s] =>
      destruct (strategy_end r s) as [[d1|e1] s1] eqn:E1
  end.
  2:{ intros H. injection H as <- _. eapply strategy_end_raises. exact E1. }
  destruct d1 as [result|]; [discriminate|].
  unfold bind at 1, bind at 1.
  match goal with
  | |- context [match snd ?r2 with _ => _ end ?s] =>
      destruct (snd r2) as [e2|]
  end.
  - unfold ret at 1. unfold bind at 1.
    match goal with
    | |- context [strategy_end ?r ?s] =>
        destruct (strategy_end r s) as [[d2|e2'] s2] eqn:E2
    end.
    2:{ intros H. injection H as <- _. eapply strategy_end_raises. exact E2. }
    destruct d2 as [result|]; [discriminate|].
    unfold bind at 1, observe, bind at 1.
    match goal with
    | |- context [strategy_end ?r ?s] =>
        destruct (strategy_end r s) as [[d3|e3] s3] eqn:E3
    end.
    2:{ intros H. injection H as <- _. eapply strategy_end_raises. exact E3. }
    destruct d3; discriminate.
  - unfold bind at 1, observe, ret at 1. unfold bind at 1.
    match goal with
    | |- context [strategy_end ?r ?s] =>
        destruct (strategy_end r s) as [[d2|e2'] s2] eqn:E2
    end.
    2:{ intros H. injection H as <- _. eapply strategy_end_raises. exact E2. }
    destruct d2 as [result|]; [discriminate|].
    unfold bind at 1, observe, bind at 1.
    match goal with
    | |- context [strategy_end ?r ?s] =>
        destruct (strategy_end r s) as [[d3|e3] s3] eqn:E3
    end.
    2:{ intros H. injection H as <- _. eapply strategy_end_raises. exact E3. }
    destruct d3; discriminate.
Qed.

End Client.

(** *** Text extraction *)

Lemma first_text_stripped els t :
  first_text els = Returns (Some t) -> strip t = t /\ t <> "".
Proof.
  induction els as [|el rest IH]; simpl; [discriminate|].
  destruct (el_text el) as [t0|e]; [|discriminate].
  destruct (truthy (strip t0)) eqn:E; [|exact IH].
  intros H. injection H as <-. split; [apply strip_idempotent|].
  destruct (strip t0); [discriminate | discriminate].
Qed.

(** X10.  A text extracted from a message element has no white space at
    either end, and the extraction never fails with a missing or stale
    element. *)
Theorem extracted_text_is_trimmed (el : Element) :
  match _extract_text_from_message el with
  | Returns (Some t) => strip t = t
  | Returns None => True
  | Raises e =>
      is_class NoSuchElementException e = false /\
      is_class StaleElementReferenceException e = false
  end.
Proof.
  unfold _extract_text_from_message.
  induction text_selectors as [|selector rest IH]; simpl.
  - unfold text_fallback. destruct (el_text el) as [t|e]; [|exact I].
    destruct (truthy t); [apply strip_idempotent | exact I].
  - destruct (outcome_bind (el_find_elements el selector) first_text)
      as [[t|]|e] eqn:E.
    + unfold outcome_bind in E.
      destruct (el_find_elements el selector) as [els|e]; [|discriminate].
      exact (proj1 (first_text_stripped _ _ E)).
    + exact IH.
    + destruct (is_class NoSuchElementException e) eqn:E1; [exact IH|].
      destruct (is_class StaleElementReferenceException e) eqn:E2; [exact IH|].
      simpl. split; assumption.
Qed.

(** *** Reading without waiting *)

Section Reading.
Variable world : World.

(** The client after the short delay that starts a read. *)
Lemma random_delay_result c :
  _random_delay world c
  = (if sleep_interrupted (pages world (tick c))
     then Raises (mkExn KeyboardInterrupt "") else Returns tt,
     {| tick := S (tick c);
        now := now c + Z.of_N (latency (pages world (tick c))) |}).
Proof.
  unfold _random_delay, bind, observe.
  destruct (sleep_interrupted (pages world (tick c))); reflexivity.
Qed.

(** The outcome of a read, step by step: the short delay, one scan of the
    page, the choice of a message, the extraction of its text; an
    [Exception] on the way gives none. *)
Lemma guarded_read_outcome (choose : list Msg -> option Msg) c :
  let c1 := {| tick := S (tick c);
               now := now c + Z.of_N (latency (pages world (tick c))) |} in
  choose [] = None ->
  fst (try_except
         (_random_delay world ;;
          let* messages := _get_message_elements world in
          if negb (nonempty messages) then ret None
          else
            match choose messages with
            | None => ret None
            | Some m => lift (_extract_text_from_message (element m))
            end)%py
         [ (is_Exception, fun _ => ret None) ] c)
  = if sleep_interrupted (pages world (tick c))
    then Raises (mkExn KeyboardInterrupt "")
    else
      match fst (_get_message_elements world c1) with
      | Raises e => if is_Exception e then Returns None else Raises e
      | Returns messages =>
          match choose messages with
          | None => Returns None
          | Some m =>
              match _extract_text_from_message (element m) with
              | Raises e => if is_Exception e then Returns None else Raises e
              | Returns text => Returns text
              end
          end
      end.
Proof.
  intros c1 Hnil. unfold try_except, bind at 1.
  rewrite random_delay_result. fold c1.
  destruct (sleep_interrupted (pages world (tick c))); [reflexivity|].
  unfold bind at 1.
  destruct (_get_message_elements world c1) as [[messages|e] c2]; cbn [fst].
  2:{ simpl. destruct (is_Exception e); reflexivity. }
  destruct messages as [|m0 rest].
  { simpl. rewrite Hnil. reflexivity. }
  cbn [nonempty negb].
  destruct (choose (m0 :: rest)) as [m|]; [|reflexivity].
  unfold lift.
  destruct (_extract_text_from_message (element m)) as [text|e]; [reflexivity|].
  simpl. destruct (is_Exception e); reflexivity.
Qed.

(** What a read that follows [guarded_read_outcome] gives. *)
Lemma guarded_read_cases (choose : list Msg -> option Msg) c
    (r : outcome (option str)) :
  let c1 := {| tick := S (tick c);
               now := now c + Z.of_N (latency (pages world (tick c))) |} in
  r = (if sleep_interrupted (pages world (tick c))
       then Raises (mkExn KeyboardInterrupt "")
       else
         match fst (_get_message_elements world c1) with
         | Raises e => if is_Exception e then Returns None else Raises e
         | Returns messages =>
             match choose messages with
             | None => Returns None
             | Some m =>
                 match _extract_text_from_message (element m) with
                 | Raises e => if is_Exception e then Returns None else Raises e
                 | Returns text => Returns text
                 end
             end
         end) ->
  (forall t,
      r = Returns (Some t) <->
      sleep_interrupted (pages world (tick c)) = false /\
      exists messages c2 m,
        _get_message_elements world c1 = (Returns messages, c2) /\
        choose messages = Some m /\
        _extract_text_from_message (element m) = Returns (Some t)) /\
  (r = Returns None <->
   sleep_interrupted (pages world (tick c)) = false /\
   ((exists e c2,
        _get_message_elements world c1 = (Raises e, c2) /\
        is_Exception e = true) \/
    (exists messages c2,
        _get_message_elements world c1 = (Returns messages, c2) /\
        match choose messages with
        | None => True
        | Some m =>
            _extract_text_from_message (element m) = Returns None \/
            exists e, _extract_text_from_message (element m) = Raises e /\
                      is_Exception e = true
        end))) /\
  (forall e, r = Raises e -> cls e = KeyboardInterrupt).
Proof.
  intros c1 ->.
  destruct (sleep_interrupted (pages world (tick c))) eqn:Ei.
  { split; [|split].
    - intros t. split; [discriminate | intros [H _]; discriminate].
    - split; [discriminate | intros [H _]; discriminate].
    - intros e H. injection H as <-. reflexivity. }
  destruct (_get_message_elements world c1) as [[messages|e] c2] eqn:Es; cbn [fst].
  2:{ destruct (is_Exception e) eqn:Ee; (split; [|split]).
      - intros t. split; [discriminate|].
        intros [_ (ms & c2' & m & H & _)]. discriminate.
      - split; [|reflexivity]. intros _. split; [reflexivity|]. left. eauto.
      - discriminate.
      - intros t. split; [discriminate|].
        intros [_ (ms & c2' & m & H & _)]. discriminate.
      - split; [discriminate|].
        intros [_ [(e0 & c2' & H & He) | (ms & c2' & H & _)]]; [|discriminate].
        injection H as <- _. congruence.
      - intros e0 H. injection H as <-.
        apply not_Exception_is_interrupt. exact Ee. }
  destruct (choose messages) as [m|] eqn:El.
  2:{ split; [|split].
      - intros t. split; [discriminate|].
        intros [_ (ms & c2' & m & H & H1 & _)]. injection H as <- _. congruence.
      - split; [|reflexivity]. intros _. split; [reflexivity|]. right.
        exists messages, c2. rewrite El. auto.
      - discriminate. }
  destruct (_extract_text_from_message (element m)) as [text|e] eqn:Ex.
  - split; [|split].
    + intros t. split.
      * intros H. injection H as ->. split; [reflexivity|].
        exists messages, c2, m. auto.
      * intros [_ (ms & c2' & m' & H & H1 & H2)]. injection H as <- _.
        rewrite El in H1. injection H1 as <-. rewrite Ex in H2. exact H2.
    + split.
      * intros H. injection H as ->. split; [reflexivity|]. right.
        exists messages, c2. rewrite El. auto.
      * intros [_ [(e0 & c2' & H & _) | (ms & c2' & H & H1)]]; [discriminate|].
        injection H as <- _. rewrite El in H1.
        destruct H1 as [H1 | (e0 & H1 & _)]; rewrite Ex in H1;
          [exact H1 | discriminate].
    + discriminate.
  - destruct (is_Exception e) eqn:Ee; (split; [|split]).
    + intros t. split; [discriminate|].
      intros [_ (ms & c2' & m' & H & H1 & H2)]. injection H as <- _.
      rewrite El in H1. injection H1 as <-. rewrite Ex in H2. discriminate.
    + split; [|reflexivity]. intros _. split; [reflexivity|]. right.
      exists messages, c2. rewrite El. split; [reflexivity|]. right. eauto.
    + discriminate.
    + intros t. split; [discriminate|].
      intros [_ (ms & c2' & m' & H & H1 & H2)]. injection H as <- _.
      rewrite El in H1. injection H1 as <-. rewrite Ex in H2. discriminate.
    + split; [discriminate|].
      intros [_ [(e0 & c2' & H & _) | (ms & c2' & H & H1)]]; [discriminate|].
      injection H as <- _. rewrite El in H1.
      destruct H1 as [H1 | (e0 & H1 & He)]; rewrite Ex in H1; [discriminate|].
      injection H1 as <-. congruence.
    + intros e0 H. injection H as <-.
      apply not_Exception_is_interrupt. exact Ee.
Qed.

(** X11.  [read_latest_incoming_message] waits a moment and scans the page
    once.  It returns a text exactly when the wait is not interrupted, the
    scan succeeds, and the text is the one extracted from the last incoming
    message of the scan.  It returns none exactly when the wait is not
    interrupted and the scan fails with an [Exception], or finds no
    incoming message, or the extraction from the last incoming message
    gives none or fails with an [Exception].  It raises only an interrupt
    from the keyboard.  [read_latest_message] does the same with the last
    message of either direction. *)
Theorem read_latest_reads_the_last_message (c : Client) :
  let c1 := {| tick := S (tick c);
               now := now c + Z.of_N (latency (pages world (tick c))) |} in
  ((forall t,
       fst (read_latest_incoming_message world c) = Returns (Some t) <->
       sleep_interrupted (pages world (tick c)) = false /\
       exists messages c2 m,
         _get_message_elements world c1 = (Returns messages, c2) /\
         last (filter (fun m => is_incoming m) messages) = Some m /\
         _extract_text_from_message (element m) = Returns (Some t)) /\
   (fst (read_latest_incoming_message world c) = Returns None <->
    sleep_interrupted (pages world (tick c)) = false /\
    ((exists e c2,
         _get_message_elements world c1 = (Raises e, c2) /\
         is_Exception e = true) \/
     (exists messages c2,
         _get_message_elements world c1 = (Returns messages, c2) /\
         match last (filter (fun m => is_incoming m) messages) with
         | None => True
         | Some m =>
             _extract_text_from_message (element m) = Returns None \/
             exists e, _extract_text_from_message (element m) = Raises e /\
                       is_Exception e = true
         end))) /\
   (forall e, fst (read_latest_incoming_message world c) = Raises e ->
              cls e = KeyboardInterrupt)) /\
  ((forall t,
       fst (read_latest_message world c) = Returns (Some t) <->
       sleep_interrupted (pages world (tick c)) = false /\
       exists messages c2 m,
         _get_message_elements world c1 = (Returns messages, c2) /\
         last messages = Some m /\
         _extract_text_from_message (element m) = Returns (Some t)) /\
   (fst (read_latest_message world c) = Returns None <->
    sleep_interrupted (pages world (tick c)) = false /\
    ((exists e c2,
         _get_message_elements world c1 = (Raises e, c2) /\
         is_Exception e = true) \/
     (exists messages c2,
         _get_message_elements world c1 = (Returns messages, c2) /\
         match last messages with
         | None => True
         | Some m =>
             _extract_text_from_message (element m) = Returns None \/
             exists e, _extract_text_from_message (element m) = Raises e /\
                       is_Exception e = true
         end))) /\
   (forall e, fst (read_latest_message world c) = Raises e ->
              cls e = KeyboardInterrupt)).
Proof.
  intros c1. split.
  - apply (guarded_read_cases
             (fun messages => last (filter (fun m => is_incoming m) messages)) c).
    apply (guarded_read_outcome
             (fun messages => last (filter (fun m => is_incoming m) messages)) c).
    reflexivity.
  - apply (guarded_read_cases (fun messages => last messages) c).
    apply (guarded_read_outcome (fun messages => last messages) c).
    reflexivity.
Qed.

(** *** Edge cases of waiting *)

(** What [wait_for_reply] does once the baseline is taken. *)
Lemma wait_for_reply_unfold fuel timeout poll ig c :
  wait_for_reply world fuel timeout poll ig c
  = match capture_baseline world c with
    | (Returns B, cb) => poll_loop world fuel (now c) timeout poll B ig cb
    | (Raises e, cb) => (Raises e, cb)
    end.
Proof.
  unfold wait_for_reply, bind, time_time.
  destruct (capture_baseline world c) as [[B|e] cb]; reflexivity.
Qed.

(** X12.  With a timeout that is not positive, [wait_for_reply] takes the
    baseline and returns none at once, without polling. *)
Theorem wait_for_reply_zero_timeout
    (fuel : nat) (timeout poll_interval : Z) (ig : option str) (c : Client) :
  timeout <= 0 -> (1 <= fuel)%nat ->
  wait_for_reply world fuel timeout poll_interval ig c
  = match capture_baseline world c with
    | (Returns _, cb) => (Returns TimedOut, cb)
    | (Raises e, cb) => (Raises e, cb)
    end.
Proof.
  intros Ht Hf. rewrite wait_for_reply_unfold.
  destruct (capture_baseline world c) as [[B|e] cb] eqn:Eb; [|reflexivity].
  destruct (adv_capture_baseline world _ _ _ Eb) as [Hn _].
  destruct fuel as [|fuel]; [lia|]. simpl. unfold bind, time_time.
  assert (Hc : (now cb - now c <? timeout) = false) by (apply Z.ltb_ge; lia).
  rewrite Hc. reflexivity.
Qed.



End Reading.

Lemma wait_for_reply_zero_timeout_witness :
  0 <= 0 /\ (1 <= 1)%nat /\
  wait_for_reply (Examples.reply_world [Examples.old_message] 0) 1 0 3 None
    {| tick := 0; now := 0 |}
  = match capture_baseline (Examples.reply_world [Examples.old_message] 0)
            {| tick := 0; now := 0 |} with
    | (Returns _, cb) => (Returns TimedOut, cb)
    | (Raises e, cb) => (Raises e, cb)
    end.
Proof.
  split; [lia|]. split; [lia|].
  apply (wait_for_reply_zero_timeout
           (Examples.reply_world [Examples.old_message] 0) 1 0 3 None
           {| tick := 0; now := 0 |}); lia.
Defined.


End WhatsAppClientMore.

(** ** More on the providers *)

Module ProviderMore.
Import PyStr WhatsAppClient WhatsAppClientFacts ProviderFacts.
Local Open Scope Z_scope.

Section Selenium.
Variable world : World.

(** X14.  Once closed, the browser-session provider does nothing until it is
    connected again: sending returns false, waiting and reading return
    none, confirming the login returns false, and none of them changes the
    provider. *)
Theorem closed_provider_is_inert
    (p : SeleniumProvider.provider) (phone text : str) (timeout : Z) :
  quit_not_interrupted world ->
  let p1 := snd (SeleniumProvider.close world p) in
  SeleniumProvider.send_message world phone text p1 = (Returns false, p1) /\
  SeleniumProvider.wait_for_reply world phone timeout p1 = (Returns None, p1) /\
  SeleniumProvider.read_latest_incoming world p1 = (Returns None, p1) /\
  SeleniumProvider.confirm_login world timeout p1 = (Returns false, p1) /\
  SeleniumProvider.is_connected p1 = false.
Proof.
  intros Hq p1. subst p1.
  destruct (provider_close_returns world p Hq) as [p1 [-> [Hc Hn]]]. simpl.
  rewrite send_message_eq, wait_for_reply_eq, read_latest_incoming_eq,
    confirm_login_eq, Hc.
  repeat split; try reflexivity. exact Hn.
Qed.

(** X15.  [connect] never raises for a browser that fails to start: it
    returns false and leaves the provider as it was; when it returns true
    the provider holds the new client.  Only an interrupt from the keyboard
    gets through. *)
Theorem connect_failure_surface (p : SeleniumProvider.provider) :
  match SeleniumProvider.connect world p with
  | (Returns true, p') =>
      exists c,
        new_client world (SeleniumProvider._headless p) = Returns c /\
        p' = SeleniumProvider.set_client (Some c) p
  | (Returns false, p') =>
      p' = p /\
      exists e, launch world (SeleniumProvider._headless p) = Raises e /\
                is_Exception e = true
  | (Raises e, p') => cls e = KeyboardInterrupt /\ p' = p
  end.
Proof.
  rewrite connect_eq. unfold new_client, outcome_bind.
  destruct (launch world (SeleniumProvider._headless p)) as [[]|e] eqn:E.
  - eexists. split; reflexivity.
  - destruct (is_Exception e) eqn:Ee.
    + split; [reflexivity|]. exists e. split; [reflexivity | exact Ee].
    + split; [apply not_Exception_is_interrupt; exact Ee | reflexivity].
Qed.

(** X16.  Over any sequence of calls on a new provider, the flag [_connected]
    is set only while the provider holds a client, so [is_connected] is the
    flag. *)
Theorem connected_flag_has_client (calls : list SeleniumProvider.call) (headless : bool) :
  let p := SeleniumProvider.session world calls (SeleniumProvider.new headless) in
  SeleniumProvider.is_connected p = SeleniumProvider._connected p /\
  (SeleniumProvider._connected p = true ->
   exists c, SeleniumProvider._client p = Some c).
Proof.
  intros p.
  assert (H : SeleniumProvider.flag_needs_client p).
  { apply session_keeps_flag_needs_client. intros H. discriminate. }
  unfold SeleniumProvider.flag_needs_client in H.
  unfold SeleniumProvider.is_connected.
  destruct (SeleniumProvider._connected p) eqn:Ec.
  - specialize (H eq_refl).
    destruct (SeleniumProvider._client p) as [c|]; [|contradiction].
    split; [reflexivity|]. intros _. eauto.
  - split; [reflexivity | discriminate].
Qed.

(** How the client's [wait_for_reply] can end, with enough fuel. *)
Lemma client_wait_for_reply_outcomes fuel timeout poll ig c :
  0 < poll -> (Z.to_nat timeout < fuel)%nat ->
  match WhatsAppClient.wait_for_reply world fuel timeout poll ig c with
  | (Returns (Reply t), _) => t <> ""
  | (Returns TimedOut, c') => timeout <= now c' - now c
  | (Returns OutOfFuel, _) => False
  | (Raises e, _) => cls e = KeyboardInterrupt
  end.
Proof.
  intros Hp Hf.
  destruct (WhatsAppClient.wait_for_reply world fuel timeout poll ig c)
    as [r c'] eqn:E.
  revert E. unfold WhatsAppClient.wait_for_reply, bind at 1, time_time, bind at 1.
  destruct (capture_baseline world c) as [[B|e] cb] eqn:Eb.
  - destruct (adv_capture_baseline world _ _ _ Eb) as [Hn Hk].
    intros H.
    apply (poll_loop_spec world (now c) timeout poll B ig fuel Hp) in H; [|lia|lia].
    destruct H as [[-> Ht] | [[t [c1 [ms [-> [_ [_ [_ Hnew]]]]]]] | [e [-> He]]]].
    + exact Ht.
    + destruct Hnew as [older [m [newer [_ [Hq _]]]]].
      destruct Hq as (_ & _ & _ & Hne & _). exact Hne.
    + exact He.
  - intros H. injection H as <- _.
    unfold capture_baseline in Eb.
    eapply WhatsAppClientMore.guarded_lets_only_interrupt. exact Eb.
Qed.

(** X17.  When the provider's [wait_for_reply] returns a text, the text is not
    empty; when it returns none with a client in place, at least [timeout]
    seconds have passed on the client's clock; it raises only when
    interrupted from the keyboard. *)
Theorem provider_wait_for_reply_outcomes
    (p : SeleniumProvider.provider) (c : Client) (phone : str) (timeout : Z) :
  SeleniumProvider._client p = Some c ->
  match SeleniumProvider.wait_for_reply world phone timeout p with
  | (Returns (Some t), _) => t <> ""
  | (Returns None, p') =>
      exists c', SeleniumProvider._client p' = Some c' /\
                 timeout <= now c' - now c
  | (Raises e, _) => cls e = KeyboardInterrupt
  end.
Proof.
  intros Hc. rewrite wait_for_reply_eq, Hc.
  pose proof (client_wait_for_reply_outcomes (S (Z.to_nat timeout)) timeout 3
                None c ltac:(lia) ltac:(lia)) as H.
  destruct (WhatsAppClient.wait_for_reply world (S (Z.to_nat timeout)) timeout 3 None c)
    as [[[t| |]|e] c'].
  - exact H.
  - exists c'. split; [reflexivity | exact H].
  - contradiction.
  - exact H.
Qed.

End Selenium.

Lemma closed_provider_is_inert_witness :
  quit_not_interrupted (Examples.reply_world [] 0) /\
  SeleniumProvider.send_message (Examples.reply_world [] 0) "923001234567" "Hello!"
    (snd (SeleniumProvider.close (Examples.reply_world [] 0)
            {| SeleniumProvider._headless := false;
               SeleniumProvider._client := Some {| tick := 3; now := 5 |};
               SeleniumProvider._connected := true |}))
  = (Returns false,
     snd (SeleniumProvider.close (Examples.reply_world [] 0)
            {| SeleniumProvider._headless := false;
               SeleniumProvider._client := Some {| tick := 3; now := 5 |};
               SeleniumProvider._connected := true |})).
Proof.
  split; [apply example_quit_not_interrupted|].
  exact (proj1 (closed_provider_is_inert (Examples.reply_world [] 0)
                  {| SeleniumProvider._headless := false;
                     SeleniumProvider._client := Some {| tick := 3; now := 5 |};
                     SeleniumProvider._connected := true |}
                  "923001234567" "Hello!" 180
                  (example_quit_not_interrupted [] 0))).
Defined.

Lemma provider_wait_for_reply_outcomes_witness :
  SeleniumProvider._client
    {| SeleniumProvider._headless := false;
       SeleniumProvider._client := Some {| tick := 0; now := 0 |};
       SeleniumProvider._connected := true |}
  = Some {| tick := 0; now := 0 |} /\
  match SeleniumProvider.wait_for_reply
          (Examples.reply_world [Examples.old_message] 10) "923001234567" 30
          {| SeleniumProvider._headless := false;
             SeleniumProvider._client := Some {| tick := 0; now := 0 |};
             SeleniumProvider._connected := true |} with
  | (Returns (Some t), _) => t <> ""
  | (Returns None, p') =>
      exists c', SeleniumProvider._client p' = Some c' /\
                 30 <= now c' - now {| tick := 0; now := 0 |}
  | (Raises e, _) => cls e = KeyboardInterrupt
  end.
Proof.
  split; [reflexivity|].
  apply (provider_wait_for_reply_outcomes
           (Examples.reply_world [Examples.old_message] 10)
           {| SeleniumProvider._headless := false;
              SeleniumProvider._client := Some {| tick := 0; now := 0 |};
              SeleniumProvider._connected := true |}
           {| tick := 0; now := 0 |} "923001234567" 30).
  reflexivity.
Defined.

(** *** The cloud-API provider *)

(** The cloud-API provider's [connect] succeeds exactly when both the
    API key and the phone number id are given, and only checks that; it
    then reports connected until [close], which always disconnects; the
    credentials are never changed. *)
Theorem api_provider_lifecycle (p : APIProvider.provider) :
  let ok := truthy (APIProvider._api_key p)
            && truthy (APIProvider._phone_number_id p) in
  fst (APIProvider.connect p) = Returns ok /\
  APIProvider.is_connected (snd (APIProvider.connect p))
  = (ok || APIProvider.is_connected p) /\
  APIProvider.is_connected (snd (APIProvider.close (snd (APIProvider.connect p))))
  = false /\
  APIProvider._api_key (snd (APIProvider.close (snd (APIProvider.connect p))))
  = APIProvider._api_key p /\
  APIProvider._phone_number_id (snd (APIProvider.close (snd (APIProvider.connect p))))
  = APIProvider._phone_number_id p.
Proof.
  unfold APIProvider.connect, APIProvider.close, APIProvider.is_connected,
    bind, get, put, ret.
  destruct (truthy (APIProvider._api_key p));
    destruct (truthy (APIProvider._phone_number_id p)); simpl;
    repeat split; reflexivity.
Qed.

End ProviderMore.

(** ** More on the customers table *)

Module DatabaseMore.
Import PyStr PyStrMore Database DatabaseFacts.
Local Open Scope Z_scope.

(** *** Updates *)

Lemma update_customer_cons customer_id a updates c (t : table) :
  update_customer customer_id (a :: updates) (c :: t)
  = (if id c =? customer_id
     then fold_left (fun c a => assign a c) (a :: updates) c else c)
    :: update_customer customer_id (a :: updates) t.
Proof. reflexivity. Qed.

Lemma assign_id a c : id (assign a c) = id c.
Proof. destruct a; reflexivity. Qed.

Lemma assignments_id updates c :
  id (fold_left (fun c a => assign a c) updates c) = id c.
Proof.
  revert c. induction updates as [|a updates IH]; intros c; simpl; [reflexivity|].
  rewrite IH. apply assign_id.
Qed.

(** An update never adds, removes or reorders rows and never changes an
    id; when no row has the given id it changes nothing. *)
Theorem update_keeps_rows (customer_id : Z) (updates : list assignment) (t : table) :
  map id (update_customer customer_id updates t) = map id t /\
  length (update_customer customer_id updates t) = length t /\
  ((forall c, In c t -> id c <> customer_id) ->
   update_customer customer_id updates t = t).
Proof.
  destruct updates as [|a updates]; [repeat split; reflexivity|].
  induction t as [|c t (IH1 & IH2 & IH3)]; [repeat split; reflexivity|].
  rewrite update_customer_cons. split; [|split].
  - cbn [map]. rewrite IH1. f_equal.
    destruct (id c =? customer_id); [apply assignments_id | reflexivity].
  - cbn [length]. rewrite IH2. reflexivity.
  - intros H. rewrite IH3 by (intros c0 Hc0; apply H; right; exact Hc0).
    assert (Hc : id c <> customer_id) by (apply H; left; reflexivity).
    apply Z.eqb_neq in Hc. rewrite Hc. reflexivity.
Qed.

(** *** Marking and the pending list *)

(** The list filter of stdpp on a boolean test. *)
Lemma filter_bool_cons {A} (f : A -> bool) (x : A) (l : list A) :
  filter (fun a => Is_true (f a)) (x :: l)
  = if f x then x :: filter (fun a => Is_true (f a)) l
    else filter (fun a => Is_true (f a)) l.
Proof.
  rewrite filter_cons. destruct (f x); reflexivity.
Qed.

Lemma pending_cons owner c (t : table) :
  get_pending_customers owner (c :: t)
  = if (match owner with Some u => user_id c =? u | None => true end)
       && PyStr.eqb (status c) "pending"
    then c :: get_pending_customers owner t
    else get_pending_customers owner t.
Proof.
  exact (filter_bool_cons
           (fun c => (match owner with Some u => user_id c =? u | None => true end)
                     && PyStr.eqb (status c) "pending") c t).
Qed.

Lemma mark_removes_from_pending owner customer_id a updates (t : table) :
  (forall c, user_id (fold_left (fun c a => assign a c) (a :: updates) c) = user_id c) ->
  (forall c, PyStr.eqb (status (fold_left (fun c a => assign a c) (a :: updates) c))
               "pending" = false) ->
  get_pending_customers owner (update_customer customer_id (a :: updates) t)
  = List.filter (fun c => negb (id c =? customer_id))
      (get_pending_customers owner t).
Proof.
  intros Hu Hs. induction t as [|c t IH]; [reflexivity|].
  rewrite update_customer_cons, !pending_cons.
  destruct (id c =? customer_id) eqn:E.
  - rewrite Hu, Hs, andb_false_r.
    destruct (_ && _); [simpl; rewrite E; simpl|]; exact IH.
  - destruct (_ && _); [simpl; rewrite E; simpl; f_equal|]; exact IH.
Qed.

(** X18.  Marking a customer done, no-reply or error takes exactly the rows of
    that customer out of the pending list, for every owner; the other
    pending customers stay, in their order. *)
Theorem marking_removes_from_pending
    (owner : option Z) (customer_id : Z) (sentiment last_message error : str)
    (t : table) :
  let others := List.filter (fun c => negb (id c =? customer_id))
                  (get_pending_customers owner t) in
  get_pending_customers owner (mark_done customer_id sentiment last_message t)
  = others /\
  get_pending_customers owner (mark_no_reply customer_id t) = others /\
  get_pending_customers owner (mark_error customer_id error t) = others.
Proof.
  intros others. unfold mark_done, mark_no_reply, mark_error.
  repeat split; apply mark_removes_from_pending; intros c; reflexivity.
Qed.

(** *** Resetting *)

Lemma reset_overrides customer_id a updates (t : table) :
  (forall c,
      fold_left (fun c a => assign a c)
        [SetStatus "pending"; SetHasReview false; SetSentiment ""; SetLastMessage ""]
        (fold_left (fun c a => assign a c) (a :: updates) c)
      = fold_left (fun c a => assign a c)
          [SetStatus "pending"; SetHasReview false; SetSentiment ""; SetLastMessage ""]
          c) ->
  reset_customer customer_id (update_customer customer_id (a :: updates) t)
  = reset_customer customer_id t.
Proof.
  intros H. unfold reset_customer. induction t as [|c t IH]; [reflexivity|].
  rewrite !update_customer_cons, IH. f_equal.
  destruct (id c =? customer_id) eqn:E.
  - rewrite assignments_id, E. apply H.
  - rewrite E. reflexivity.
Qed.

Lemma reset_fresh customer_id (t : table) :
  (forall c, In c t -> id c = customer_id -> fresh c) ->
  reset_customer customer_id t = t.
Proof.
  unfold reset_customer. induction t as [|c t IH]; intros H; [reflexivity|].
  rewrite update_customer_cons, IH by (intros c0 Hc0; apply H; right; exact Hc0).
  f_equal. destruct (id c =? customer_id) eqn:E; [|reflexivity].
  apply Z.eqb_eq in E. destruct (H c (or_introl eq_refl) E) as (H1 & H2 & H3 & H4).
  destruct c. simpl in *. subst. reflexivity.
Qed.

(** X19.  [reset_customer] undoes [mark_done], [mark_no_reply] and
    [mark_error]: resetting after a mark is resetting, and for a customer
    whose rows were as INSERT left them it gives the table back. *)
Theorem reset_undoes_marks
    (customer_id : Z) (sentiment last_message error : str) (t : table) :
  (reset_customer customer_id (mark_done customer_id sentiment last_message t)
   = reset_customer customer_id t /\
   reset_customer customer_id (mark_no_reply customer_id t)
   = reset_customer customer_id t /\
   reset_customer customer_id (mark_error customer_id error t)
   = reset_customer customer_id t) /\
  ((forall c, In c t -> id c = customer_id -> fresh c) ->
   reset_customer customer_id (mark_done customer_id sentiment last_message t) = t /\
   reset_customer customer_id (mark_no_reply customer_id t) = t /\
   reset_customer customer_id (mark_error customer_id error t) = t).
Proof.
  assert (H : reset_customer customer_id
                (mark_done customer_id sentiment last_message t)
              = reset_customer customer_id t /\
              reset_customer customer_id (mark_no_reply customer_id t)
              = reset_customer customer_id t /\
              reset_customer customer_id (mark_error customer_id error t)
              = reset_customer customer_id t).
  { unfold mark_done, mark_no_reply, mark_error.
    repeat split; apply reset_overrides; intros c; reflexivity. }
  split; [exact H|]. intros Hf. destruct H as (H1 & H2 & H3).
  rewrite H1, H2, H3, (reset_fresh customer_id t Hf). repeat split.
Qed.

(** *** The audit string *)

Lemma update_customer_nth customer_id a updates (t : table) i :
  nth_error (update_customer customer_id (a :: updates) t) i
  = option_map (fun c => if id c =? customer_id
                         then fold_left (fun c a => assign a c) (a :: updates) c
                         else c)
      (nth_error t i).
Proof. unfold update_customer. apply nth_error_map. Qed.

(** X20.  For an id that SQLite stores, [mark_done] and [mark_error] rewrite
    the customer's row in its place.  After [mark_done] the row has the
    status 'done', the review flag, the given sentiment, and as audit
    string the given text cut at 200 characters (code points); a text that
    fits is stored whole.  After [mark_error] it has the status 'error'
    and the text behind the prefix 'Error: ', cut at 200 together with the
    prefix; the sentiment and the review flag stay.  The other columns of
    the row stay in both cases, and so does every row of another id. *)
Theorem marks_store_bounded_audit_string
    (customer_id : Z) (sentiment text : str) (t : table) (i : nat) (c : Customer) :
  sqlite_integer customer_id ->
  nth_error t i = Some c ->
  id c = customer_id ->
  (exists c',
      nth_error (mark_done customer_id sentiment text t) i = Some c' /\
      status c' = "done" /\ has_review c' = true /\
      Database.sentiment c' = sentiment /\
      last_message c' = take_str 200 text /\
      (len (last_message c') <= 200)%nat /\
      ((len text <= 200)%nat -> last_message c' = text) /\
      id c' = id c /\ user_id c' = user_id c /\ name c' = name c /\
      phone c' = phone c /\ product c' = product c /\
      created_at c' = created_at c) /\
  (exists c',
      nth_error (mark_error customer_id text t) i = Some c' /\
      status c' = "error" /\
      last_message c' = take_str 200 ("Error: " +:+ text) /\
      (len (last_message c') <= 200)%nat /\
      Database.sentiment c' = Database.sentiment c /\
      has_review c' = has_review c /\
      id c' = id c /\ user_id c' = user_id c /\ name c' = name c /\
      phone c' = phone c /\ product c' = product c /\
      created_at c' = created_at c) /\
  (forall j d,
      nth_error t j = Some d -> id d <> customer_id ->
      nth_error (mark_done customer_id sentiment text t) j = Some d /\
      nth_error (mark_error customer_id text t) j = Some d).
Proof.
  intros _ Hc Hid. apply Z.eqb_eq in Hid. split; [|split].
  - eexists. split.
    + unfold mark_done. rewrite update_customer_nth, Hc. cbn [option_map].
      rewrite Hid. reflexivity.
    + cbn [fold_left assign status has_review Database.sentiment last_message
           id user_id name phone product created_at].
      repeat split; [apply len_take_str | apply take_str_short].
  - eexists. split.
    + unfold mark_error. rewrite update_customer_nth, Hc. cbn [option_map].
      rewrite Hid. reflexivity.
    + cbn [fold_left assign status has_review Database.sentiment last_message
           id user_id name phone product created_at].
      repeat split. apply len_take_str.
  - intros j d Hd Hne. apply Z.eqb_neq in Hne.
    unfold mark_done, mark_error. rewrite !update_customer_nth, Hd.
    cbn [option_map]. rewrite Hne. split; reflexivity.
Qed.

Lemma marks_store_bounded_audit_string_witness :
  sqlite_integer 1 /\
  nth_error [Examples.ayesha; Examples.bilal] 0 = Some Examples.ayesha /\
  id Examples.ayesha = 1 /\
  nth_error (mark_done 1 "Positive" "Thank you" [Examples.ayesha; Examples.bilal]) 0
  = Some Examples.ayesha_thanked /\
  exists c',
    nth_error (mark_done 1 "Positive" "Thank you" [Examples.ayesha; Examples.bilal]) 0
    = Some c' /\
    status c' = "done" /\ has_review c' = true /\
    Database.sentiment c' = "Positive" /\
    last_message c' = take_str 200 "Thank you" /\
    (len (last_message c') <= 200)%nat /\
    ((len "Thank you" <= 200)%nat -> last_message c' = "Thank you") /\
    id c' = id Examples.ayesha /\ user_id c' = user_id Examples.ayesha /\
    name c' = name Examples.ayesha /\ phone c' = phone Examples.ayesha /\
    product c' = product Examples.ayesha /\
    created_at c' = created_at Examples.ayesha.
Proof.
  assert (Hi : sqlite_integer 1) by (unfold sqlite_integer; lia).
  split; [exact Hi|]. split; [reflexivity|]. split; [reflexivity|].
  split; [reflexivity|].
  exact (proj1 (marks_store_bounded_audit_string 1 "Positive" "Thank you"
                  [Examples.ayesha; Examples.bilal] 0 Examples.ayesha
                  Hi eq_refl eq_refl)).
Defined.

(** *** Deleting *)

Lemma delete_cons customer_id c (t : table) :
  delete_customer customer_id (c :: t)
  = if id c =? customer_id then delete_customer customer_id t
    else c :: delete_customer customer_id t.
Proof.
  pose proof (filter_bool_cons (fun c => negb (id c =? customer_id)) c t) as H.
  cbv beta in H. unfold delete_customer.
  destruct (id c =? customer_id) eqn:E; exact H.
Qed.

Lemma delete_customer_spec (customer_id : Z) (t : table) :
  get_customer customer_id (delete_customer customer_id t) = None /\
  (forall c, In c (delete_customer customer_id t) <->
             In c t /\ id c <> customer_id) /\
  (forall other, other <> customer_id ->
                 get_customer other (delete_customer customer_id t)
                 = get_customer other t) /\
  ((forall c, In c t -> id c <> customer_id) -> delete_customer customer_id t = t).
Proof.
  induction t as [|c t (IH1 & IH2 & IH3 & IH4)].
  - split; [reflexivity|]. split; [|split].
    + intros c. split; [intros [] | intros [[] _]].
    + intros other _. reflexivity.
    + intros _. reflexivity.
  - rewrite delete_cons. destruct (id c =? customer_id) eqn:E.
    + apply Z.eqb_eq in E. split; [exact IH1|]. split; [|split].
      * intros c0. rewrite IH2. split.
        -- intros [H1 H2]. split; [right; exact H1 | exact H2].
        -- intros [[H1|H1] H2]; [subst c0; contradiction | split; assumption].
      * intros other Ho. rewrite (IH3 other Ho). unfold get_customer. simpl.
        assert (Hne : (id c =? other) = false) by (apply Z.eqb_neq; congruence).
        rewrite Hne. reflexivity.
      * intros H. exfalso. exact (H c (or_introl eq_refl) E).
    + pose proof E as En. apply Z.eqb_neq in En. split; [|split; [|split]].
      * unfold get_customer in *. simpl. rewrite E. exact IH1.
      * intros c0. simpl. rewrite IH2. split.
        -- intros [H|[H1 H2]]; [subst c0; split; [left; reflexivity | exact En]
                               | split; [right; exact H1 | exact H2]].
        -- intros [[H|H] H2]; [left; exact H | right; split; assumption].
      * intros other Ho. unfold get_customer in *. simpl.
        destruct (id c =? other); [reflexivity | apply IH3; exact Ho].
      * intros H. rewrite IH4; [reflexivity|].
        intros c0 Hc0. apply H. right. exact Hc0.
Qed.

(** X21.  For an id that SQLite stores (the driver refuses any other with
    an OverflowError before a statement runs), [delete_customer] removes
    the rows with the given id and no other: the customer can no longer be
    looked up, every other row stays and is found under its id as before,
    and deleting an id that is not in the table changes nothing. *)
Theorem delete_removes_exactly (customer_id : Z) (t : table) :
  sqlite_integer customer_id ->
  get_customer customer_id (delete_customer customer_id t) = None /\
  (forall c, In c (delete_customer customer_id t) <->
             In c t /\ id c <> customer_id) /\
  (forall other, sqlite_integer other -> other <> customer_id ->
                 get_customer other (delete_customer customer_id t)
                 = get_customer other t) /\
  ((forall c, In c t -> id c <> customer_id) -> delete_customer customer_id t = t).
Proof.
  intros _. destruct (delete_customer_spec customer_id t) as (H1 & H2 & H3 & H4).
  split; [exact H1|]. split; [exact H2|]. split; [|exact H4].
  intros other _. apply H3.
Qed.

Lemma delete_removes_exactly_witness :
  sqlite_integer 1 /\
  get_customer 1 (delete_customer 1 [Examples.ayesha; Examples.bilal]) = None /\
  (sqlite_integer 2 ->
   2 <> 1 ->
   get_customer 2 (delete_customer 1 [Examples.ayesha; Examples.bilal])
   = get_customer 2 [Examples.ayesha; Examples.bilal]).
Proof.
  assert (Hi : sqlite_integer 1) by (unfold sqlite_integer; lia).
  split; [exact Hi|].
  destruct (delete_removes_exactly 1 [Examples.ayesha; Examples.bilal] Hi)
    as (H1 & _ & H3 & _).
  split; [exact H1 | exact (H3 2)].
Defined.

(** *** Inserting *)

Lemma max_bound (l : list Z) (s : Z) :
  s <= fold_right Z.max s l /\ forall x, In x l -> x <= fold_right Z.max s l.
Proof.
  induction l as [|y l [IH1 IH2]]; cbn [fold_right].
  - split; [lia | intros x []].
  - split; [lia|]. intros x [<-|H]; [lia|]. specialize (IH2 x H). lia.
Qed.

Lemma next_id_above (st : Store) :
  seq st < next_id st /\ forall c, In c (rows st) -> id c < next_id st.
Proof.
  unfold next_id. destruct (max_bound (map id (rows st)) (seq st)) as [H1 H2].
  split; [lia|]. intros c Hc. specialize (H2 (id c) (in_map id _ c Hc)). lia.
Qed.

Lemma taken_spec owner p (t : table) :
  taken owner p t = true
  <-> exists c, In c t /\ user_id c = owner /\ phone c = p.
Proof.
  unfold taken. rewrite existsb_exists. split.
  - intros (c & Hin & H). apply andb_true_iff in H as [H1 H2].
    apply Z.eqb_eq in H1. apply PyStrFacts.eqb_eq in H2. exists c. auto.
  - intros (c & Hin & H1 & H2). exists c. split; [exact Hin|].
    apply andb_true_iff. split; [apply Z.eqb_eq | apply PyStrFacts.eqb_eq]; assumption.
Qed.

Lemma taken_app owner p (t u : table) :
  taken owner p (t ++ u)%list = taken owner p t || taken owner p u.
Proof. unfold taken. apply existsb_app. Qed.

Lemma pending_app owner (t u : table) :
  get_pending_customers owner (t ++ u)%list
  = (get_pending_customers owner t ++ get_pending_customers owner u)%list.
Proof.
  exact (filter_app
           (fun c => Is_true ((match owner with Some u => user_id c =? u | None => true end)
                              && PyStr.eqb (status c) "pending")) t u).
Qed.

Lemma find_snoc {A} (f : A -> bool) (l : list A) (x : A) :
  (forall a, In a l -> f a = false) ->
  List.find f (l ++ [x])%list = if f x then Some x else None.
Proof.
  induction l as [|a l IH]; intros H; cbn [app List.find].
  - reflexivity.
  - rewrite (H a (or_introl eq_refl)). apply IH. intros b Hb. apply H. right. exact Hb.
Qed.

Lemma insert_customer_some owner n p pr stamp st i st' :
  insert_customer owner n p pr stamp st = (Some i, st') ->
  taken owner p (rows st) = false /\ i = next_id st /\
  st' = {| rows := (rows st ++ [new_row i owner n p pr stamp])%list; seq := i |}.
Proof.
  unfold insert_customer. destruct (taken owner p (rows st)); [discriminate|].
  intros H. injection H as <- <-. auto.
Qed.

Lemma insert_customer_none owner n p pr stamp st st' :
  insert_customer owner n p pr stamp st = (None, st') ->
  taken owner p (rows st) = true /\ st' = st.
Proof.
  unfold insert_customer. destruct (taken owner p (rows st)); [|discriminate].
  intros H. injection H as <-. auto.
Qed.

(** X22.  [add_customer] either refuses the customer, when the user already
    has one with this phone, and then changes nothing; or it appends one
    pending row under an id larger than every id in use, which
    [get_customer] finds from then on and which blocks a second customer
    with the same phone for the same user. *)
Theorem add_customer_result (owner : Z) (n p pr stamp : str) (st : Store) :
  match add_customer owner n p pr stamp st with
  | (None, st') =>
      st' = st /\ exists c, In c (rows st) /\ user_id c = owner /\ phone c = p
  | (Some i, st') =>
      (forall c, In c (rows st) -> ~ (user_id c = owner /\ phone c = p)) /\
      (forall c, In c (rows st) -> id c < i) /\ seq st < i /\
      rows st' = (rows st ++ [new_row i owner n p pr stamp])%list /\
      get_customer i (rows st') = Some (new_row i owner n p pr stamp) /\
      get_pending_customers (Some owner) (rows st')
      = (get_pending_customers (Some owner) (rows st)
           ++ [new_row i owner n p pr stamp])%list /\
      (forall n' pr' stamp',
          add_customer owner n' p pr' stamp' st' = (None, st'))
  end.
Proof.
  unfold add_customer.
  destruct (insert_customer owner n p pr stamp st) as [[i|] st'] eqn:E.
  - apply insert_customer_some in E as (Ht & Hi & ->).
    destruct (next_id_above st) as [Hs Hids]. rewrite <- Hi in Hs, Hids.
    cbn [rows seq]. split; [|split; [exact Hids|split; [exact Hs|split; [reflexivity|split; [|split]]]]].
    + intros c Hc Hk. assert (Hy : taken owner p (rows st) = true)
        by (apply taken_spec; exists c; tauto).
      congruence.
    + unfold get_customer. rewrite find_snoc.
      * cbn [new_row id]. rewrite Z.eqb_refl. reflexivity.
      * intros c Hc. apply Z.eqb_neq. specialize (Hids c Hc). lia.
    + rewrite pending_app, pending_cons. cbn [new_row user_id status].
      rewrite Z.eqb_refl. reflexivity.
    + intros n' pr' stamp'. unfold insert_customer. cbn [rows].
      rewrite taken_app. replace (taken owner p [new_row i owner n p pr stamp]) with true.
      * rewrite orb_true_r. reflexivity.
      * unfold taken. cbn [existsb new_row user_id phone].
        rewrite Z.eqb_refl, PyStrFacts.eqb_refl. reflexivity.
  - apply insert_customer_none in E as (Ht & ->). split; [reflexivity|].
    apply taken_spec. exact Ht.
Qed.

Lemma insert_keeps_keys owner n p pr stamp st :
  well_keyed (rows st) ->
  well_keyed (rows (snd (insert_customer owner n p pr stamp st))).
Proof.
  intros [Hid Hkey]. unfold insert_customer.
  destruct (taken owner p (rows st)) eqn:Ht; [split; assumption|].
  cbn [snd rows]. destruct (next_id_above st) as [_ Hids]. split.
  - rewrite map_app. apply NoDup_app. split; [exact Hid|]. split.
    + intros x Hx Hn. cbn [map new_row id] in Hn.
      apply list_elem_of_In in Hx, Hn. destruct Hn as [<-|[]].
      apply in_map_iff in Hx as (c & Hc & Hin). specialize (Hids c Hin). lia.
    + cbn [map]. apply NoDup_singleton.
  - rewrite map_app. apply NoDup_app. split; [exact Hkey|]. split.
    + intros x Hx Hn. cbn [map new_row user_id phone] in Hn.
      apply list_elem_of_In in Hx, Hn. destruct Hn as [<-|[]].
      apply in_map_iff in Hx as (c & Hc & Hin). injection Hc as H1 H2.
      assert (Hy : taken owner p (rows st) = true)
        by (apply taken_spec; exists c; tauto).
      congruence.
    + cbn [map]. apply NoDup_singleton.
Qed.

Lemma bulk_loop_keeps_keys owner stamp customers :
  forall result st,
    well_keyed (rows st) ->
    well_keyed (rows (snd (bulk_loop owner stamp customers result st))).
Proof.
  induction customers as [|customer rest IH]; intros result st H; cbn [bulk_loop].
  - exact H.
  - destruct (negb (truthy (strip (e_name customer)))
              || negb (truthy (strip (e_phone customer)))); [apply IH; exact H|].
    pose proof (insert_keeps_keys owner (strip (e_name customer))
                  (strip (e_phone customer)) (strip (e_product customer))
                  stamp st H) as Hk.
    destruct (insert_customer owner (strip (e_name customer))
                (strip (e_phone customer)) (strip (e_product customer)) stamp st)
      as [[i|] st1]; apply IH; exact Hk.
Qed.

(** X23.  Inserting keeps the keys of the table unique: after [add_customer]
    and after [bulk_add_customers] no two rows share an id, and no two
    rows of one user share a phone, whatever the batch holds (a phone that
    comes twice in one batch is inserted once). *)
Theorem inserts_keep_keys_unique
    (owner : Z) (n p pr stamp : str) (customers : list Entry) (st : Store) :
  well_keyed (rows st) ->
  well_keyed (rows (snd (add_customer owner n p pr stamp st))) /\
  well_keyed (rows (snd (bulk_add_customers owner stamp customers st))).
Proof.
  intros H. split.
  - apply insert_keeps_keys. exact H.
  - apply bulk_loop_keeps_keys. exact H.
Qed.

Lemma inserts_keep_keys_unique_witness :
  well_keyed (rows {| rows := [Examples.ayesha; Examples.bilal]; seq := 2 |}) /\
  well_keyed
    (rows (snd (bulk_add_customers 1 "2025-01-02 09:00:00"
                  [ {| e_name := "Chand"; e_phone := "923009999999"; e_product := "Kettle" |};
                    {| e_name := "Chand again"; e_phone := " 923009999999 "; e_product := "" |} ]
                  {| rows := [Examples.ayesha; Examples.bilal]; seq := 2 |}))).
Proof.
  assert (H : well_keyed (rows {| rows := [Examples.ayesha; Examples.bilal]; seq := 2 |})).
  { split; vm_compute.
    - constructor; [intros H; apply list_elem_of_In in H as [H|[]]; discriminate|].
      constructor; [intros H; apply list_elem_of_In in H as []|]. constructor.
    - constructor; [intros H; apply list_elem_of_In in H as [H|[]]; discriminate|].
      constructor; [intros H; apply list_elem_of_In in H as []|]. constructor. }
  split; [exact H|].
  exact (proj2 (inserts_keep_keys_unique 1 "" "" "" "2025-01-02 09:00:00"
                  [ {| e_name := "Chand"; e_phone := "923009999999"; e_product := "Kettle" |};
                    {| e_name := "Chand again"; e_phone := " 923009999999 "; e_product := "" |} ]
                  {| rows := [Examples.ayesha; Examples.bilal]; seq := 2 |} H)).
Defined.

(** The loop of [bulk_add_customers], from any counts and any store. *)
Lemma bulk_loop_accounts owner stamp customers :
  forall result st,
    let out := bulk_loop owner stamp customers result st in
    (added (fst out) + skipped (fst out) + length (errors (fst out))
     = added result + skipped result + length (errors result) + length customers)%nat /\
    exists news,
      rows (snd out) = (rows st ++ news)%list /\
      (added (fst out) = added result + length news)%nat /\
      Forall (fun c => fresh c /\ user_id c = owner /\
                       truthy (name c) = true /\ truthy (phone c) = true /\
                       strip (name c) = name c /\ strip (phone c) = phone c /\
                       seq st < id c) news.
Proof.
  induction customers as [|customer rest IH]; intros result st; cbn [bulk_loop].
  - cbn zeta. cbn [fst snd length]. split; [lia|]. exists [].
    rewrite app_nil_r. cbn [length]. split; [reflexivity|]. split; [lia|constructor].
  - destruct (negb (truthy (strip (e_name customer)))
              || negb (truthy (strip (e_phone customer)))) eqn:Eb.
    + specialize (IH {| added := added result; skipped := skipped result;
                        errors := (errors result ++ [customer])%list |} st).
      cbn zeta in IH |- *. cbn [added skipped errors] in IH.
      rewrite length_app in IH. cbn [length] in IH |- *.
      destruct IH as [IH1 IH2]. split; [lia | exact IH2].
    + apply orb_false_iff in Eb as [En Ep].
      apply negb_false_iff in En, Ep.
      destruct (insert_customer owner (strip (e_name customer))
                  (strip (e_phone customer)) (strip (e_product customer)) stamp st)
        as [[i|] st1] eqn:E.
      * apply insert_customer_some in E as (Ht & Hi & ->).
        specialize (IH {| added := S (added result); skipped := skipped result;
                          errors := errors result |}
                       {| rows := (rows st ++ [new_row i owner (strip (e_name customer))
                                                 (strip (e_phone customer))
                                                 (strip (e_product customer)) stamp])%list;
                          seq := i |}).
        cbn zeta in IH |- *. cbn [added skipped errors rows seq] in IH.
        destruct IH as [IH1 (news & IH2 & IH3 & IH4)]. cbn [length]. split; [lia|].
        exists (new_row i owner (strip (e_name customer)) (strip (e_phone customer))
                  (strip (e_product customer)) stamp :: news).
        split; [rewrite IH2, <- app_assoc; reflexivity|].
        cbn [length]. split; [lia|].
        destruct (next_id_above st) as [Hs _]. rewrite <- Hi in Hs.
        constructor.
        -- cbn [new_row user_id name phone id]. unfold fresh. cbn [new_row status has_review sentiment last_message].
           repeat split; try assumption; try apply strip_idempotent.
        -- eapply Forall_impl; [exact IH4|]. cbv beta.
           intros c (H1 & H2 & H3 & H4 & H5 & H6 & H7). repeat split; try assumption; try apply H1. lia.
      * apply insert_customer_none in E as (Ht & ->).
        specialize (IH {| added := added result; skipped := S (skipped result);
                          errors := errors result |} st).
        cbn zeta in IH |- *. cbn [added skipped errors] in IH.
        destruct IH as [IH1 IH2]. cbn [length]. split; [lia | exact IH2].
Qed.

(** X24.  [bulk_add_customers] accounts for every entry of the batch exactly
    once, as added, as skipped (the phone is taken) or as an error (name or
    phone blank after trimming); it leaves the rows that were there as they
    were and appends one row per added entry, each pending, owned by the
    given user, with a trimmed non-empty name and phone. *)
Theorem bulk_add_accounts_for_every_entry
    (owner : Z) (stamp : str) (customers : list Entry) (st : Store) :
  let result := fst (bulk_add_customers owner stamp customers st) in
  let st' := snd (bulk_add_customers owner stamp customers st) in
  (added result + skipped result + length (errors result) = length customers)%nat /\
  exists news,
    rows st' = (rows st ++ news)%list /\ length news = added result /\
    Forall (fun c => fresh c /\ user_id c = owner /\
                     truthy (name c) = true /\ truthy (phone c) = true /\
                     strip (name c) = name c /\ strip (phone c) = phone c /\
                     seq st < id c) news.
Proof.
  cbn zeta. unfold bulk_add_customers.
  destruct (bulk_loop_accounts owner stamp customers
              {| added := 0; skipped := 0; errors := [] |} st)
    as [H1 (news & H2 & H3 & H4)].
  cbn [added skipped errors length] in H1, H3. split; [lia|].
  exists news. split; [exact H2|]. split; [lia | exact H4].
Qed.

End DatabaseMore.

(** ** The campaign, continued *)

Module CampaignMore.
Import PyStr Database Campaign DatabaseFacts DatabaseMore.

(** *** Steps that do not write *)

Lemma q_ret {A} (a : A) : quiet (ret a).
Proof. intros s r s' H. injection H as _ <-. reflexivity. Qed.

Lemma q_lift {A} (o : outcome A) : quiet (lift o).
Proof. intros s r s' H. injection H as _ <-. reflexivity. Qed.

Lemma q_on_provider {A} (m : M SeleniumProvider.provider A) : quiet (on_provider m).
Proof.
  intros s r s' H. unfold on_provider in H.
  destruct (m (provider s)) as [r0 p]. injection H as _ <-. reflexivity.
Qed.

Lemma on_provider_eq {A} (m : M SeleniumProvider.provider A) (s : Run) :
  on_provider m s
  = (fst (m (provider s)), {| provider := snd (m (provider s)); db := db s |}).
Proof. unfold on_provider. destruct (m (provider s)); reflexivity. Qed.

(** *** Steps that record an outcome *)

Section Records.
Variable customer : Customer.

Lemma settled_weaken sure t t' :
  settled sure customer t t' -> settled false customer t t'.
Proof. destruct sure; cbn [settled]; auto. Qed.

Lemma settled_refl t : settled false customer t t.
Proof. left. reflexivity. Qed.

Lemma rec_quiet {A} (m : M Run A) : quiet m -> records false customer m.
Proof.
  intros Hq s r s' H. specialize (Hq s r s' H).
  destruct r as [a|e]; [left; exact Hq|].
  destruct (is_Exception e); [exact Hq | left; exact Hq].
Qed.

Lemma rec_on_db sure (f : table -> table) :
  (forall t, write customer t (f t)) -> records sure customer (on_db f).
Proof.
  intros Hf s r s' H. injection H as <- <-. cbn [db].
  destruct sure; cbn [settled]; [apply Hf | right; apply Hf].
Qed.

Lemma rec_bind_quiet {A B} sure (m : M Run A) (k : A -> M Run B) :
  quiet m -> (forall a, records sure customer (k a)) ->
  records sure customer (bind m k).
Proof.
  intros Hm Hk s r s' H. unfold bind in H.
  destruct (m s) as [[a|e] s1] eqn:E.
  - specialize (Hm _ _ _ E). specialize (Hk a s1 r s' H).
    rewrite Hm in Hk. exact Hk.
  - injection H as <- <-. specialize (Hm _ _ _ E).
    destruct (is_Exception e); [exact Hm | left; exact Hm].
Qed.

Lemma rec_tail {A B} sure (m : M Run A) (k : A -> M Run B) :
  records sure customer m ->
  (forall a, quiet (k a)) -> (forall a, interrupt_only (k a)) ->
  records sure customer (bind m k).
Proof.
  intros Hm Hq Hi s r s' H. unfold bind in H.
  destruct (m s) as [[a|e] s1] eqn:E.
  - specialize (Hm _ _ _ E). cbv beta iota in Hm.
    rewrite (Hq a _ _ _ H).
    destruct r as [b|e]; [exact Hm|].
    rewrite (Hi a _ _ _ H). eapply settled_weaken. exact Hm.
  - injection H as <- <-. exact (Hm _ _ _ E).
Qed.

Lemma trail_refl (todo : list Customer) (t : table) : trail todo t t.
Proof.
  induction todo as [|c rest IH]; [constructor|].
  eapply TrailStep; [left; reflexivity | exact IH].
Qed.

Lemma write_removes_from_pending owner (t t' : table) :
  write customer t t' ->
  get_pending_customers owner t'
  = List.filter (fun c => negb (id c =? id customer)%Z)
      (get_pending_customers owner t).
Proof.
  intros [sentiment last_message| |error];
    apply mark_removes_from_pending; intros c; reflexivity.
Qed.

End Records.

Ltac rec_step :=
  first
    [ apply rec_on_db; intros ?; constructor
    | apply rec_bind_quiet;
      [first [apply q_on_provider | apply q_lift] | intros ?]
    | apply rec_quiet; apply q_ret
    | match goal with
      | |- records _ _ (if ?b then _ else _) => destruct b
      | |- records _ _ (match ?x with _ => _ end) => destruct x
      end ].

Section Run.
Variable env : Env.

Lemma random_delay_interrupt_only : interrupt_only (random_delay env).
Proof.
  intros s e s' H. unfold random_delay in H. rewrite on_provider_eq in H.
  unfold bind, get in H.
  destruct (SeleniumProvider._client (provider s)) as [c|]; [|discriminate].
  unfold SeleniumProvider.on_client in H.
  rewrite WhatsAppClientMore.random_delay_result in H.
  destruct (WhatsAppClient.sleep_interrupted _); [|discriminate].
  injection H as <- _. reflexivity.
Qed.

Lemma process_customer_records pending customer :
  records (negb (has_review customer)) customer
    (process_customer env pending customer).
Proof.
  unfold process_customer. apply rec_tail.
  - destruct (has_review customer); cbn [negb]; unfold send, classify;
      repeat rec_step.
  - intros _. destruct (bool_decide _); [apply q_on_provider | apply q_ret].
  - intros _. destruct (bool_decide _); [apply random_delay_interrupt_only|].
    intros s e s' H. discriminate.
Qed.

Lemma guarded_step_records pending customer s :
  exists k s',
    guarded_step env pending customer s = (Returns k, s') /\
    settled false customer (db s) (db s') /\
    (k = Next -> has_review customer = false -> write customer (db s) (db s')).
Proof.
  unfold guarded_step, try_except, bind at 1.
  destruct (process_customer env pending customer s) as [[[]|e] s1] eqn:E;
    apply process_customer_records in E.
  - exists Next, s1. split; [reflexivity|]. split.
    + eapply settled_weaken. exact E.
    + intros _ Hr. rewrite Hr in E. exact E.
  - cbn [dispatch fst snd]. unfold is_class.
    destruct (bool_decide (cls e = KeyboardInterrupt)) eqn:Ek.
    + apply bool_decide_eq_true in Ek.
      assert (He : is_Exception e = false) by (unfold is_Exception; rewrite Ek; reflexivity).
      rewrite He in E. exists Break, s1. split; [reflexivity|].
      split; [exact E | discriminate].
    + apply bool_decide_eq_false in Ek.
      destruct (is_Exception e) eqn:He.
      2:{ exfalso. apply Ek.
          apply WhatsAppClientFacts.not_Exception_is_interrupt. exact He. }
      eexists Next, _. split; [reflexivity|]. cbn [db]. rewrite E.
      split; [right; constructor | intros _ _; constructor].
Qed.


(** X26.  A customer without a review whose step is not interrupted leaves
    the pending list: the step has recorded 'done', 'no_reply' or 'error'
    for the customer, and the pending list afterwards is the one before
    without the customer, so the next run does not message the customer
    again. *)
Theorem uninterrupted_new_customer_is_settled
    (pending : list Customer) (customer : Customer) (s : Run) :
  has_review customer = false ->
  fst (guarded_step env pending customer s) = Returns Next ->
  let t' := db (snd (guarded_step env pending customer s)) in
  write customer (db s) t' /\
  forall owner,
    get_pending_customers owner t'
    = List.filter (fun c => negb (id c =? id customer)%Z)
        (get_pending_customers owner (db s)).
Proof.
  intros Hr Hn t'. subst t'.
  destruct (guarded_step_records pending customer s) as (k & s' & H1 & _ & H3).
  rewrite H1 in Hn |- *. cbn [fst snd] in Hn |- *. injection Hn as ->.
  specialize (H3 eq_refl Hr). split; [exact H3|].
  intros owner. apply write_removes_from_pending. exact H3.
Qed.

Lemma campaign_loop_trail pending todo :
  forall s, exists s',
    campaign_loop env pending todo s = (Returns tt, s') /\
    trail todo (db s) (db s').
Proof.
  induction todo as [|customer rest IH]; intros s.
  - exists s. split; [reflexivity | constructor].
  - destruct (guarded_step_records pending customer s) as (k & s1 & H1 & H2 & _).
    cbn [campaign_loop]. unfold bind at 1. rewrite H1. destruct k.
    + destruct (IH s1) as (s' & H3 & H4). exists s'. split; [exact H3|].
      eapply TrailStep; eassumption.
    + exists s1. split; [reflexivity|].
      eapply TrailStep; [exact H2 | apply trail_refl].
Qed.


(** *** The browser *)

Lemma close_releases (p : SeleniumProvider.provider) :
  match fst (SeleniumProvider.close (world env) p) with
  | Returns _ =>
      SeleniumProvider._client (snd (SeleniumProvider.close (world env) p)) = None
  | Raises e => is_Exception e = false
  end.
Proof.
  rewrite ProviderFacts.close_eq.
  destruct (SeleniumProvider._client p) as [c|] eqn:Ec; [|exact Ec].
  destruct (WhatsAppClient.close (world env) c) as [[[]|e] c']; [reflexivity|].
  destruct (is_Exception e) eqn:He; [reflexivity | exact He].
Qed.

Lemma on_close_released (s : Run) r s' :
  on_provider (SeleniumProvider.close (world env)) s = (Returns r, s') ->
  SeleniumProvider._client (provider s') = None.
Proof.
  rewrite on_provider_eq. pose proof (close_releases (provider s)) as H.
  destruct (fst (SeleniumProvider.close (world env) (provider s))); [|discriminate].
  intros E. injection E as _ <-. exact H.
Qed.

Lemma campaign_with_releases pending s r s' :
  SeleniumProvider._client (provider s) = None ->
  campaign_with env pending s = (Returns r, s') ->
  SeleniumProvider._client (provider s') = None.
Proof.
  intros Hc. unfold campaign_with.
  destruct (negb (WhatsAppClient.nonempty pending));
    [intros H; injection H as _ <-; exact Hc|].
  unfold bind at 1. rewrite on_provider_eq, ProviderFacts.connect_eq.
  destruct (WhatsAppClient.new_client (world env)
              (SeleniumProvider._headless (provider s))) as [c|e]; cbn [fst snd negb].
  2:{ destruct (is_Exception e); cbn [fst snd negb];
        [intros H; injection H as _ <-; exact Hc | discriminate]. }
  destruct (negb (operator_ready env)); [apply on_close_released|].
  unfold bind at 1. rewrite on_provider_eq, ProviderFacts.confirm_login_eq.
  cbn [provider SeleniumProvider.set_client SeleniumProvider._client].
  destruct (WhatsAppClient.wait_for_login (world env) 30 c) as [[ready|e] c'];
    cbn [fst snd]; [|discriminate].
  destruct (negb ready); [apply on_close_released|].
  unfold bind at 1.
  match goal with
  | |- context [campaign_loop env pending pending ?s0] =>
      destruct (campaign_loop_trail pending pending s0) as (s2 & -> & _)
  end.
  apply on_close_released.
Qed.

Lemma run_campaign_eq (t : table) :
  run_campaign env t
  = campaign_with env (get_pending_customers None t)
      {| provider := SeleniumProvider.new false; db := t |}.
Proof. reflexivity. Qed.

(** X28.  A run that ends without an exception leaves the provider without
    a client and not connected: every exit that is taken after the browser
    was launched goes through [close], and the loop over the customers
    cannot fail before it. *)
Theorem run_campaign_releases_browser (t : table) :
  fst (run_campaign env t) = Returns tt ->
  SeleniumProvider._client (provider (snd (run_campaign env t))) = None /\
  SeleniumProvider.is_connected (provider (snd (run_campaign env t))) = false.
Proof.
  intros H.
  assert (Hc : SeleniumProvider._client (provider (snd (run_campaign env t))) = None).
  { rewrite run_campaign_eq in H |- *.
    destruct (campaign_with env (get_pending_customers None t)
                {| provider := SeleniumProvider.new false; db := t |})
      as [r s'] eqn:E.
    cbn [fst snd] in H |- *. subst r.
    eapply campaign_with_releases; [|exact E]. reflexivity. }
  split; [exact Hc|]. unfold SeleniumProvider.is_connected. rewrite Hc.
  apply andb_false_r.
Qed.

(** X29.  An error while waiting for the login that is no timeout ends the run
    with that error: nothing closes the browser, which the provider still
    holds, and nothing is written to the table. *)
Theorem login_error_leaves_browser_open (t : table) (e : exn) :
  get_pending_customers None t <> [] ->
  WhatsAppClient.launch (world env) false = Returns tt ->
  operator_ready env = true ->
  WhatsAppClient.wait_until_present (WhatsAppClient.pages (world env) 0)
    WhatsAppClient.SELECTORS_search_box 30 = Raises e ->
  cls e <> TimeoutException ->
  exists c,
    run_campaign env t
    = (Raises e,
       {| provider := {| SeleniumProvider._headless := false;
                         SeleniumProvider._client := Some c;
                         SeleniumProvider._connected := false |};
          db := t |}).
Proof.
  intros Hp Hl Ho Hw He.
  rewrite run_campaign_eq. unfold campaign_with.
  destruct (get_pending_customers None t) as [|c0 rest]; [contradiction|].
  cbn [WhatsAppClient.nonempty negb].
  unfold bind at 1. rewrite on_provider_eq, ProviderFacts.connect_eq.
  cbn [provider SeleniumProvider.new SeleniumProvider._headless].
  unfold WhatsAppClient.new_client. rewrite Hl. cbn [WhatsAppClient.outcome_bind fst snd negb].
  rewrite Ho. cbn [negb].
  unfold bind at 1. rewrite on_provider_eq, ProviderFacts.confirm_login_eq.
  cbn [provider SeleniumProvider.set_client SeleniumProvider._client].
  unfold WhatsAppClient.wait_for_login, try_except, bind, WhatsAppClient.observe, lift.
  cbn [WhatsAppClient.tick]. rewrite Hw. cbn [dispatch fst snd].
  assert (Hk : is_class TimeoutException e = false)
    by (apply bool_decide_eq_false; exact He).
  rewrite Hk. cbn [fst snd]. eexists. reflexivity.
Qed.

(** X30.  Customers are messaged only in a confirmed session: when nobody is
    pending, the browser cannot be launched, the operator cancels at the
    prompt, or the login is not confirmed in time or fails, the run leaves
    the table exactly as it found it. *)
Theorem run_without_session_writes_nothing (t : table) :
  get_pending_customers None t = [] \/
  (exists e, WhatsAppClient.launch (world env) false = Raises e) \/
  operator_ready env = false \/
  (exists e,
      WhatsAppClient.wait_until_present (WhatsAppClient.pages (world env) 0)
        WhatsAppClient.SELECTORS_search_box 30 = Raises e) ->
  db (snd (run_campaign env t)) = t.
Proof.
  intros H.
  rewrite run_campaign_eq. unfold campaign_with.
  destruct (get_pending_customers None t) as [|c0 rest] eqn:Ep; [reflexivity|].
  destruct H as [H|H]; [discriminate|].
  cbn [WhatsAppClient.nonempty negb].
  unfold bind at 1. rewrite on_provider_eq, ProviderFacts.connect_eq.
  cbn [provider SeleniumProvider.new SeleniumProvider._headless].
  unfold WhatsAppClient.new_client.
  destruct (WhatsAppClient.launch (world env) false) as [[]|e0] eqn:El;
    cbn [WhatsAppClient.outcome_bind fst snd negb].
  2:{ destruct (is_Exception e0); reflexivity. }
  destruct H as [[e1 H]|H]; [discriminate|].
  destruct (operator_ready env) eqn:Eo; cbn [negb];
    [|rewrite on_provider_eq; reflexivity].
  destruct H as [H|[e1 Hw]]; [discriminate|].
  unfold bind at 1. rewrite on_provider_eq, ProviderFacts.confirm_login_eq.
  cbn [provider SeleniumProvider.set_client SeleniumProvider._client].
  unfold WhatsAppClient.wait_for_login, try_except, bind, WhatsAppClient.observe, lift.
  cbn [WhatsAppClient.tick]. rewrite Hw. cbn [dispatch fst snd].
  destruct (is_class TimeoutException e1); cbn [fst snd ret negb];
    [rewrite on_provider_eq|]; reflexivity.
Qed.

End Run.

Lemma login_error_leaves_browser_open_witness :
  get_pending_customers None [Examples.ayesha] <> [] /\
  exists c,
    run_campaign (Examples.env_of Examples.lost_browser_world) [Examples.ayesha]
    = (Raises (mkExn WebDriverException "chrome not reachable"),
       {| provider := {| SeleniumProvider._headless := false;
                         SeleniumProvider._client := Some c;
                         SeleniumProvider._connected := false |};
          db := [Examples.ayesha] |}).
Proof.
  assert (Hp : get_pending_customers None [Examples.ayesha] <> []) by discriminate.
  split; [exact Hp|].
  apply (login_error_leaves_browser_open
           (Examples.env_of Examples.lost_browser_world) [Examples.ayesha]
           (mkExn WebDriverException "chrome not reachable") Hp);
    [reflexivity | reflexivity | reflexivity | discriminate].
Defined.

Lemma uninterrupted_new_customer_is_settled_witness :
  has_review Examples.ayesha = false /\
  fst (guarded_step (Examples.env_of Examples.blocked_world)
         [Examples.ayesha; Examples.bilal] Examples.ayesha
         {| provider := SeleniumProvider.new false;
            db := [Examples.ayesha; Examples.bilal] |}) = Returns Next /\
  write Examples.ayesha [Examples.ayesha; Examples.bilal]
    (db (snd (guarded_step (Examples.env_of Examples.blocked_world)
                [Examples.ayesha; Examples.bilal] Examples.ayesha
                {| provider := SeleniumProvider.new false;
                   db := [Examples.ayesha; Examples.bilal] |}))).
Proof.
  split; [reflexivity|]. split; [reflexivity|].
  exact (proj1 (uninterrupted_new_customer_is_settled
                  (Examples.env_of Examples.blocked_world)
                  [Examples.ayesha; Examples.bilal] Examples.ayesha
                  {| provider := SeleniumProvider.new false;
                     db := [Examples.ayesha; Examples.bilal] |}
                  eq_refl eq_refl)).
Defined.

Lemma run_campaign_releases_browser_witness :
  fst (run_campaign (Examples.env_of (Examples.reply_world [] 60)) [Examples.ayesha])
  = Returns tt /\
  SeleniumProvider._client
    (provider (snd (run_campaign (Examples.env_of (Examples.reply_world [] 60))
                      [Examples.ayesha]))) = None.
Proof.
  assert (H : fst (run_campaign (Examples.env_of (Examples.reply_world [] 60))
                     [Examples.ayesha]) = Returns tt) by (vm_compute; reflexivity).
  split; [exact H|].
  exact (proj1 (run_campaign_releases_browser
                  (Examples.env_of (Examples.reply_world [] 60)) [Examples.ayesha] H)).
Defined.

Lemma run_without_session_writes_nothing_witness :
  operator_ready
    {| world := Examples.reply_world [] 60; llm := Examples.no_key;
       post := Examples.post_times_out; google_link := "https://g.page/r/review";
       operator_ready := false |} = false /\
  db (snd (run_campaign
             {| world := Examples.reply_world [] 60; llm := Examples.no_key;
                post := Examples.post_times_out;
                google_link := "https://g.page/r/review";
                operator_ready := false |}
             [Examples.ayesha; Examples.bilal]))
  = [Examples.ayesha; Examples.bilal].
Proof.
  split; [reflexivity|].
  apply (run_without_session_writes_nothing
           {| world := Examples.reply_world [] 60; llm := Examples.no_key;
              post := Examples.post_times_out;
              google_link := "https://g.page/r/review";
              operator_ready := false |}
           [Examples.ayesha; Examples.bilal]).
  right. right. left. reflexivity.
Defined.

End CampaignMore.
